(** * Pentool: scanner, analyzer and reporter agents

    A shallow embedding of the three agents of the repository:

    - the scanner agent ([Scanner], cmd/scanner-agent/main.go): the
      semaphore-bounded port scan;
    - the analyzer agent ([Analyzer], cmd/analyzer-agent/main.go): the
      per-port service detection handlers;
    - the reporter agent ([Reporter], cmd/reporter-agent/main.go): the
      aggregate registry, the two completion triggers and the report;

    and of the main agent ([MainAgent]) that records the scans and queues
    them, with the messages that the agents exchange ([json]).

    Go [int] values are [Z]; the counters of the code are bounded by the
    length of a slice, so no wrap-around is reachable.  Go strings are byte
    strings, here [string].  Time is a clock in nanoseconds, as
    [time.Duration] is.  Goroutines are modelled by interleaving the
    critical sections of the code, one atomic step per section. *)

From Stdlib Require Import ZArith DecimalString Ascii String.
From stdpp Require Import gmap strings list.

#[local] Open Scope Z_scope.

(** ** The functions of Go's [strings] and [fmt] that the agents call *)

Module strings.

(** [strings.HasPrefix]. *)
Fixpoint HasPrefix (s prefix : string) {struct prefix} : bool :=
  match prefix, s with
  | EmptyString, _ => true
  | String a p, String b s' => Ascii.eqb a b && HasPrefix s' p
  | String _ _, EmptyString => false
  end.

(** [strings.Contains]: [substr] occurs at some offset of [s]. *)
Fixpoint Contains (s substr : string) : bool :=
  HasPrefix s substr ||
  match s with
  | EmptyString => false
  | String _ s' => Contains s' substr
  end.

(** [strings.TrimPrefix]. *)
Definition TrimPrefix (s prefix : string) : string :=
  if HasPrefix s prefix
  then String.substring (String.length prefix)
         (String.length s - String.length prefix) s
  else s.

(** [strings.Split(s, sep)] for a separator of one byte, which is how both
    callers use it (a space, a line feed): the pieces between the
    occurrences of [sep], one more than there are occurrences. *)
Fixpoint Split (s : string) (sep : ascii) : list string :=
  match s with
  | EmptyString => [EmptyString]
  | String c s' =>
      if Ascii.eqb c sep then EmptyString :: Split s' sep
      else match Split s' sep with
           | [] => [String c EmptyString]
           | p :: ps => String c p :: ps
           end
  end.

(** White space as [unicode.IsSpace] sees it below 0x80: tab, line feed,
    vertical tab, form feed, carriage return and space.  The banners of the
    properties below are ASCII. *)
Definition isSpace (c : ascii) : bool :=
  let n := N_of_ascii c in
  ((9 <=? n) && (n <=? 13))%N || (n =? 32)%N.

Fixpoint TrimLeft (s : string) : string :=
  match s with
  | EmptyString => EmptyString
  | String c s' => if isSpace c then TrimLeft s' else s
  end.

Fixpoint TrimRight (s : string) : string :=
  match s with
  | EmptyString => EmptyString
  | String c s' =>
      match TrimRight s' with
      | EmptyString => if isSpace c then EmptyString else String c EmptyString
      | t => String c t
      end
  end.

(** [strings.TrimSpace], on a string of ASCII bytes. *)
Definition TrimSpace (s : string) : string := TrimRight (TrimLeft s).

(** [strings.ReplaceAll(s, old, new)] for [old] of one byte. *)
Fixpoint ReplaceAll (s : string) (old : ascii) (new : string) : string :=
  match s with
  | EmptyString => EmptyString
  | String c s' =>
      if Ascii.eqb c old then new +:+ ReplaceAll s' old new
      else String c (ReplaceAll s' old new)
  end.

(** [strings.ToLower], on a string of ASCII bytes: the letters A to Z
    change, and nothing else. *)
Definition lowerByte (c : ascii) : ascii :=
  let n := N_of_ascii c in
  if ((65 <=? n) && (n <=? 90))%N then ascii_of_N (n + 32) else c.

Fixpoint ToLower (s : string) : string :=
  match s with
  | EmptyString => EmptyString
  | String c s' => String (lowerByte c) (ToLower s')
  end.

(** The byte [c] occurs in [s]. *)
Fixpoint hasByte (c : ascii) (s : string) : bool :=
  match s with
  | EmptyString => false
  | String b s' => Ascii.eqb b c || hasByte c s'
  end.

(** Line feed, and carriage return with line feed. *)
Definition LF : string := String (ascii_of_nat 10) EmptyString.
Definition CRLF : string := String (ascii_of_nat 13) LF.

(** The [%d] verb of [fmt.Sprintf]. *)
Definition itoa (n : Z) : string := NilZero.string_of_int (Z.to_int n).

(** Go's [len] of a string. *)
Definition len (s : string) : Z := Z.of_nat (String.length s).

End strings.

(** ** pkg/models *)

Module models.

(** [models.ScanResult]: the result of scanning a single port, as the
    reporter decodes it. *)
Module ScanResult.
Record t := mk {
  ID : string;
  ScanID : string;
  Target : string;
  Port : Z;
  Protocol : string;
  State : string;   (* open, closed, filtered *)
  Error : string
}.
End ScanResult.

(** [models.ServiceInfo].  The [Confidence] field, a float64 that no agent
    reads, is left out. *)
Module ServiceInfo.
Record t := mk {
  ID : string;
  ScanID : string;
  Target : string;
  Port : Z;
  ServiceName : string;
  Version : string;
  Banner : string
}.
End ServiceInfo.

(** [models.ScanStatistics]. *)
Module ScanStatistics.
Record t := mk {
  TotalPorts : Z;
  OpenPorts : Z;
  ClosedPorts : Z
}.
End ScanStatistics.

End models.

(** ** cmd/scanner-agent/main.go *)

Module Scanner.

Definition Second : Z := 1000000000.
Definition maxWorkers : nat := 10.
Definition portTimeout : Z := 1 * Second.

Definition topPorts : list Z :=
  [21; 22; 23; 25; 80; 110; 443; 445; 3306; 3389;
   5432; 6379; 8080; 8443; 27017].

Module ScanRequest.
Record t := mk {
  ID : string;
  Target : string;
  Ports : list Z
}.
End ScanRequest.

(** The scanner's own [ScanResult]: there is no state field, a port is
    open or it is not, and [Error] says why not. *)
Module ScanResult.
Record t := mk {
  ID : string;
  Target : string;
  Port : Z;
  IsOpen : bool;
  Error : string
}.
End ScanResult.

(** The error of [net.DialTimeout]: whether it is a [net.Error], what its
    [Timeout()] says, and its text. *)
Record dialError := mkDialError {
  isNetError : bool;
  Timeout : bool;
  text : string
}.

Inductive dialed :=
  | Connected
  | NotConnected (err : dialError).

(** What [scanPort] does on the network. *)
Inductive netOp :=
  | DialTimeout (network address : string) (timeout : Z)
  | Close.

(** [scanPort], given what the dial returns: the result and the network
    operations made, in order. *)
Definition scanPort (scanID target : string) (port : Z) (conn : dialed)
  : ScanResult.t * list netOp :=
  let address := target +:+ ":" +:+ strings.itoa port in
  match conn with
  | NotConnected err =>
      (* Port is closed or filtered *)
      (ScanResult.mk scanID target port false
         (if isNetError err && Timeout err then "timeout"
          else "connection_refused"),
       [DialTimeout "tcp" address portTimeout])
  | Connected =>
      (* Port is open *)
      (ScanResult.mk scanID target port true "",
       [DialTimeout "tcp" address portTimeout; Close])
  end.

(** *** scanPorts: the goroutines, the semaphore and the result channel *)

(** Where a probe goroutine stands. *)
Inductive worker :=
  | Waiting                             (* before [sem <- struct{}{}] *)
  | Dialing                             (* inside [net.DialTimeout] *)
  | Scanned (result : ScanResult.t)     (* [scanPort] has returned *)
  | Sent                                (* [results <- result] done *)
  | Released                            (* [<-sem] done *)
  | Finished.                           (* [wg.Done()] done *)

Record pool := mkPool {
  scanID : string;
  target : string;
  workers : list (Z * worker);
  sem : nat;                            (* slots taken *)
  results : list ScanResult.t;          (* the buffer of the channel *)
  wg : nat;
  closed : bool;
  published : list ScanResult.t
}.

(** The state once the loop over [ports] has started every goroutine. *)
Definition scanPorts (scanID target : string) (ports : list Z) : pool :=
  mkPool scanID target ((fun p => (p, Waiting)) <$> ports) 0 []
    (length ports) false [].

(** handleScanRequest, for a request that decodes. *)
Definition handleScanRequest (req : ScanRequest.t) : pool :=
  (* Use default ports if none specified *)
  let ports :=
    if (length (ScanRequest.Ports req) =? 0)%nat then topPorts
    else ScanRequest.Ports req in
  scanPorts (ScanRequest.ID req) (ScanRequest.Target req) ports.

Definition setWorker (i : nat) (w : worker) (c : pool) : list (Z * worker) :=
  match workers c !! i with
  | Some (p, _) => <[i := (p, w)]> (workers c)
  | None => workers c
  end.

Inductive event :=
  | Acquire (i : nat)
  | DialReturns (i : nat) (conn : dialed)
  | Send (i : nat)
  | Release (i : nat)
  | Done (i : nat)
  | CloseResults
  | Publish.

(** One step of one goroutine; [None] when the goroutine is not there or
    is blocked. *)
Definition step (e : event) (c : pool) : option pool :=
  match e with
  | Acquire i =>
      match workers c !! i with
      | Some (p, Waiting) =>
          if (sem c <? maxWorkers)%nat then
            Some (mkPool (scanID c) (target c) (setWorker i Dialing c)
                    (S (sem c)) (results c) (wg c) (closed c) (published c))
          else None
      | _ => None
      end
  | DialReturns i conn =>
      match workers c !! i with
      | Some (p, Dialing) =>
          let result := fst (scanPort (scanID c) (target c) p conn) in
          Some (mkPool (scanID c) (target c) (setWorker i (Scanned result) c)
                  (sem c) (results c) (wg c) (closed c) (published c))
      | _ => None
      end
  | Send i =>
      match workers c !! i with
      | Some (p, Scanned result) =>
          if (length (results c) <? length (workers c))%nat then
            Some (mkPool (scanID c) (target c) (setWorker i Sent c)
                    (sem c) (results c ++ [result]) (wg c) (closed c)
                    (published c))
          else None
      | _ => None
      end
  | Release i =>
      match workers c !! i with
      | Some (p, Sent) =>
          Some (mkPool (scanID c) (target c) (setWorker i Released c)
                  (pred (sem c)) (results c) (wg c) (closed c) (published c))
      | _ => None
      end
  | Done i =>
      match workers c !! i with
      | Some (p, Released) =>
          Some (mkPool (scanID c) (target c) (setWorker i Finished c)
                  (sem c) (results c) (pred (wg c)) (closed c) (published c))
      | _ => None
      end
  | CloseResults =>
      if (wg c =? 0)%nat && negb (closed c) then
        Some (mkPool (scanID c) (target c) (workers c) (sem c) (results c)
                (wg c) true (published c))
      else None
  | Publish =>
      match results c with
      | result :: rest =>
          Some (mkPool (scanID c) (target c) (workers c) (sem c) rest
                  (wg c) (closed c) (published c ++ [result]))
      | [] => None
      end
  end.

Fixpoint run (es : list event) (c : pool) : option pool :=
  match es with
  | [] => Some c
  | e :: es' =>
      match step e c with
      | Some c' => run es' c'
      | None => None
      end
  end.

(** The loop over the channel has ended: [scanPorts] returns. *)
Definition completed (c : pool) : bool :=
  closed c && bool_decide (results c = []).

Definition isDialing (w : Z * worker) : bool :=
  match snd w with Dialing => true | _ => false end.

(** A goroutine between its [sem <- struct{}{}] and its [<-sem]. *)
Definition holdsSlot (w : Z * worker) : bool :=
  match snd w with
  | Dialing | Scanned _ | Sent => true
  | _ => false
  end.

Definition count (f : Z * worker -> bool) (c : pool) : nat :=
  length (filter (fun w => f w = true) (workers c)).

(** The connection attempts in flight. *)
Definition outstanding (c : pool) : nat := count isDialing c.

(** The events one goroutine goes through when nothing else runs. *)
Definition probe (conn : dialed) (i : nat) : list event :=
  [Acquire i; DialReturns i conn; Send i; Release i; Done i; Publish].

(** A schedule that runs the probes one after the other. *)
Definition oneByOne (conns : list dialed) : list event :=
  mjoin (imap (fun i conn => probe conn i) conns) ++ [CloseResults].

(** What a goroutine has put on the channel so far. *)
Definition emitted (w : Z * worker) : bool :=
  match snd w with
  | Sent | Released | Finished => true
  | _ => false
  end.

Definition notFinished (w : Z * worker) : bool :=
  match snd w with
  | Finished => false
  | _ => true
  end.

(** A goroutine that can take a step whatever the others do. *)
Definition running (w : Z * worker) : bool :=
  match snd w with
  | Dialing | Scanned _ | Sent | Released => true
  | _ => false
  end.

Definition isWaiting (w : Z * worker) : bool :=
  match snd w with Waiting => true | _ => false end.

(** How many steps a goroutine has left. *)
Definition remaining (w : Z * worker) : nat :=
  match snd w with
  | Waiting => 5
  | Dialing => 4
  | Scanned _ => 3
  | Sent => 2
  | Released => 1
  | Finished => 0
  end%nat.

(** A bound on the number of steps left before [scanPorts] returns. *)
Definition stepsLeft (c : pool) : nat :=
  (2 * sum_list_with remaining (workers c) + length (results c)
   + (if closed c then 0 else 1))%nat.

(** A result made by the scan [id] of [tgt] for port [p]. *)
Definition resultOf (id tgt : string) (p : Z) (r : ScanResult.t) : Prop :=
  ScanResult.ID r = id /\ ScanResult.Target r = tgt
  /\ ScanResult.Port r = p.

Definition scannedOk (id tgt : string) (w : Z * worker) : Prop :=
  match snd w with
  | Scanned r => resultOf id tgt (fst w) r
  | _ => True
  end.

(** What holds of the pool of the scan [id] of [tgt] over [ports] at any
    time. *)
Record poolInv (id tgt : string) (ports : list Z) (c : pool) : Prop := {
  inv_id : scanID c = id;
  inv_target : target c = tgt;
  inv_ports : fst <$> workers c = ports;
  inv_sem : sem c = count holdsSlot c;
  inv_cap : (sem c <= maxWorkers)%nat;
  inv_wg : wg c = count notFinished c;
  inv_closed : closed c = true -> wg c = 0%nat;
  inv_scanned : Forall (scannedOk id tgt) (workers c);
  inv_sent :
    Forall (fun r => ScanResult.ID r = id /\ ScanResult.Target r = tgt)
      (published c ++ results c);
  inv_chan :
    ScanResult.Port <$> (published c ++ results c)
    ≡ₚ fst <$> filter (fun w => emitted w = true) (workers c)
}.

(** What [scanPort] says of a port: open and no error, or not open and
    one of its two error words. *)
Definition verdict (r : ScanResult.t) : bool :=
  if ScanResult.IsOpen r then String.eqb (ScanResult.Error r) ""
  else String.eqb (ScanResult.Error r) "timeout"
       || String.eqb (ScanResult.Error r) "connection_refused".

Definition scannedVerdict (w : Z * worker) : bool :=
  match snd w with
  | Scanned r => verdict r
  | _ => true
  end.

End Scanner.

(** ** cmd/analyzer-agent/main.go *)

Module Analyzer.
Import strings.

Module ScanResult.
Record t := mk {
  ID : string;
  Target : string;
  Port : Z;
  IsOpen : bool;
  Error : string
}.
End ScanResult.

Module ServiceInfo.
Record t := mk {
  ScanID : string;
  Target : string;
  Port : Z;
  Service : string;
  Version : string;
  Banner : string
}.
End ServiceInfo.
Import ServiceInfo.

Definition setService (s : string) (info : ServiceInfo.t) : ServiceInfo.t :=
  ServiceInfo.mk (ScanID info) (Target info) (Port info) s (Version info)
    (Banner info).

Definition setVersion (v : string) (info : ServiceInfo.t) : ServiceInfo.t :=
  ServiceInfo.mk (ScanID info) (Target info) (Port info) (Service info) v
    (Banner info).

Definition setBanner (b : string) (info : ServiceInfo.t) : ServiceInfo.t :=
  ServiceInfo.mk (ScanID info) (Target info) (Port info) (Service info)
    (Version info) b.

(** The table of [NewServiceDetector]. *)
Definition serviceTable : list (Z * string) :=
  [(21, "FTP"); (22, "SSH"); (23, "Telnet"); (25, "SMTP"); (80, "HTTP");
   (110, "POP3"); (143, "IMAP"); (443, "HTTPS"); (445, "SMB");
   (1433, "MSSQL"); (3306, "MySQL"); (3389, "RDP"); (5432, "PostgreSQL");
   (5900, "VNC"); (6379, "Redis"); (8080, "HTTP-Proxy");
   (8443, "HTTPS-Alt"); (27017, "MongoDB")].

Definition serviceRegistry : gmap Z string := list_to_map serviceTable.

(** *** The network as a handler sees it

    An error is [io.EOF] or another error, with its text. *)
Inductive error :=
  | EOF
  | Err (text : string).

Definition Error (e : error) : string :=
  match e with
  | EOF => "EOF"
  | Err text => text
  end.

(** [err != nil && err != io.EOF]. *)
Definition notEOF (err : option error) : bool :=
  match err with
  | Some (Err _) => true
  | _ => false
  end.

(** The fresh connection of a handler: what the dial returns, and what the
    k-th read and the k-th write on the connection return.  A read returns
    the bytes it got and maybe an error. *)
Record Conn := mkConn {
  dial : option error;
  reads : nat -> string * option error;
  writes : nat -> option error
}.

(** What [client.Get] returns: an error, or a response, of which the
    protocol, the status code, the status text and the [Server] header are
    read. *)
Inductive response :=
  | GetFails (e : error)
  | Response (Proto : string) (StatusCode : Z) (Status : string)
      (Server : string).

Record Net := mkNet {
  tcp : Conn;
  http : response
}.

(** The I/O steps a handler has made, each with its error if any. *)
Inductive io :=
  | Connect (err : option error)
  | Read (data : string) (err : option error)
  | Write (err : option error)
  | Get (err : option error).

Definition ioError (s : io) : option error :=
  match s with
  | Connect err | Read _ err | Write err | Get err => err
  end.

(** Some I/O step of the log has failed. *)
Definition ioFailed (log : list io) : bool :=
  existsb (fun s => bool_decide (ioError s <> None)) log.

(** A read into [buf := make([]byte, 1024)] gives at most 1024 bytes. *)
Definition buf (data : string) : string := String.substring 0 1024 data.

Definition detectSSH (c : Conn) (info : ServiceInfo.t)
  : ServiceInfo.t * list io :=
  match dial c with
  | Some e => (info, [Connect (Some e)])
  | None =>
      let '(banner, err) := reads c 0%nat in
      let log := [Connect None; Read banner err] in
      if notEOF err then (info, log)
      else
        let info := setBanner (TrimSpace banner) info in
        (if Contains banner "SSH" then
           let info := setService "SSH" info in
           (* Extract version if possible *)
           if Contains banner "OpenSSH" then
             match Split banner " " with
             | _ :: part1 :: _ => setVersion part1 info
             | _ => info
             end
           else info
         else info, log)
  end.

Definition detectHTTP (r : response) (info : ServiceInfo.t)
  : ServiceInfo.t * list io :=
  match r with
  | GetFails e => (info, [Get (Some e)])
  | Response proto code status server =>
      let info := setService "HTTP" info in
      (* Check for server header *)
      (if negb (String.eqb server "") then
         setBanner ("HTTP/" +:+ proto +:+ " " +:+ itoa code +:+ " " +:+ status
                    +:+ " - Server: " +:+ server)
           (setVersion server info)
       else
         setBanner ("HTTP/" +:+ proto +:+ " " +:+ itoa code +:+ " " +:+ status)
           info,
       [Get None])
  end.

Definition detectHTTPS (r : response) (info : ServiceInfo.t)
  : ServiceInfo.t * list io :=
  match r with
  | GetFails e => (info, [Get (Some e)])
  | Response proto code status server =>
      let info := setService "HTTPS" info in
      (if negb (String.eqb server "") then
         setBanner ("HTTPS/" +:+ proto +:+ " " +:+ itoa code +:+ " " +:+ status
                    +:+ " - Server: " +:+ server)
           (setVersion server info)
       else
         setBanner ("HTTPS/" +:+ proto +:+ " " +:+ itoa code +:+ " " +:+ status)
           info,
       [Get None])
  end.

(** The loop [for i := 5; i < n && buf[i] != 0; i++ { versionEnd = i }],
    over the bytes from index [i] on. *)
Fixpoint versionLoop (bytes : string) (i versionEnd : nat) : nat :=
  match bytes with
  | EmptyString => versionEnd
  | String b rest =>
      if Ascii.eqb b zero then versionEnd else versionLoop rest (S i) i
  end.

Definition detectMySQL (c : Conn) (info : ServiceInfo.t)
  : ServiceInfo.t * list io :=
  match dial c with
  | Some e => (info, [Connect (Some e)])
  | None =>
      (* Read MySQL handshake packet *)
      let '(data, err) := reads c 0%nat in
      let data := buf data in
      let log := [Connect None; Read data err] in
      if notEOF err then (info, log)
      else
        (if 4 <? len data then
           (* Check for protocol version (usually 10) *)
           if bool_decide (String.get 4 data = Some (ascii_of_nat 10)) then
             let info := setService "MySQL" info in
             let versionEnd :=
               versionLoop (String.substring 5 (String.length data - 5) data)
                 5 5 in
             if (5 <? versionEnd)%nat then
               let version := String.substring 5 (versionEnd - 5) data in
               setBanner ("MySQL " +:+ version) (setVersion version info)
             else info
           else info
         else info, log)
  end.

Definition detectPostgreSQL (c : Conn) (info : ServiceInfo.t)
  : ServiceInfo.t * list io :=
  match dial c with
  | Some e => (info, [Connect (Some e)])
  | None =>
      (* Send a startup message *)
      match writes c 0%nat with
      | Some e => (info, [Connect None; Write (Some e)])
      | None =>
          let '(data, err) := reads c 0%nat in
          let data := buf data in
          let reset :=
            match err with
            | Some e => Contains (Error e) "connection reset"
            | None => false
            end in
          (if (0 <? len data) || reset then
             setBanner "PostgreSQL server" (setService "PostgreSQL" info)
           else info,
           [Connect None; Write None; Read data err])
      end
  end.

(** The loop over the lines of the INFO reply: the first line that starts
    with [redis_version:] gives the version. *)
Fixpoint redisVersion (lines : list string) (version : string) : string :=
  match lines with
  | [] => version
  | line :: rest =>
      if HasPrefix line "redis_version:"
      then TrimSpace (TrimPrefix line "redis_version:")
      else redisVersion rest version
  end.

Definition detectRedis (c : Conn) (info : ServiceInfo.t)
  : ServiceInfo.t * list io :=
  match dial c with
  | Some e => (info, [Connect (Some e)])
  | None =>
      (* Send PING command *)
      match writes c 0%nat with
      | Some e => (info, [Connect None; Write (Some e)])
      | None =>
          let '(response, err) := reads c 0%nat in
          let log := [Connect None; Write None; Read response err] in
          if notEOF err then (info, log)
          else if Contains response "PONG" || HasPrefix response "+" then
            let info := setService "Redis" info in
            (* Try to get server info *)
            let werr := writes c 1%nat in
            let '(infoData, rerr) := reads c 1%nat in
            let infoStr := buf infoData in
            let info :=
              if (0 <? len infoStr) && Contains infoStr "redis_version"
              then setVersion
                     (redisVersion (Split infoStr "010") (Version info)) info
              else info in
            (if negb (String.eqb (Version info) "")
             then setBanner ("Redis " +:+ Version info) info
             else setBanner "Redis server" info,
             log ++ [Write werr; Read infoStr rerr])
          else (info, log)
      end
  end.

Definition detectMongoDB (c : Conn) (info : ServiceInfo.t)
  : ServiceInfo.t * list io :=
  match dial c with
  | Some e => (info, [Connect (Some e)])
  | None =>
      (* MongoDB wire protocol - send isMaster command *)
      match writes c 0%nat with
      | Some e => (info, [Connect None; Write (Some e)])
      | None =>
          let '(data, err) := reads c 0%nat in
          let data := buf data in
          (if 0 <? len data then
             (* Check for MongoDB response pattern *)
             setBanner "MongoDB server" (setService "MongoDB" info)
           else info,
           [Connect None; Write None; Read data err])
      end
  end.

(** The [switch] of [grabBanner] over the lower-cased banner. *)
Definition guessService (bannerLower : string) (info : ServiceInfo.t)
  : ServiceInfo.t :=
  if Contains bannerLower "ftp" then setService "FTP" info
  else if Contains bannerLower "smtp" then setService "SMTP" info
  else if Contains bannerLower "pop3" then setService "POP3" info
  else if Contains bannerLower "imap" then setService "IMAP" info
  else if Contains bannerLower "http" then setService "HTTP" info
  else if Contains bannerLower "ssh" then setService "SSH" info
  else if String.eqb (Service info) "" then setService "Unknown" info
  else info.

Definition grabBanner (c : Conn) (info : ServiceInfo.t)
  : ServiceInfo.t * list io :=
  match dial c with
  | Some e => (info, [Connect (Some e)])
  | None =>
      (* Try to read any banner *)
      let '(data1, err1) := reads c 0%nat in
      let data1 := buf data1 in
      let '(data, log) :=
        if notEOF err1 && (len data1 =? 0) then
          (* Try sending a newline to trigger response *)
          let werr := writes c 0%nat in
          let '(data2, err2) := reads c 1%nat in
          (buf data2,
           [Connect None; Read data1 err1; Write werr; Read (buf data2) err2])
        else (data1, [Connect None; Read data1 err1]) in
      (if 0 <? len data then
         (* Clean up the banner *)
         let banner := TrimSpace data in
         let banner := ReplaceAll banner "013" "" in
         let banner := ReplaceAll banner "010" " " in
         let banner :=
           if 200 <? len banner
           then String.substring 0 200 banner +:+ "..."
           else banner in
         (* Try to guess service from banner *)
         guessService (ToLower banner) (setBanner banner info)
       else info, log)
  end.

(** The handler that the [switch] of [detectService] picks for a port. *)
Inductive handler :=
  | SSH | HTTP | HTTPS | MySQL | PostgreSQL | Redis | MongoDB | Generic.

Definition dispatch (port : Z) : handler :=
  if port =? 22 then SSH
  else if (port =? 80) || (port =? 8080) then HTTP
  else if (port =? 443) || (port =? 8443) then HTTPS
  else if port =? 3306 then MySQL
  else if port =? 5432 then PostgreSQL
  else if port =? 6379 then Redis
  else if port =? 27017 then MongoDB
  else Generic.

Definition detect (h : handler) (net : Net) (info : ServiceInfo.t)
  : ServiceInfo.t * list io :=
  match h with
  | SSH => detectSSH (tcp net) info
  | HTTP => detectHTTP (http net) info
  | HTTPS => detectHTTPS (http net) info
  | MySQL => detectMySQL (tcp net) info
  | PostgreSQL => detectPostgreSQL (tcp net) info
  | Redis => detectRedis (tcp net) info
  | MongoDB => detectMongoDB (tcp net) info
  | Generic => grabBanner (tcp net) info
  end.

(** The name a handler sets on a positive match; the generic one picks
    among several. *)
Definition nameOf (h : handler) : string :=
  match h with
  | SSH => "SSH"
  | HTTP => "HTTP"
  | HTTPS => "HTTPS"
  | MySQL => "MySQL"
  | PostgreSQL => "PostgreSQL"
  | Redis => "Redis"
  | MongoDB => "MongoDB"
  | Generic => ""
  end.

#[global] Instance handler_eq_dec : EqDecision handler.
Proof. solve_decision. Defined.

(** An entry of the table names its port, and the protocol handler of the
    port, if it has one, sets that same name or is one of the two web
    handlers. *)
Definition entryOk (entry : Z * string) : Prop :=
  let h := dispatch (fst entry) in
  snd entry <> "" /\ snd entry <> "Unknown"
  /\ (h = Generic \/ nameOf h = snd entry \/ h = HTTP \/ h = HTTPS).

(** The names that the keywords of [grabBanner] stand for. *)
Definition keywordNames : list string :=
  ["FTP"; "SMTP"; "POP3"; "IMAP"; "HTTP"; "SSH"].

(** [detectService]: the record that is published, and the I/O made. *)
Definition detectService (result : ScanResult.t) (net : Net)
  : ServiceInfo.t * list io :=
  let serviceInfo :=
    ServiceInfo.mk (ScanResult.ID result) (ScanResult.Target result)
      (ScanResult.Port result) "" "" "" in
  (* First try to identify by port number *)
  let serviceInfo :=
    match serviceRegistry !! ScanResult.Port result with
    | Some service => setService service serviceInfo
    | None => serviceInfo
    end in
  (* Then try specific detection methods *)
  detect (dispatch (ScanResult.Port result)) net serviceInfo.

(** The callback of [Subscribe]: only an open port is looked at. *)
Definition onScanResult (result : ScanResult.t) (net : Net)
  : option (ServiceInfo.t * list io) :=
  if ScanResult.IsOpen result then Some (detectService result net) else None.

(** A server that accepts and sends one line, as [ReadString] returns it:
    up to the line feed without error, or the rest at the end of the
    stream. *)
Definition greets (line : string) (err : option error) : Conn :=
  mkConn None (fun _ => (line, err)) (fun _ => None).

(** Nothing answers: every dial and every request fails. *)
Definition unreachable : Net :=
  mkNet (mkConn (Some (Err "i/o timeout")) (fun _ => ("", Some EOF))
           (fun _ => Some (Err "broken pipe")))
        (GetFails (Err "i/o timeout")).

End Analyzer.

(** ** The message on the wire

    The agents exchange JSON objects.  [encoding/json] writes the fields of
    a struct under their tags, leaving out an empty [omitempty] field, and
    reads a struct by looking each key up among the tags, the case of
    letters being ignored; a field whose key is absent keeps its zero
    value. *)

Module json.

Inductive value :=
  | String (s : string)
  | Number (n : Z)
  | Bool (b : bool)
  | Null.

Definition object := list (string * value).

Definition EqualFold (a b : string) : bool :=
  String.eqb (strings.ToLower a) (strings.ToLower b).

(** The value decoded last for the field of tag [tag].  This and the
    fields below decode as [encoding/json] does on the objects that the
    agents of this repository write: every key comes once and in ASCII,
    no value is null, and an integer is in the range of [int]. *)
Definition field (tag : string) (o : object) : option value :=
  snd <$> last (filter (fun kv => EqualFold (fst kv) tag = true) o).

(** A string field: absent or null leaves it empty, another type is an
    error. *)
Definition stringField (tag : string) (o : object) : option string :=
  match field tag o with
  | None | Some Null => Some ""
  | Some (String s) => Some s
  | Some _ => None
  end.

Definition intField (tag : string) (o : object) : option Z :=
  match field tag o with
  | None | Some Null => Some 0
  | Some (Number n) => Some n
  | Some _ => None
  end.

(** [json.Marshal] of the scanner's [ScanResult]. *)
Definition MarshalScanResult (r : Scanner.ScanResult.t) : object :=
  [("id", String (Scanner.ScanResult.ID r));
   ("target", String (Scanner.ScanResult.Target r));
   ("port", Number (Scanner.ScanResult.Port r));
   ("is_open", Bool (Scanner.ScanResult.IsOpen r))] ++
  (if String.eqb (Scanner.ScanResult.Error r) "" then []
   else [("error", String (Scanner.ScanResult.Error r))]).

(** [json.Unmarshal] into [models.ScanResult]. *)
Definition UnmarshalScanResult (o : object) : option models.ScanResult.t :=
  id ← stringField "id" o;
  scan_id ← stringField "scan_id" o;
  target ← stringField "target" o;
  port ← intField "port" o;
  protocol ← stringField "protocol" o;
  state ← stringField "state" o;
  error ← stringField "error" o;
  Some (models.ScanResult.mk id scan_id target port protocol state error).

(** *** Strings on the wire

    [json.Marshal] writes a string as valid UTF-8: going through the bytes
    with [utf8.DecodeRuneInString], it writes U+FFFD for every byte that
    does not start a well-formed sequence, and the sequence itself
    otherwise (escaped on the wire, which decoding undoes). *)
Definition inRange (lo hi : nat) (c : ascii) : bool :=
  (lo <=? nat_of_ascii c)%nat && (nat_of_ascii c <=? hi)%nat.

(** The bytes that follow the first one are in the ranges given. *)
Fixpoint accept (ranges : list (nat * nat)) (s : string) : bool :=
  match ranges, s with
  | [], _ => true
  | (lo, hi) :: ranges', String.String c s' => inRange lo hi c && accept ranges' s'
  | _ :: _, EmptyString => false
  end.

(** The size of the well-formed sequence at the head of [s]; 0 when there
    is none. *)
Definition runeSize (s : string) : nat :=
  match s with
  | EmptyString => 0
  | String.String b rest =>
      let n := nat_of_ascii b in
      let cont := (128, 191)%nat in
      if (n <? 128)%nat then 1
      else if (n <? 194)%nat then 0
      else if (n <? 224)%nat then if accept [cont] rest then 2 else 0
      else if (n =? 224)%nat then
        if accept [(160, 191)%nat; cont] rest then 3 else 0
      else if (n =? 237)%nat then
        if accept [(128, 159)%nat; cont] rest then 3 else 0
      else if (n <? 240)%nat then if accept [cont; cont] rest then 3 else 0
      else if (n =? 240)%nat then
        if accept [(144, 191)%nat; cont; cont] rest then 4 else 0
      else if (n <? 244)%nat then
        if accept [cont; cont; cont] rest then 4 else 0
      else if (n =? 244)%nat then
        if accept [(128, 143)%nat; cont; cont] rest then 4 else 0
      else 0
  end%nat.

(** U+FFFD in UTF-8. *)
Definition RuneError : string :=
  String.String (ascii_of_nat 239)
    (String.String (ascii_of_nat 191)
       (String.String (ascii_of_nat 189) EmptyString)).

(** [skip] bytes of a sequence already accepted are still to be copied. *)
Fixpoint coerceFrom (skip : nat) (s : string) : string :=
  match s with
  | EmptyString => EmptyString
  | String.String c rest =>
      match skip with
      | S k => String.String c (coerceFrom k rest)
      | O =>
          match runeSize s with
          | O => RuneError +:+ coerceFrom 0 rest
          | S k => String.String c (coerceFrom k rest)
          end
      end
  end.

(** The string that a reader gets for a string written by
    [json.Marshal]. *)
Definition coerce (s : string) : string := coerceFrom 0 s.

(** The message of the scanner's [publishResult]: [json.Marshal] of the
    result, its strings written as valid UTF-8. *)
Definition publishResult (r : Scanner.ScanResult.t) : object :=
  MarshalScanResult
    (Scanner.ScanResult.mk (coerce (Scanner.ScanResult.ID r))
       (coerce (Scanner.ScanResult.Target r)) (Scanner.ScanResult.Port r)
       (Scanner.ScanResult.IsOpen r) (coerce (Scanner.ScanResult.Error r))).

(** A string of bytes below 0x80. *)
Definition isASCII (s : string) : bool :=
  forallb (fun c => (nat_of_ascii c <? 128)%nat) (list_ascii_of_string s).

Definition boolField (tag : string) (o : object) : option bool :=
  match field tag o with
  | None | Some Null => Some false
  | Some (Bool b) => Some b
  | Some _ => None
  end.

(** [json.Unmarshal] into the analyzer's [ScanResult]. *)
Definition UnmarshalProbe (o : object) : option Analyzer.ScanResult.t :=
  id ← stringField "id" o;
  target ← stringField "target" o;
  port ← intField "port" o;
  is_open ← boolField "is_open" o;
  error ← stringField "error" o;
  Some (Analyzer.ScanResult.mk id target port is_open error).

(** [json.Marshal] of the analyzer's [ServiceInfo]. *)
Definition MarshalServiceInfo (info : Analyzer.ServiceInfo.t) : object :=
  [("scan_id", String (coerce (Analyzer.ServiceInfo.ScanID info)));
   ("target", String (coerce (Analyzer.ServiceInfo.Target info)));
   ("port", Number (Analyzer.ServiceInfo.Port info));
   ("service", String (coerce (Analyzer.ServiceInfo.Service info)))] ++
  (if String.eqb (Analyzer.ServiceInfo.Version info) "" then []
   else [("version", String (coerce (Analyzer.ServiceInfo.Version info)))]) ++
  (if String.eqb (Analyzer.ServiceInfo.Banner info) "" then []
   else [("banner", String (coerce (Analyzer.ServiceInfo.Banner info)))]).

(** [json.Unmarshal] into [models.ServiceInfo].  The confidence, a number,
    is decoded and not kept, the model of the record having no such
    field. *)
Definition UnmarshalServiceInfo (o : object) : option models.ServiceInfo.t :=
  id ← stringField "id" o;
  scan_id ← stringField "scan_id" o;
  target ← stringField "target" o;
  port ← intField "port" o;
  service ← stringField "service" o;
  version ← stringField "version" o;
  banner ← stringField "banner" o;
  _ ← intField "confidence" o;
  Some (models.ServiceInfo.mk id scan_id target port service version banner).

End json.

(** ** The analyzer on the wire *)

Module Detector.

(** The callback of [Subscribe]: a message that does not decode is logged
    and dropped; of those that decode, only an open port is looked at. *)
Definition Subscribe (data : json.object) (net : Analyzer.Net)
  : option (Analyzer.ServiceInfo.t * list Analyzer.io) :=
  result ← json.UnmarshalProbe data;
  Analyzer.onScanResult result net.

(** [publishServiceInfo]: the message that goes out for a record. *)
Definition publishServiceInfo (info : Analyzer.ServiceInfo.t)
  : json.object :=
  json.MarshalServiceInfo info.

End Detector.

(** ** cmd/reporter-agent/main.go *)

Module Reporter.
Import models.

(** [time.Second], in nanoseconds. *)
Definition Second : Z := 1000000000.

Definition resultTimeout : Z := 30 * Second.
Definition maxResultsWait : Z := 20.

(** [Duration.Milliseconds]. *)
Definition Milliseconds (d : Z) : Z := Z.quot d 1000000.

(** The handle of [time.AfterFunc]: armed until it fires or is stopped.
    [Stop] on a timer that has fired changes nothing. *)
Inductive Timer := Armed | Stopped | Fired.

Definition Stop (t : Timer) : Timer :=
  match t with
  | Armed => Stopped
  | Stopped => Stopped
  | Fired => Fired
  end.

Record ScanAggregator := mkScanAggregator {
  scanID : string;
  target : string;
  results : list ScanResult.t;
  services : list ServiceInfo.t;
  startTime : Z;
  timer : Timer;
  resultCount : Z
}.

Record OpenPortInfo := mkOpenPortInfo {
  Port : Z;
  Service : string;
  Version : string
}.

Record Report := mkReport {
  ScanID : string;
  Target : string;
  Timestamp : Z;
  DurationMs : Z;
  OpenPorts : list OpenPortInfo;
  Statistics : ScanStatistics.t
}.

(** *** generateReport *)

(** The loop that fills [serviceMap]: a later record of a port replaces an
    earlier one. *)
Definition buildServiceMap (services : list ServiceInfo.t)
  : gmap Z ServiceInfo.t :=
  foldl (fun m service => <[ServiceInfo.Port service := service]> m)
        ∅ services.

(** The three variables of the counting loop. *)
Record counting := mkCounting {
  openPorts : list OpenPortInfo;
  openCount : Z;
  closedCount : Z
}.

(** What the loop appends for an open result. *)
Definition portInfoOf (serviceMap : gmap Z ServiceInfo.t)
    (result : ScanResult.t) : OpenPortInfo :=
  match serviceMap !! ScanResult.Port result with
  | Some service =>
      mkOpenPortInfo (ScanResult.Port result)
        (ServiceInfo.ServiceName service) (ServiceInfo.Version service)
  | None => mkOpenPortInfo (ScanResult.Port result) "" ""
  end.

Definition isOpen (result : ScanResult.t) : Prop :=
  ScanResult.State result = "open".

Definition isClosed (result : ScanResult.t) : Prop :=
  ScanResult.State result = "closed".

#[global] Instance isOpen_dec result : Decision (isOpen result).
Proof. unfold isOpen. apply _. Defined.

#[global] Instance isClosed_dec result : Decision (isClosed result).
Proof. unfold isClosed. apply _. Defined.

(** One iteration of the loop over [aggregator.results]. *)
Definition countResult (serviceMap : gmap Z ServiceInfo.t)
    (acc : counting) (result : ScanResult.t) : counting :=
  if String.eqb (ScanResult.State result) "open" then
    let portInfo := portInfoOf serviceMap result in
    mkCounting (openPorts acc ++ [portInfo]) (openCount acc + 1)
      (closedCount acc)
  else if String.eqb (ScanResult.State result) "closed" then
    mkCounting (openPorts acc) (openCount acc) (closedCount acc + 1)
  else acc.

Definition countResults (serviceMap : gmap Z ServiceInfo.t)
    (rs : list ScanResult.t) : counting :=
  foldl (countResult serviceMap) (mkCounting [] 0 0) rs.

(** The report that [generateReport] builds from an aggregator at time
    [now]. *)
Definition buildReport (now : Z) (aggregator : ScanAggregator) : Report :=
  let duration := Milliseconds (now - startTime aggregator) in
  let serviceMap := buildServiceMap (services aggregator) in
  let c := countResults serviceMap (results aggregator) in
  mkReport (scanID aggregator) (target aggregator) now duration
    (openPorts c)
    (ScanStatistics.mk (Z.of_nat (length (results aggregator)))
       (openCount c) (closedCount c)).

(** *** The agent's memory

    [scanAggregators] maps a scan id to a pointer; the aggregators live in
    [heap], a pointer being an index.  A handler keeps the pointer it read
    from the registry after the entry is gone, so the aliasing is kept.
    [produced] lists the reports that [generateReport] has built, each with
    the pointer of the aggregator it was built from; handing the report to
    the database is outside this model. *)
Record state := mkState {
  scanAggregators : gmap string nat;
  heap : list ScanAggregator;
  produced : list (nat * Report);
  now : Z
}.

Definition initial : state := mkState ∅ [] [] 0.

Definition setAggregators (m : gmap string nat) (st : state) : state :=
  mkState m (heap st) (produced st) (now st).

Definition setHeap (h : list ScanAggregator) (st : state) : state :=
  mkState (scanAggregators st) h (produced st) (now st).

(** [*p = f( *p )]; nothing for a pointer that was never allocated. *)
Definition update (p : nat) (f : ScanAggregator -> ScanAggregator)
    (st : state) : state :=
  match heap st !! p with
  | Some a => setHeap (<[p := f a]> (heap st)) st
  | None => st
  end.

(** Time passes. *)
Definition tick (d : Z) (st : state) : state :=
  mkState (scanAggregators st) (heap st) (produced st) (now st + d).

(** handleScanResult, first critical section (under [ra.mutex]): find the
    aggregator of the scan or create it and arm its timer. *)
Definition lookupOrCreate (result : ScanResult.t) (st : state)
  : nat * state :=
  match scanAggregators st !! ScanResult.ScanID result with
  | Some aggregator => (aggregator, st)
  | None =>
      let aggregator := length (heap st) in
      let a := mkScanAggregator (ScanResult.ScanID result)
                 (ScanResult.Target result) [] [] (now st) Armed 0 in
      (aggregator,
       mkState (<[ScanResult.ScanID result := aggregator]>
                  (scanAggregators st))
               (heap st ++ [a]) (produced st) (now st))
  end.

Definition appendResult (result : ScanResult.t) (a : ScanAggregator)
  : ScanAggregator :=
  mkScanAggregator (scanID a) (target a) (results a ++ [result])
    (services a) (startTime a) (timer a) (resultCount a + 1).

(** handleScanResult, second critical section (under [aggregator.mutex]):
    append the result, count it, read the count. *)
Definition addResult (aggregator : nat) (result : ScanResult.t) (st : state)
  : Z * state :=
  let st' := update aggregator (appendResult result) st in
  (match heap st' !! aggregator with
   | Some a => resultCount a
   | None => 0
   end, st').

Definition stopTimer (a : ScanAggregator) : ScanAggregator :=
  mkScanAggregator (scanID a) (target a) (results a) (services a)
    (startTime a) (Stop (timer a)) (resultCount a).

(** handleScanResult, third critical section (under [ra.mutex]), entered
    when the count has reached [maxResultsWait]: the existence check, the
    stop of the timer and the removal. *)
Definition claimOnThreshold (id : string) (st : state)
  : option nat * state :=
  match scanAggregators st !! id with
  | Some agg =>
      (Some agg,
       setAggregators (delete id (scanAggregators st))
         (update agg stopTimer st))
  | None => (None, st)
  end.

(** The critical section of the timer callback: the existence check and
    the removal. *)
Definition claimOnTimer (id : string) (st : state) : option nat * state :=
  match scanAggregators st !! id with
  | Some agg => (Some agg, setAggregators (delete id (scanAggregators st)) st)
  | None => (None, st)
  end.

(** [generateReport(agg)], under [aggregator.mutex]. *)
Definition generateReport (agg : nat) (st : state) : state :=
  match heap st !! agg with
  | Some a =>
      mkState (scanAggregators st) (heap st)
        (produced st ++ [(agg, buildReport (now st) a)]) (now st)
  | None => st
  end.

(** handleScanResult, for a message that decodes. *)
Definition handleScanResult (result : ScanResult.t) (st : state) : state :=
  let '(aggregator, st) := lookupOrCreate result st in
  let '(count, st) := addResult aggregator result st in
  if maxResultsWait <=? count then
    match claimOnThreshold (ScanResult.ScanID result) st with
    | (Some agg, st) => generateReport agg st
    | (None, st) => st
    end
  else st.

(** The runtime fires the timer of an aggregator: possible once
    [resultTimeout] has passed since it was armed, and only while it is
    armed. *)
Definition fireTimer (p : nat) (st : state) : option (string * state) :=
  match heap st !! p with
  | Some a =>
      match timer a with
      | Armed =>
          if startTime a + resultTimeout <=? now st then
            Some (scanID a,
                  update p (fun a =>
                    mkScanAggregator (scanID a) (target a) (results a)
                      (services a) (startTime a) Fired (resultCount a)) st)
          else None
      | _ => None
      end
  | None => None
  end.


Definition appendService (service : ServiceInfo.t) (a : ScanAggregator)
  : ScanAggregator :=
  mkScanAggregator (scanID a) (target a) (results a)
    (services a ++ [service]) (startTime a) (timer a) (resultCount a).

(** handleServiceDetected, for a message that decodes. *)
Definition handleServiceDetected (service : ServiceInfo.t) (st : state)
  : state :=
  match scanAggregators st !! ServiceInfo.ScanID service with
  | Some aggregator => update aggregator (appendService service) st
  | None => st
  end.

(** *** Interleavings

    A goroutine between two critical sections is a continuation.  The runs
    are those of the two handlers and of the timers; the pass that [Start]
    makes over the registry at shutdown comes after them, below. *)
Inductive thread :=
  | AtAppend (result : ScanResult.t) (aggregator : nat)
  | AtThreshold (result : ScanResult.t) (count : Z)
  | AtGenerate (agg : nat)
  | AtCallback (id : string)
  | AtService (service : ServiceInfo.t) (aggregator : nat).

(** One critical section of a goroutine, and what is left of it. *)
Definition exec (t : thread) (st : state) : state * option thread :=
  match t with
  | AtAppend result aggregator =>
      let '(count, st) := addResult aggregator result st in
      (st, Some (AtThreshold result count))
  | AtThreshold result count =>
      if maxResultsWait <=? count then
        match claimOnThreshold (ScanResult.ScanID result) st with
        | (Some agg, st) => (st, Some (AtGenerate agg))
        | (None, st) => (st, None)
        end
      else (st, None)
  | AtGenerate agg => (generateReport agg st, None)
  | AtCallback id =>
      match claimOnTimer id st with
      | (Some agg, st) => (st, Some (AtGenerate agg))
      | (None, st) => (st, None)
      end
  | AtService service aggregator =>
      (update aggregator (appendService service) st, None)
  end.

Record config := mkConfig {
  mem : state;
  threads : list thread
}.

(** What the scheduler, the transport and the clock can do next. *)
Inductive event :=
  | Tick (d : Z)
  | ScanResultMsg (result : ScanResult.t)
  | ServiceDetectedMsg (service : ServiceInfo.t)
  | TimerFires (p : nat)
  | Run (i : nat).

Definition step (e : event) (c : config) : option config :=
  match e with
  | Tick d =>
      if 0 <=? d then Some (mkConfig (tick d (mem c)) (threads c)) else None
  | ScanResultMsg result =>
      let '(aggregator, st) := lookupOrCreate result (mem c) in
      Some (mkConfig st (threads c ++ [AtAppend result aggregator]))
  | ServiceDetectedMsg service =>
      match scanAggregators (mem c) !! ServiceInfo.ScanID service with
      | Some aggregator =>
          Some (mkConfig (mem c) (threads c ++ [AtService service aggregator]))
      | None => Some c
      end
  | TimerFires p =>
      match fireTimer p (mem c) with
      | Some (id, st) => Some (mkConfig st (threads c ++ [AtCallback id]))
      | None => None
      end
  | Run i =>
      match threads c !! i with
      | Some t =>
          match exec t (mem c) with
          | (st, Some t') => Some (mkConfig st (<[i := t']> (threads c)))
          | (st, None) => Some (mkConfig st (delete i (threads c)))
          end
      | None => None
      end
  end.

Fixpoint run (es : list event) (c : config) : option config :=
  match es with
  | [] => Some c
  | e :: es' =>
      match step e c with
      | Some c' => run es' c'
      | None => None
      end
  end.

Definition start : config := mkConfig initial [].

(** The aggregator a goroutine has taken out of the registry and is
    about to report. *)
Definition claimedBy (t : thread) : list nat :=
  match t with
  | AtGenerate agg => [agg]
  | _ => []
  end.

(** The aggregators that left the registry through one of the two
    critical sections: those reported and those about to be. *)
Definition claimed (c : config) : list nat :=
  (fst <$> produced (mem c)) ++ flat_map claimedBy (threads c).

(** The scan id of every aggregator ever made, by pointer. *)
Definition scanIDs (st : state) : list string := scanID <$> heap st.

(** The state of the timer of every aggregator ever made, by pointer. *)
Definition timers (st : state) : list Timer := timer <$> heap st.

(** Something will still look at the entry of [id], which is [p]: the
    timer of [p] is armed, or a callback for [id] is waiting to run. *)
Definition pending (c : config) (id : string) (p : nat) : Prop :=
  timers (mem c) !! p = Some Armed \/ AtCallback id ∈ threads c.

(** What holds of the agent at any time. *)
Record agentInv (c : config) : Prop := {
  inv_registry :
    forall id p, scanAggregators (mem c) !! id = Some p ->
                 scanIDs (mem c) !! p = Some id;
  inv_claimed_once : NoDup (claimed c);
  inv_claimed_gone :
    forall id p, scanAggregators (mem c) !! id = Some p -> p ∉ claimed c;
  inv_claimed_made :
    forall p, p ∈ claimed c -> (p < length (scanIDs (mem c)))%nat;
  inv_produced :
    forall p report, (p, report) ∈ produced (mem c) ->
                     scanIDs (mem c) !! p = Some (ScanID report);
  inv_pending :
    forall id p, scanAggregators (mem c) !! id = Some p -> pending c id p
}.

(** Messages handled one after the other, each [d] nanoseconds after the
    one before, with no timer firing in between. *)
Definition deliver (st : state) (m : Z * ScanResult.t) : state :=
  handleScanResult (snd m) (tick (fst m) st).

Definition deliverAll (st : state) (ms : list (Z * ScanResult.t)) : state :=
  foldl deliver st ms.





(** The reports produced for a scan id. *)
Definition reportsFor (id : string) (st : state) : list Report :=
  filter (fun r => ScanID r = id) (snd <$> produced st).

(** The statistics of the reports for a scan id at the end of a run. *)
Definition statisticsAfter (id : string) (es : list event)
  : option (list ScanStatistics.t) :=
  c ← run es start; Some (Statistics <$> reportsFor id (mem c)).

(** The goroutine of one message below the threshold, run to its end as
    thread [i]. *)
Definition handled (result : ScanResult.t) (i : nat) : list event :=
  [ScanResultMsg result; Run i; Run i].

(** A result for port [port] of scan [id], with state [state]. *)
Definition portResult (id : string) (port : Z) (state : string)
  : ScanResult.t :=
  ScanResult.mk "" id "10.0.0.5" port "tcp" state "".

(** *** Shutdown

    The pass that [Start] makes over the registry once its context is
    done: for every entry, stop the timer and report the aggregator.  The
    entries are not removed.  [range] visits them in an order that the
    language leaves open; [todo] is the part of that order still to come.
    The pass holds [ra.mutex] from its first entry to its last, so the
    critical sections that take [ra.mutex] wait until it is over; a
    goroutine in a section under [aggregator.mutex] alone, the clock and
    the timers go on between two entries. *)
Definition finalReport (entry : string * nat) (st : state) : state :=
  generateReport (snd entry) (update (snd entry) stopTimer st).

Record shuttingDown := mkShuttingDown {
  agent : config;
  todo : list (string * nat)
}.

(** Whether the next critical section of a goroutine takes [ra.mutex]. *)
Definition needsRegistry (t : thread) : bool :=
  match t with
  | AtThreshold _ count => maxResultsWait <=? count
  | AtCallback _ => true
  | _ => false
  end.

Inductive passEvent :=
  | Next
  | Meanwhile (e : event).

Definition passStep (e : passEvent) (s : shuttingDown)
  : option shuttingDown :=
  match e with
  | Next =>
      match todo s with
      | entry :: rest =>
          Some (mkShuttingDown
                  (mkConfig (finalReport entry (mem (agent s)))
                     (threads (agent s)))
                  rest)
      | [] => None
      end
  | Meanwhile (ScanResultMsg _) => None
  | Meanwhile (ServiceDetectedMsg _) => None
  | Meanwhile (Run i) =>
      match threads (agent s) !! i with
      | Some t =>
          if needsRegistry t then None
          else c ← step (Run i) (agent s); Some (mkShuttingDown c (todo s))
      | None => None
      end
  | Meanwhile e => c ← step e (agent s); Some (mkShuttingDown c (todo s))
  end.

Fixpoint pass (es : list passEvent) (s : shuttingDown)
  : option shuttingDown :=
  match es with
  | [] => Some s
  | e :: es' =>
      match passStep e s with
      | Some s' => pass es' s'
      | None => None
      end
  end.

(** The reports built from the aggregator [p]. *)
Definition reportsOf (p : nat) (st : state) : list (nat * Report) :=
  filter (fun r => fst r = p) (produced st).

(** What holds during the pass that started in [c] with the order
    [order]: the registry and the scan ids are those of [c], no goroutine
    is about to report an aggregator of the registry, every entry behind
    the pass has its timer off and one report, every entry ahead has
    none. *)
Record passInv (c : config) (order : list (string * nat))
    (s : shuttingDown) : Prop := {
  pass_registry :
    scanAggregators (mem (agent s)) = scanAggregators (mem c);
  pass_scanIDs : scanIDs (mem (agent s)) = scanIDs (mem c);
  pass_threads :
    forall e, e ∈ order -> AtGenerate (snd e) ∉ threads (agent s);
  pass_order :
    exists behind,
      order = behind ++ todo s
      /\ (forall e, e ∈ behind ->
            timers (mem (agent s)) !! snd e <> Some Armed
            /\ exists report,
                 reportsOf (snd e) (mem (agent s)) = [(snd e, report)]
                 /\ ScanID report = fst e)
      /\ (forall e, e ∈ todo s -> reportsOf (snd e) (mem (agent s)) = [])
}.

(** *** From the first message to the last goroutine

    The agent from the state [c] in which its context is done: the pass
    of [Start] in the order [order], with what goes on between its
    entries, and then, once the pass has visited every entry and given
    [ra.mutex] back, what the goroutines that were waiting, the timers
    and the transport still do.  The result is the state of the pass and
    the last state of the agent. *)
Definition shutDown (c : config) (order : list (string * nat))
    (during : list passEvent) (after : list event)
  : option (shuttingDown * config) :=
  s ← pass during (mkShuttingDown c order);
  match after with
  | [] => Some (s, agent s)
  | _ :: _ =>
      match todo s with
      | [] => c' ← run after (agent s); Some (s, c')
      | _ :: _ => None
      end
  end.

(** The entries that the pass has visited. *)
Definition visited (order : list (string * nat)) (s : shuttingDown)
  : list (string * nat) :=
  take (length order - length (todo s)) order.

(** What holds through that life, where [V] are the aggregators that one
    of the two triggers took out of the registry and that were reported
    since, and [P] those that the pass reported: the reports are those of
    [V] and of [P], the triggers took every aggregator once, and an
    aggregator of the registry is not one of theirs. *)
Record lifeInv (V P : list nat) (c : config) : Prop := {
  life_registry :
    forall id p, scanAggregators (mem c) !! id = Some p ->
                 scanIDs (mem c) !! p = Some id;
  life_reports : fst <$> produced (mem c) ≡ₚ V ++ P;
  life_once : NoDup (V ++ flat_map claimedBy (threads c));
  life_gone :
    forall id p, scanAggregators (mem c) !! id = Some p ->
                 p ∉ V ++ flat_map claimedBy (threads c);
  life_made :
    forall p, p ∈ V ++ flat_map claimedBy (threads c) ->
              (p < length (scanIDs (mem c)))%nat;
  life_produced :
    forall p report, (p, report) ∈ produced (mem c) ->
                     scanIDs (mem c) !! p = Some (ScanID report)
}.

(** *** Counting results

    The result messages among the events of a run, the results that the
    aggregators hold, and the ports that the reports count. *)
Definition isScanResultMsg (e : event) : bool :=
  match e with
  | ScanResultMsg _ => true
  | _ => false
  end.

Definition received (es : list event) : nat :=
  length (filter (fun e => isScanResultMsg e = true) es).

(** A goroutine that has found its aggregator and not yet appended. *)
Definition appending (t : thread) : bool :=
  match t with
  | AtAppend _ _ => true
  | _ => false
  end.

Definition sizes (st : state) : list nat :=
  (fun a => length (results a)) <$> heap st.

Definition reported (st : state) : Z :=
  foldr (fun r acc => ScanStatistics.TotalPorts (Statistics (snd r)) + acc)
    0 (produced st).

(** The results that the aggregators hold, with those that a goroutine
    is about to append. *)
Definition held (c : config) : nat :=
  sum_list (sizes (mem c))
  + length (filter (fun t => appending t = true) (threads c)).

(** The results that the aggregator [p] holds. *)
Definition sizeOf (st : state) (p : nat) : nat :=
  default 0%nat (sizes st !! p).

(** What holds after [n] result messages: a goroutine about to append
    points to an aggregator, the results held and about to be appended
    are [n], and a report counts no more results than its aggregator
    holds. *)
Record countInv (n : nat) (c : config) : Prop := {
  cnt_pointer :
    forall result p, AtAppend result p ∈ threads c ->
                     (p < length (heap (mem c)))%nat;
  cnt_held :
    (sum_list (sizes (mem c))
     + length (filter (fun t => appending t = true) (threads c)) = n)%nat;
  cnt_reported :
    forall p report,
      (p, report) ∈ produced (mem c) ->
      exists k, sizes (mem c) !! p = Some k
                /\ ScanStatistics.TotalPorts (Statistics report)
                   <= Z.of_nat k
                /\ 0 <= ScanStatistics.TotalPorts (Statistics report)
}.

(** *** The handlers on the wire

    The two subscriptions of [Start] as the transport calls them: a
    message that does not decode is logged and dropped. *)
Definition onScanResult (data : json.object) (st : state) : state :=
  match json.UnmarshalScanResult data with
  | Some result => handleScanResult result st
  | None => st
  end.

Definition onServiceDetected (data : json.object) (st : state) : state :=
  match json.UnmarshalServiceInfo data with
  | Some service => handleServiceDetected service st
  | None => st
  end.

(** A result message as the reporter decodes it from what the scanner of
    this repository publishes. *)
Definition fromScanner (e : event) : Prop :=
  forall result,
    e = ScanResultMsg result ->
    exists r : Scanner.ScanResult.t,
      json.UnmarshalScanResult (json.publishResult r) = Some result.

(** What holds of the agent when all its results come from the scanner:
    every key of the registry is the empty scan id, every aggregator is
    under that id and holds results without a state, and so are the
    results that the goroutines carry. *)
Definition stateless (result : ScanResult.t) : Prop :=
  ScanResult.ScanID result = "" /\ ScanResult.State result = "".

Definition statelessThread (t : thread) : Prop :=
  match t with
  | AtAppend result _ => stateless result
  | _ => True
  end.

Definition emptyReport (report : Report) : Prop :=
  ScanID report = "" /\ OpenPorts report = []
  /\ ScanStatistics.OpenPorts (Statistics report) = 0
  /\ ScanStatistics.ClosedPorts (Statistics report) = 0.

Record scannerInv (c : config) : Prop := {
  sc_registry :
    forall id p, scanAggregators (mem c) !! id = Some p -> id = "";
  sc_heap :
    Forall (fun a => scanID a = "" /\ Forall stateless (results a))
      (heap (mem c));
  sc_threads : Forall statelessThread (threads c);
  sc_produced : Forall (fun r => emptyReport (snd r)) (produced (mem c))
}.

End Reporter.

(** ** The main agent

    The HTTP front of the system: it records a scan, queues it for the
    scanner and stores the results that come back.  The database and the
    message bus are seen through the calls made to them, each with the
    error it returns, if any; an error is its text. *)

Module MainAgent.

Definition error := string.

Definition Second : Z := 1000000000.

Record Config := mkConfig {
  MaxRetries : Z;
  RetryDelay : Z
}.

(** The configuration of [main]. *)
Definition mainConfig : Config := mkConfig 5 (2 * Second).

Module ScanRequest.
Record t := mk {
  Target : string;
  Ports : list Z
}.
End ScanRequest.

Module ScanResponse.
Record t := mk {
  ID : string;
  Target : string;
  Status : string;
  Message : string;
  Created : Z
}.
End ScanResponse.

Module NATSScanRequest.
Record t := mk {
  ID : string;
  Target : string;
  Ports : list Z
}.
End NATSScanRequest.

Module NATSScanResult.
Record t := mk {
  ID : string;
  ScanID : string;
  Port : Z;
  State : string;
  IsOpen : bool;
  Error : string
}.
End NATSScanResult.

(** *** connectDatabase and connectNATS *)

(** What the calls of one attempt return. *)
Record dbAttempt := mkDbAttempt {
  Open : option error;
  Ping : option error
}.

Record natsAttempt := mkNatsAttempt {
  Connect : option error;
  JetStream : option error;
  AddStream : option error
}.

(** The calls made while connecting, each with what it returned. *)
Inductive call :=
  | SqlOpen (err : option error)
  | DbPing (err : option error)
  | NatsConnect (err : option error)
  | NatsJetStream (err : option error)
  | NatsAddStream (err : option error)
  | NatsClose
  | Sleep (d : Z).

(** One turn of the loop of [connectDatabase]: the error it leaves in
    [err], none when the function returns nil, and the calls made. *)
Definition tryDatabase (delay : Z) (a : dbAttempt)
  : option error * list call :=
  match Open a with
  | Some e => (Some e, [SqlOpen (Some e); Sleep delay])
  | None =>
      match Ping a with
      | Some e => (Some e, [SqlOpen None; DbPing (Some e); Sleep delay])
      | None => (None, [SqlOpen None; DbPing None])
      end
  end.

(** What a connect function returns when it gives up: the number of
    attempts it names and the last error, which it wraps. *)
Record gaveUp := mkGaveUp {
  attempts : Z;
  cause : option error
}.

(** The loop [for i := 0; i < MaxRetries; i++] with [n] turns left. *)
Fixpoint connectDatabaseFrom (config : Config) (world : nat -> dbAttempt)
    (n i : nat) (err : option error) : option gaveUp * list call :=
  match n with
  | O => (Some (mkGaveUp (MaxRetries config) err), [])
  | S n' =>
      match tryDatabase (RetryDelay config) (world i) with
      | (None, calls) => (None, calls)
      | (Some e, calls) =>
          let '(r, rest) :=
            connectDatabaseFrom config world n' (S i) (Some e) in
          (r, calls ++ rest)
      end
  end.

Definition connectDatabase (config : Config) (world : nat -> dbAttempt)
  : option gaveUp * list call :=
  connectDatabaseFrom config world (Z.to_nat (MaxRetries config)) 0 None.

(** [setupStreams], given what [AddStream] returns: a stream that is
    there already is no error. *)
Definition setupStreams (addStream : option error) : option error :=
  match addStream with
  | Some err =>
      if negb (strings.Contains err "already in use")
      then Some ("failed to create SCAN stream: " +:+ err)
      else None
  | None => None
  end.

Definition tryNATS (delay : Z) (a : natsAttempt)
  : option error * list call :=
  match Connect a with
  | Some e => (Some e, [NatsConnect (Some e); Sleep delay])
  | None =>
      match JetStream a with
      | Some e =>
          (Some e,
           [NatsConnect None; NatsJetStream (Some e); NatsClose; Sleep delay])
      | None =>
          match setupStreams (AddStream a) with
          | Some e =>
              (Some e,
               [NatsConnect None; NatsJetStream None;
                NatsAddStream (AddStream a); NatsClose; Sleep delay])
          | None =>
              (None,
               [NatsConnect None; NatsJetStream None;
                NatsAddStream (AddStream a)])
          end
      end
  end.

Fixpoint connectNATSFrom (config : Config) (world : nat -> natsAttempt)
    (n i : nat) (err : option error) : option gaveUp * list call :=
  match n with
  | O => (Some (mkGaveUp (MaxRetries config) err), [])
  | S n' =>
      match tryNATS (RetryDelay config) (world i) with
      | (None, calls) => (None, calls)
      | (Some e, calls) =>
          let '(r, rest) :=
            connectNATSFrom config world n' (S i) (Some e) in
          (r, calls ++ rest)
      end
  end.

Definition connectNATS (config : Config) (world : nat -> natsAttempt)
  : option gaveUp * list call :=
  connectNATSFrom config world (Z.to_nat (MaxRetries config)) 0 None.

(** The connections to the bus that the calls leave open. *)
Fixpoint openConnections (calls : list call) : Z :=
  match calls with
  | [] => 0
  | NatsConnect None :: rest => openConnections rest + 1
  | NatsClose :: rest => openConnections rest - 1
  | _ :: rest => openConnections rest
  end.

(** The time spent in [time.Sleep]. *)
Fixpoint slept (calls : list call) : Z :=
  match calls with
  | [] => 0
  | Sleep d :: rest => d + slept rest
  | _ :: rest => slept rest
  end.

(** An attempt that connects: the stream is made or is there already. *)
Definition natsUp (a : natsAttempt) : bool :=
  match Connect a, JetStream a, setupStreams (AddStream a) with
  | None, None, None => true
  | _, _, _ => false
  end.

Definition dbUp (a : dbAttempt) : bool :=
  match Open a, Ping a with
  | None, None => true
  | _, _ => false
  end.

(** *** handleScan *)

(** The ports scanned when the request names none. *)
Definition defaultPorts : list Z :=
  [21; 22; 23; 25; 53; 80; 110; 143; 443; 993; 995; 3306; 3389; 5432;
   6379; 8080; 8443].

(** A request as the handlers read it: the method, the path, and the body
    as the decoder gives it, a [ScanRequest] or the error of the decoder. *)
Record Request := mkRequest {
  Method : string;
  Path : string;
  Body : ScanRequest.t + error
}.

(** What a handler answers: [http.Error] with a text and a status, the
    bare status of the preflight, or the encoded response, with status
    200. *)
Inductive reply :=
  | Error (text : string) (code : Z)
  | NoContent
  | OK (response : ScanResponse.t).

Definition StatusCode (r : reply) : Z :=
  match r with
  | Error _ code => code
  | NoContent => 204
  | OK _ => 200
  end.

(** What a handler does to the database and to the bus, in order. *)
Inductive op :=
  | Begin
  | InsertScan (id target status : string) (total_ports : Z)
  | InsertResult (scan_id : string) (port : Z) (state : string)
      (is_open : bool) (error : string)
  | IncrementOpenPorts (id : string)
  | UpdateStatus (status id : string)
  | Commit
  | Rollback
  | Publish (subject : string) (request : NATSScanRequest.t)
  | Ack.

(** What the outside returns to one run of a handler: the id that
    [uuid.New] draws, the time, and the error of each call on which the
    handler branches ([exec] is that of the insert). *)
Record World := mkWorld {
  uuid : string;
  clock : Z;
  begin : option error;
  exec : option error;
  commit : option error;
  publish : option error
}.

(** [handleScan].  The marshalling of the request for the bus, a struct of
    two strings and a list of numbers, does not fail.  [tx.Rollback], being
    deferred, is the last call once the transaction has begun. *)
Definition handleScan (w : World) (r : Request) : reply * list op :=
  if negb (String.eqb (Method r) "POST") then
    (Error "Method not allowed" 405, [])
  else
    match Body r with
    | inr err => (Error ("Invalid request body: " +:+ err) 400, [])
    | inl req =>
        if String.eqb (ScanRequest.Target req) "" then
          (Error "Target is required" 400, [])
        else
          let ports :=
            if (length (ScanRequest.Ports req) =? 0)%nat then defaultPorts
            else ScanRequest.Ports req in
          let scanID := uuid w in
          match begin w with
          | Some _ => (Error "Internal server error" 500, [Begin])
          | None =>
              let insert :=
                InsertScan scanID (ScanRequest.Target req) "pending"
                  (Z.of_nat (length ports)) in
              match exec w with
              | Some _ =>
                  (Error "Failed to create scan" 500,
                   [Begin; insert; Rollback])
              | None =>
                  match commit w with
                  | Some _ =>
                      (Error "Internal server error" 500,
                       [Begin; insert; Commit; Rollback])
                  | None =>
                      let natsReq :=
                        NATSScanRequest.mk scanID (ScanRequest.Target req)
                          ports in
                      match publish w with
                      | Some _ =>
                          (Error "Failed to queue scan" 500,
                           [Begin; insert; Commit;
                            Publish "scan.request" natsReq;
                            UpdateStatus "failed" scanID; Rollback])
                      | None =>
                          (OK (ScanResponse.mk scanID
                                 (ScanRequest.Target req) "pending"
                                 "Scan queued successfully" (clock w)),
                           [Begin; insert; Commit;
                            Publish "scan.request" natsReq; Rollback])
                      end
                  end
              end
          end
    end.

(** [setCORSHeaders]: the preflight is answered without the handler. *)
Definition setCORSHeaders (handler : World -> Request -> reply * list op)
    (w : World) (r : Request) : reply * list op :=
  if String.eqb (Method r) "OPTIONS" then (NoContent, [])
  else handler w r.

(** *** listenForResults *)

(** [json.Unmarshal] into [NATSScanResult]. *)
Definition UnmarshalNATSScanResult (o : json.object)
  : option NATSScanResult.t :=
  id ← json.stringField "id" o;
  scan_id ← json.stringField "scan_id" o;
  port ← json.intField "port" o;
  state ← json.stringField "state" o;
  is_open ← json.boolField "is_open" o;
  error ← json.stringField "error" o;
  Some (NATSScanResult.mk id scan_id port state is_open error).

(** The callback of the subscription to [scan.result]. *)
Definition onResult (w : World) (data : json.object) : list op :=
  match UnmarshalNATSScanResult data with
  | None => [Ack]
  | Some result =>
      match begin w with
      | Some _ => [Begin; Ack]
      | None =>
          let insert :=
            InsertResult (NATSScanResult.ScanID result)
              (NATSScanResult.Port result) (NATSScanResult.State result)
              (NATSScanResult.IsOpen result) (NATSScanResult.Error result) in
          match exec w with
          | Some _ => [Begin; insert; Ack; Rollback]
          | None =>
              [Begin; insert]
              ++ (if NATSScanResult.IsOpen result
                  then [IncrementOpenPorts (NATSScanResult.ScanID result)]
                  else [])
              ++ [Commit; Ack; Rollback]
          end
      end
  end.

Definition isAck (o : op) : bool :=
  match o with Ack => true | _ => false end.

(** The scan ids that the calls to the database name. *)
Definition scanIdOf (o : op) : option string :=
  match o with
  | InsertScan id _ _ _ => Some id
  | InsertResult scan_id _ _ _ _ => Some scan_id
  | IncrementOpenPorts id => Some id
  | UpdateStatus _ id => Some id
  | _ => None
  end.

End MainAgent.
(** * Properties *)

Section Report.
Import Reporter models.

Lemma countResults_from (serviceMap : gmap Z ServiceInfo.t)
    (rs : list ScanResult.t) (acc : counting) :
  let c := foldl (countResult serviceMap) acc rs in
  openPorts c = openPorts acc ++ (portInfoOf serviceMap <$> filter isOpen rs)
  /\ openCount c = openCount acc + Z.of_nat (length (filter isOpen rs))
  /\ closedCount c = closedCount acc + Z.of_nat (length (filter isClosed rs)).
Proof.
  revert acc. induction rs as [|r rs IH]; intros acc; cbn [foldl].
  - cbn. rewrite app_nil_r. repeat split; lia.
  - destruct (IH (countResult serviceMap acc r)) as (Hp & Ho & Hc).
    cbn zeta in *. rewrite Hp, Ho, Hc. clear IH Hp Ho Hc.
    unfold countResult, isOpen, isClosed. rewrite !filter_cons.
    destruct (String.eqb_spec (ScanResult.State r) "open") as [Ho|Ho].
    + rewrite decide_True by done.
      rewrite decide_False by (rewrite Ho; done).
      cbn. rewrite <- app_assoc. cbn.
      repeat split; lia.
    + rewrite decide_False by done.
      destruct (String.eqb_spec (ScanResult.State r) "closed") as [Hc|Hc].
      * rewrite decide_True by done. cbn. repeat split; lia.
      * rewrite decide_False by done. cbn. repeat split; lia.
Qed.

(** C6. In every report that [generateReport] builds, the open count of the
    statistics is the length of the list of open ports, and both are the
    number of accumulated results whose state is open; the entries of the
    list are, in order, the open results, one entry for each. *)
Theorem report_open_count (now : Z) (aggregator : ScanAggregator) :
  let report := buildReport now aggregator in
  ScanStatistics.OpenPorts (Statistics report)
    = Z.of_nat (length (OpenPorts report))
  /\ length (OpenPorts report) = length (filter isOpen (results aggregator))
  /\ Port <$> OpenPorts report
     = ScanResult.Port <$> filter isOpen (results aggregator).
Proof.
  cbn. unfold countResults.
  destruct (countResults_from (buildServiceMap (services aggregator))
              (results aggregator) (mkCounting [] 0 0)) as (Hp & Ho & _).
  cbn in Hp, Ho. rewrite Hp, Ho. rewrite length_fmap.
  split; [lia|]. split; [done|].
  rewrite <- list_fmap_compose. apply list_fmap_ext.
  intros _ r _. unfold portInfoOf. cbn.
  by destruct (buildServiceMap (services aggregator) !! ScanResult.Port r).
Qed.

End Report.

Section Duplicates.
Import Reporter models.

(** C7, as stated, fails: the same open result of port 80 delivered twice
    to the aggregate of a scan gives a report whose statistics count two
    ports, delivered once a report that counts one. *)
Lemma duplicate_result_counted_twice :
  let result := portResult "scan-1" 80 "open" in
  let timeout := [Tick resultTimeout; TimerFires 0; Run 0; Run 0] in
  statisticsAfter "scan-1" (handled result 0 ++ handled result 0 ++ timeout)
  <> statisticsAfter "scan-1" (handled result 0 ++ timeout).
Proof. vm_compute. discriminate. Qed.

Lemma buildReport_appendResult (now' : Z) (a : ScanAggregator)
    (r : ScanResult.t) :
  let before := Statistics (buildReport now' a) in
  let after := Statistics (buildReport now' (appendResult r a)) in
  ScanStatistics.TotalPorts after = ScanStatistics.TotalPorts before + 1
  /\ ScanStatistics.OpenPorts after
     = ScanStatistics.OpenPorts before
       + (if String.eqb (ScanResult.State r) "open" then 1 else 0)
  /\ ScanStatistics.ClosedPorts after
     = ScanStatistics.ClosedPorts before
       + (if String.eqb (ScanResult.State r) "open" then 0
          else if String.eqb (ScanResult.State r) "closed" then 1 else 0).
Proof.
  cbn. rewrite length_app. cbn. split; [lia|].
  unfold countResults. rewrite foldl_app. cbn [foldl].
  set (c := foldl _ _ (results a)). unfold countResult.
  destruct (String.eqb (ScanResult.State r) "open"); cbn; [lia|].
  destruct (String.eqb (ScanResult.State r) "closed"); cbn; lia.
Qed.

(** C7, amended. Every delivery of a result is counted, a repeated one
    too: the handler appends the result to the aggregate whatever the
    aggregate holds, and a report built afterwards counts one more port in
    total, one more open port when the state is open and one more closed
    port when it is closed. *)
Theorem every_delivery_counted (st : state) (p : nat) (a : ScanAggregator)
    (r : ScanResult.t) (now' : Z) :
  heap st !! p = Some a ->
  let st' := snd (addResult p r st) in
  let before := Statistics (buildReport now' a) in
  exists a',
    heap st' !! p = Some a'
    /\ results a' = results a ++ [r]
    /\ fst (addResult p r st) = resultCount a + 1
    /\ let after := Statistics (buildReport now' a') in
       ScanStatistics.TotalPorts after = ScanStatistics.TotalPorts before + 1
       /\ ScanStatistics.OpenPorts after
          = ScanStatistics.OpenPorts before
            + (if String.eqb (ScanResult.State r) "open" then 1 else 0)
       /\ ScanStatistics.ClosedPorts after
          = ScanStatistics.ClosedPorts before
            + (if String.eqb (ScanResult.State r) "open" then 0
               else if String.eqb (ScanResult.State r) "closed" then 1
               else 0).
Proof.
  intros Hp. exists (appendResult r a).
  assert (Hp' : heap (update p (appendResult r) st) !! p
                = Some (appendResult r a)).
  { unfold update. rewrite Hp. cbn. apply list_lookup_insert_eq.
    by eapply lookup_lt_Some. }
  unfold addResult. cbn [fst snd]. rewrite Hp'.
  split; [done|]. split; [done|]. split; [done|].
  apply buildReport_appendResult.
Qed.

(** The aggregate already holds the result that is delivered again. *)
Lemma every_delivery_counted_witness :
  let r := portResult "scan-1" 80 "open" in
  let st := deliverAll initial [(0, r)] in
  exists a a',
    heap st !! 0%nat = Some a
    /\ r ∈ results a
    /\ heap (snd (addResult 0 r st)) !! 0%nat = Some a'
    /\ results a' = [r; r]
    /\ ScanStatistics.TotalPorts (Statistics (buildReport 0 a')) = 2
    /\ ScanStatistics.OpenPorts (Statistics (buildReport 0 a')) = 2.
Proof.
  intros r st.
  destruct (every_delivery_counted st 0
              (mkScanAggregator "scan-1" "10.0.0.5" [r] [] 0 Armed 1) r 0
              eq_refl)
    as (a' & Ha' & Hres & _ & Htot & Hopen & _).
  eexists _, a'. split; [reflexivity|]. split; [apply list_elem_of_singleton, eq_refl|].
  split; [exact Ha'|]. split; [exact Hres|]. split; [exact Htot | exact Hopen].
Defined.

End Duplicates.

Section Services.
Import Reporter models.

(** C10. A service record for a scan id that has no entry in the registry
    is dropped: the handler leaves the memory of the agent as it is (no
    aggregate is made, none is changed), no goroutine is left behind, and
    whatever happens afterwards happens as it would without the record, so
    the record is in no report. *)
Theorem service_without_aggregate_dropped (service : ServiceInfo.t)
    (c : config) :
  scanAggregators (mem c) !! ServiceInfo.ScanID service = None ->
  handleServiceDetected service (mem c) = mem c
  /\ step (ServiceDetectedMsg service) c = Some c
  /\ forall es, run (ServiceDetectedMsg service :: es) c = run es c.
Proof.
  intros Hnone. unfold handleServiceDetected. cbn. rewrite Hnone. done.
Qed.

(** The record of a scan that was finalized at its twentieth result. *)
Lemma service_without_aggregate_dropped_witness :
  let results := replicate 20 (0, portResult "scan-1" 80 "open") in
  let c := mkConfig (deliverAll initial results) [] in
  let service := ServiceInfo.mk "" "scan-1" "10.0.0.5" 80 "HTTP" "" "" in
  scanAggregators (mem c) !! "scan-1" = None
  /\ handleServiceDetected service (mem c) = mem c
  /\ step (ServiceDetectedMsg service) c = Some c.
Proof.
  intros results c service.
  assert (H : scanAggregators (mem c) !! ServiceInfo.ScanID service = None)
    by (vm_compute; reflexivity).
  split; [exact H|].
  destruct (service_without_aggregate_dropped service c H) as (H1 & H2 & _).
  split; [exact H1 | exact H2].
Defined.

End Services.

Section Probe.
Import Scanner.

(** C2, as stated, fails: the result of a probe that connected has no
    state, open or other.  What the scanner publishes for it has the
    members [id], [target], [port] and [is_open], and none named
    [state]. *)
Lemma connected_probe_has_no_state :
  let result := fst (scanPort "scan-1" "10.0.0.5" 22 Connected) in
  json.MarshalScanResult result
  = [("id", json.String "scan-1"); ("target", json.String "10.0.0.5");
     ("port", json.Number 22); ("is_open", json.Bool true)]
  /\ "state" ∉ fst <$> json.MarshalScanResult result.
Proof.
  split; [reflexivity|]. cbn. rewrite !elem_of_cons, elem_of_nil.
  intros [H|[H|[H|[H|[]]]]]; discriminate.
Qed.

(** C2, amended. The probe dials once, with a deadline of one second.
    When the dial connects, the result has [IsOpen] set and no error tag,
    and the connection is closed at once, nothing else being done with it.
    When the dial fails with a network error that is a timeout, the result
    has [IsOpen] unset and the tag [timeout]; on any other error [IsOpen]
    is unset and the tag is [connection_refused].  The outcome is in
    [IsOpen] and the tag alone: what is published for the result has the
    members [id], [target], [port] and [is_open], and [error] with the
    tag when there is one. *)
Theorem scanPort_outcomes (scanID target : string) (port : Z)
    (conn : dialed) :
  let result := fst (scanPort scanID target port conn) in
  let ops := snd (scanPort scanID target port conn) in
  let dial := DialTimeout "tcp" (target +:+ ":" +:+ strings.itoa port)
                (1 * 1000000000) in
  ScanResult.ID result = scanID
  /\ ScanResult.Target result = target
  /\ ScanResult.Port result = port
  /\ match conn with
     | Connected =>
         ScanResult.IsOpen result = true
         /\ ScanResult.Error result = ""
         /\ ops = [dial; Close]
         /\ json.MarshalScanResult result
            = [("id", json.String scanID); ("target", json.String target);
               ("port", json.Number port); ("is_open", json.Bool true)]
     | NotConnected err =>
         let tag := if isNetError err && Timeout err then "timeout"
                    else "connection_refused" in
         ScanResult.IsOpen result = false
         /\ ops = [dial]
         /\ ScanResult.Error result = tag
         /\ json.MarshalScanResult result
            = [("id", json.String scanID); ("target", json.String target);
               ("port", json.Number port); ("is_open", json.Bool false);
               ("error", json.String tag)]
     end.
Proof.
  destruct conn as [|err]; cbn.
  - repeat split.
  - repeat split. by destruct (isNetError err && Timeout err).
Qed.

End Probe.

Section SSHBanner.
Import Analyzer strings.

(** C4, as stated, fails: a server on port 22 that greets with the line
    [SSH-2.0-OpenSSH_8.9] gets the service name [SSH] but not the version
    [8.9]; the line has no space, so no version is taken. *)
Lemma openssh_8_9_version_not_extracted :
  let result := ScanResult.mk "scan-1" "10.0.0.5" 22 true "" in
  let net := mkNet (greets ("SSH-2.0-OpenSSH_8.9" +:+ CRLF) None)
               (GetFails EOF) in
  let info := fst (detectService result net) in
  ServiceInfo.Service info = "SSH" /\ ServiceInfo.Version info <> "8.9".
Proof. vm_compute. split; [reflexivity | discriminate]. Qed.

Lemma Split_no_sep (s : string) (sep : ascii) :
  hasByte sep s = false -> Split s sep = [s].
Proof.
  induction s as [|c s IH]; cbn [Split hasByte]; [done|].
  destruct (Ascii.eqb c sep); cbn [orb]; [done|].
  intros H. by rewrite (IH H).
Qed.

Lemma append_nil_l (s : string) : "" +:+ s = s.
Proof. reflexivity. Qed.

Lemma append_cons (c : ascii) (s t : string) :
  String c s +:+ t = String c (s +:+ t).
Proof. reflexivity. Qed.

Lemma append_nil_r (s : string) : s +:+ "" = s.
Proof. induction s as [|c s IH]; [done|]. by rewrite append_cons, IH. Qed.

Lemma Split_at_sep (a t : string) (sep : ascii) :
  hasByte sep a = false ->
  Split (a +:+ String sep t) sep = a :: Split t sep.
Proof.
  induction a as [|c a IH].
  - intros _. rewrite append_nil_l. cbn [Split]. by rewrite Ascii.eqb_refl.
  - rewrite append_cons. cbn [Split hasByte].
    destruct (Ascii.eqb c sep); cbn [orb]; [done|].
    intros H. by rewrite (IH H).
Qed.

Lemma Contains_app_r (s t sub : string) :
  Contains t sub = true -> Contains (s +:+ t) sub = true.
Proof.
  intros H. induction s as [|c s IH]; [done|].
  rewrite append_cons. cbn [Contains]. rewrite IH. apply orb_true_r.
Qed.

Lemma HasPrefix_split (s p : string) :
  HasPrefix s p = true -> exists t, s = p +:+ t.
Proof.
  revert s. induction p as [|a p IH]; intros s.
  - by exists s.
  - destruct s as [|b s]; cbn [HasPrefix]; [done|].
    destruct (Ascii.eqb_spec a b) as [->|]; cbn [andb]; [|done].
    intros H. destruct (IH _ H) as [t ->]. by exists t.
Qed.

Lemma Contains_split (s sub : string) :
  Contains s sub = true -> exists u t, s = u +:+ sub +:+ t.
Proof.
  induction s as [|c s IH].
  - cbn [Contains]. rewrite orb_false_r. intros H.
    destruct (HasPrefix_split _ _ H) as [t Ht]. by exists "", t.
  - cbn [Contains]. intros [H|H]%orb_true_iff.
    + destruct (HasPrefix_split _ _ H) as [t Ht]. by exists "", t.
    + destruct (IH H) as (u & t & ->). by exists (String c u), t.
Qed.

Lemma Contains_OpenSSH_SSH (s : string) :
  Contains s "OpenSSH" = true -> Contains s "SSH" = true.
Proof.
  intros (u & t & ->)%Contains_split. apply Contains_app_r.
  rewrite !append_cons, append_nil_l. reflexivity.
Qed.

(** C4, amended. When the first line read on port 22 is
    [SSH-2.0-OpenSSH_8.9], whether it ends the stream or ends with a line
    feed, the record has the service name [SSH], the banner
    [SSH-2.0-OpenSSH_8.9] and no version.  In general the version is the
    token after the first space of what was read, up to the next space or
    the end, and it is taken only when the text contains [OpenSSH]: a text
    without [OpenSSH] gives no version, whatever follows its first space,
    and so does a text without a space.  The service name is [SSH]
    whatever was read: it is the name of port 22 in the table of the
    detector. *)
Theorem detectSSH_version (result : ScanResult.t) (net : Net)
    (banner : string) (err : option error) :
  ScanResult.Port result = 22 ->
  dial (tcp net) = None ->
  reads (tcp net) 0%nat = (banner, err) ->
  notEOF err = false ->
  let info := fst (detectService result net) in
  (banner ∈ ["SSH-2.0-OpenSSH_8.9"; "SSH-2.0-OpenSSH_8.9" +:+ LF;
             "SSH-2.0-OpenSSH_8.9" +:+ CRLF] ->
   ServiceInfo.Service info = "SSH"
   /\ ServiceInfo.Version info = ""
   /\ ServiceInfo.Banner info = "SSH-2.0-OpenSSH_8.9")
  /\ (hasByte " " banner = false -> ServiceInfo.Version info = "")
  /\ (Contains banner "OpenSSH" = false -> ServiceInfo.Version info = "")
  /\ ServiceInfo.Service info = "SSH"
  /\ (forall a b rest,
        banner = a +:+ " " +:+ b +:+ rest ->
        hasByte " " a = false -> hasByte " " b = false ->
        rest = "" \/ HasPrefix rest " " = true ->
        Contains banner "OpenSSH" = true ->
        ServiceInfo.Service info = "SSH" /\ ServiceInfo.Version info = b).
Proof.
  intros Hport Hdial Hread Herr. unfold detectService. rewrite Hport.
  change (dispatch 22) with SSH. cbn [detect]. unfold detectSSH.
  rewrite Hdial, Hread, Herr. cbn [fst]. split; [|split; [|split; [|split]]].
  - rewrite !elem_of_cons, elem_of_nil.
    intros [->|[->|[->|[]]]]; vm_compute; done.
  - intros Hno. rewrite (Split_no_sep _ _ Hno).
    by destruct (Contains banner "SSH"), (Contains banner "OpenSSH").
  - intros ->. destruct (serviceRegistry !! 22).
    all: by destruct (Contains banner "SSH").
  - replace (serviceRegistry !! 22) with (Some "SSH")
      by (vm_compute; reflexivity).
    destruct (Contains banner "SSH"); [|done].
    destruct (Contains banner "OpenSSH"); [|done].
    by destruct (Split banner " ") as [|? [|? ?]].
  - intros a b rest -> Ha Hb Hrest Hopen.
    rewrite Hopen, (Contains_OpenSSH_SSH _ Hopen).
    change (a +:+ " " +:+ b +:+ rest) with (a +:+ String " " (b +:+ rest)).
    rewrite (Split_at_sep _ _ _ Ha).
    destruct Hrest as [->|Hrest].
    + rewrite append_nil_r.
      rewrite (Split_no_sep _ _ Hb). done.
    + destruct rest as [|c rest]; [done|]. cbn [HasPrefix] in Hrest.
      apply andb_true_iff in Hrest as [Hc _].
      apply Ascii.eqb_eq in Hc as <-.
      rewrite (Split_at_sep _ _ _ Hb). done.
Qed.

(** The greeting of an OpenSSH server that names its distribution, and
    the greeting of another server, with a comment after a space. *)
Lemma detectSSH_version_witness :
  let result := ScanResult.mk "scan-1" "10.0.0.5" 22 true "" in
  let openssh := "SSH-2.0-OpenSSH_8.9 Ubuntu-3" in
  let dropbear := "SSH-2.0-dropbear_2020.81 extra" +:+ CRLF in
  let net banner := mkNet (greets banner (Some EOF)) (GetFails EOF) in
  ServiceInfo.Version (fst (detectService result (net openssh)))
  = "Ubuntu-3"
  /\ ServiceInfo.Service (fst (detectService result (net dropbear))) = "SSH"
  /\ ServiceInfo.Version (fst (detectService result (net dropbear))) = "".
Proof.
  intros result openssh dropbear net. split; [|split].
  - destruct (detectSSH_version result (net openssh) openssh (Some EOF)
                eq_refl eq_refl eq_refl eq_refl) as (_ & _ & _ & _ & H).
    apply (H "SSH-2.0-OpenSSH_8.9" "Ubuntu-3" ""); try reflexivity.
    left; reflexivity.
  - destruct (detectSSH_version result (net dropbear) dropbear (Some EOF)
                eq_refl eq_refl eq_refl eq_refl) as (_ & _ & _ & H & _).
    exact H.
  - destruct (detectSSH_version result (net dropbear) dropbear (Some EOF)
                eq_refl eq_refl eq_refl eq_refl) as (_ & _ & H & _).
    apply H. reflexivity.
Defined.

End SSHBanner.

Section Fingerprint.
Import Analyzer strings.

Lemma Service_setBanner b info :
  ServiceInfo.Service (setBanner b info) = ServiceInfo.Service info.
Proof. reflexivity. Qed.

Lemma Service_setVersion v info :
  ServiceInfo.Service (setVersion v info) = ServiceInfo.Service info.
Proof. reflexivity. Qed.

Lemma Service_setService s info :
  ServiceInfo.Service (setService s info) = s.
Proof. reflexivity. Qed.

#[local] Ltac service :=
  cbn [fst snd]; rewrite ?Service_setBanner, ?Service_setVersion,
    ?Service_setService; auto.

(** A protocol handler leaves the service name or sets its own. *)
Lemma detect_service (h : handler) (net : Net) (info : ServiceInfo.t) :
  h <> Generic ->
  ServiceInfo.Service (fst (detect h net info)) = ServiceInfo.Service info
  \/ ServiceInfo.Service (fst (detect h net info)) = nameOf h.
Proof.
  intros Hh. destruct h; cbn [detect nameOf]; [..|done].
  - unfold detectSSH. destruct (dial (tcp net)); [service|].
    destruct (reads (tcp net) 0%nat) as [banner err].
    destruct (notEOF err); [service|].
    destruct (Contains banner "SSH"); [|service].
    destruct (Contains banner "OpenSSH"); [|service].
    destruct (Split banner " ") as [|? [|? ?]]; service.
  - unfold detectHTTP. destruct (http net); [service|].
    destruct (negb _); service.
  - unfold detectHTTPS. destruct (http net); [service|].
    destruct (negb _); service.
  - unfold detectMySQL. destruct (dial (tcp net)); [service|].
    destruct (reads (tcp net) 0%nat) as [data err].
    destruct (notEOF err); [service|].
    destruct (4 <? _); [|service].
    destruct (bool_decide _); [|service].
    destruct (5 <? _)%nat; service.
  - unfold detectPostgreSQL. destruct (dial (tcp net)); [service|].
    destruct (writes (tcp net) 0%nat); [service|].
    destruct (reads (tcp net) 0%nat) as [data err].
    destruct (_ || _); service.
  - unfold detectRedis. destruct (dial (tcp net)); [service|].
    destruct (writes (tcp net) 0%nat); [service|].
    destruct (reads (tcp net) 0%nat) as [response err].
    destruct (notEOF err); [service|].
    destruct (_ || _); [|service].
    destruct (reads (tcp net) 1%nat) as [infoData rerr].
    destruct (_ && _); destruct (negb _); service.
  - unfold detectMongoDB. destruct (dial (tcp net)); [service|].
    destruct (writes (tcp net) 0%nat); [service|].
    destruct (reads (tcp net) 0%nat) as [data err].
    destruct (0 <? _); service.
Qed.

(** A web handler whose request fails leaves the service name. *)
Lemma detectHTTP_failed (r : response) (info : ServiceInfo.t) :
  ioFailed (snd (detectHTTP r info)) = true ->
  ServiceInfo.Service (fst (detectHTTP r info)) = ServiceInfo.Service info.
Proof. destruct r; [done|]. cbn. by destruct (negb _). Qed.

Lemma detectHTTPS_failed (r : response) (info : ServiceInfo.t) :
  ioFailed (snd (detectHTTPS r info)) = true ->
  ServiceInfo.Service (fst (detectHTTPS r info)) = ServiceInfo.Service info.
Proof. destruct r; [done|]. cbn. by destruct (negb _). Qed.

Lemma guessService_service (bannerLower : string) (info : ServiceInfo.t) :
  ServiceInfo.Service info <> "" ->
  ServiceInfo.Service (guessService bannerLower info)
    = ServiceInfo.Service info
  \/ ServiceInfo.Service (guessService bannerLower info) ∈ keywordNames.
Proof.
  intros Hne. unfold guessService, keywordNames.
  repeat (destruct (Contains bannerLower _);
          [right; cbn; rewrite !elem_of_cons; tauto|]).
  destruct (String.eqb_spec (ServiceInfo.Service info) ""); [done|]. by left.
Qed.

(** The generic handler leaves a service name that is set, or replaces it
    by the name of a keyword. *)
Lemma grabBanner_service (c : Conn) (info : ServiceInfo.t) :
  ServiceInfo.Service info <> "" ->
  ServiceInfo.Service (fst (grabBanner c info)) = ServiceInfo.Service info
  \/ ServiceInfo.Service (fst (grabBanner c info)) ∈ keywordNames.
Proof.
  intros Hne. unfold grabBanner. destruct (dial c); [by left|].
  destruct (reads c 0%nat) as [data1 err1].
  destruct (reads c 1%nat) as [data2 err2].
  destruct (notEOF err1 && _); cbn [fst];
    (destruct (0 <? _); [|by left]);
    match goal with
    | |- context [guessService ?l ?i] =>
        destruct (guessService_service l i Hne) as [H|H]
    end; [left; exact H | right; exact H | left; exact H | right; exact H].
Qed.

(** The generic handler that cannot connect, or reads nothing, leaves the
    service name. *)
Lemma grabBanner_nothing (c : Conn) (info : ServiceInfo.t) :
  dial c <> None
  \/ (buf (fst (reads c 0%nat)) = "" /\ buf (fst (reads c 1%nat)) = "") ->
  fst (grabBanner c info) = info.
Proof.
  unfold grabBanner. destruct (dial c) as [e|]; [done|].
  intros [H|[H0 H1]]; [done|].
  destruct (reads c 0%nat) as [data1 err1].
  destruct (reads c 1%nat) as [data2 err2]. cbn [fst] in H0, H1.
  rewrite H0, H1. by destruct (notEOF err1).
Qed.

Lemma serviceTable_ok : Forall entryOk serviceTable.
Proof.
  unfold serviceTable.
  repeat (apply Forall_cons; split;
          [unfold entryOk; vm_compute; repeat split; try discriminate;
           tauto|]).
  apply Forall_nil_2.
Qed.

Lemma serviceRegistry_ok (port : Z) (name : string) :
  serviceRegistry !! port = Some name -> entryOk (port, name).
Proof.
  intros H%elem_of_list_to_map_2.
  exact (proj1 (Forall_forall _ _) serviceTable_ok _ H).
Qed.

Lemma nameOf_set (h : handler) :
  h <> Generic -> nameOf h <> "Unknown" /\ nameOf h <> "".
Proof. destruct h; done. Qed.

Lemma keywordNames_set (name : string) :
  name ∈ keywordNames -> name <> "Unknown" /\ name <> "".
Proof.
  unfold keywordNames. rewrite !elem_of_cons, elem_of_nil.
  intros H. repeat (destruct H as [->|H]; [done|]). done.
Qed.

(** C9. For an open port of the table, when an I/O step of its protocol
    handler fails (the connect, a write, a read, an HTTP request), the
    record that is published keeps the name that the table gives the port.
    Whatever the I/O does, and with the generic handler too, the name of
    such a port is never [Unknown] and never empty; the generic handler
    keeps the name of the table when it cannot connect or reads nothing. *)
Theorem io_failure_keeps_table_name (result : ScanResult.t) (net : Net)
    (name : string) :
  serviceRegistry !! ScanResult.Port result = Some name ->
  let info := fst (detectService result net) in
  let log := snd (detectService result net) in
  (dispatch (ScanResult.Port result) <> Generic ->
   ioFailed log = true -> ServiceInfo.Service info = name)
  /\ ServiceInfo.Service info <> "Unknown"
  /\ ServiceInfo.Service info <> ""
  /\ (dispatch (ScanResult.Port result) = Generic ->
      dial (tcp net) <> None
      \/ (buf (fst (reads (tcp net) 0%nat)) = ""
          /\ buf (fst (reads (tcp net) 1%nat)) = "") ->
      ServiceInfo.Service info = name).
Proof.
  intros Hreg. cbn zeta. unfold detectService. rewrite Hreg.
  set (info0 := setService name _).
  assert (H0 : ServiceInfo.Service info0 = name) by done.
  clearbody info0.
  destruct (serviceRegistry_ok _ _ Hreg) as (Hne & Hunk & Hh).
  cbn [fst snd] in Hne, Hunk, Hh.
  set (h := dispatch (ScanResult.Port result)) in *. clearbody h.
  split; [|split; [|split]].
  - intros Hspec Hfail.
    destruct Hh as [Hh|[Hh|[->| ->]]]; [done| |..].
    + destruct (detect_service h net info0 Hspec) as [H|H]; congruence.
    + rewrite <- H0. by apply detectHTTP_failed.
    + rewrite <- H0. by apply detectHTTPS_failed.
  - destruct (decide (h = Generic)) as [->|Hspec].
    + cbn [detect].
      destruct (grabBanner_service (tcp net) info0) as [H|H];
        [congruence | congruence | by apply keywordNames_set].
    + destruct (detect_service h net info0 Hspec) as [H|H]; rewrite H.
      * by rewrite H0.
      * by apply nameOf_set.
  - destruct (decide (h = Generic)) as [->|Hspec].
    + cbn [detect].
      destruct (grabBanner_service (tcp net) info0) as [H|H];
        [congruence | congruence | by apply keywordNames_set].
    + destruct (detect_service h net info0 Hspec) as [H|H]; rewrite H.
      * by rewrite H0.
      * by apply nameOf_set.
  - intros -> Hnothing. cbn [detect].
    by rewrite (grabBanner_nothing _ _ Hnothing).
Qed.

(** Port 8080, where the proxy name of the table differs from the name the
    web handler would set: nothing answers, the record says [HTTP-Proxy]. *)
Lemma io_failure_keeps_table_name_witness :
  let result := ScanResult.mk "scan-1" "10.0.0.5" 8080 true "" in
  ioFailed (snd (detectService result unreachable)) = true
  /\ ServiceInfo.Service (fst (detectService result unreachable))
     = "HTTP-Proxy".
Proof.
  intros result. split; [reflexivity|].
  destruct (io_failure_keeps_table_name result unreachable "HTTP-Proxy"
              eq_refl) as [H _].
  apply H; [discriminate | reflexivity].
Defined.

End Fingerprint.

Section Pool.
Import Scanner.
#[local] Open Scope nat_scope.

(** Replacing the state of a goroutine changes one element of the list. *)
Lemma setWorker_split (c : pool) (i : nat) (p : Z) (w w' : worker) :
  workers c !! i = Some (p, w) ->
  exists l1 l2,
    workers c = l1 ++ (p, w) :: l2
    /\ setWorker i w' c = l1 ++ (p, w') :: l2.
Proof.
  intros H. exists (take i (workers c)), (drop (S i) (workers c)).
  unfold setWorker. rewrite H. split.
  - symmetry. by apply take_drop_middle.
  - apply insert_take_drop. by eapply lookup_lt_Some.
Qed.

Lemma count_split (f : Z * worker -> bool) (l1 l2 : list (Z * worker))
    (x : Z * worker) :
  length (filter (fun w => f w = true) (l1 ++ x :: l2))
  = length (filter (fun w => f w = true) l1)
    + (if f x then 1 else 0)
    + length (filter (fun w => f w = true) l2).
Proof.
  rewrite filter_app, filter_cons, length_app.
  destruct (f x); cbn.
  - rewrite decide_True by done. cbn. lia.
  - rewrite decide_False by done. lia.
Qed.

Lemma emitted_split (l1 l2 : list (Z * worker)) (x : Z * worker) :
  fst <$> filter (fun w => emitted w = true) (l1 ++ x :: l2)
  = (fst <$> filter (fun w => emitted w = true) l1)
    ++ (if emitted x then [fst x] else [])
    ++ (fst <$> filter (fun w => emitted w = true) l2).
Proof.
  rewrite filter_app, filter_cons, fmap_app.
  destruct (emitted x); cbn.
  - by rewrite decide_True by done.
  - by rewrite decide_False by done.
Qed.

Lemma remaining_split (l1 l2 : list (Z * worker)) (x : Z * worker) :
  sum_list_with remaining (l1 ++ x :: l2)
  = sum_list_with remaining l1 + remaining x + sum_list_with remaining l2.
Proof. rewrite sum_list_with_app. cbn. lia. Qed.

Lemma filter_waiting_none (f : Z * worker -> bool) (ports : list Z) :
  (forall p, f (p, Waiting) = false) ->
  filter (fun w => f w = true) ((fun p => (p, Waiting)) <$> ports) = [].
Proof.
  intros Hf. induction ports as [|p ports IH]; [done|].
  rewrite fmap_cons, filter_cons, decide_False; [done|].
  by rewrite Hf.
Qed.

Lemma filter_waiting_all (f : Z * worker -> bool) (ports : list Z) :
  (forall p, f (p, Waiting) = true) ->
  filter (fun w => f w = true) ((fun p => (p, Waiting)) <$> ports)
  = (fun p => (p, Waiting)) <$> ports.
Proof.
  intros Hf. induction ports as [|p ports IH]; [done|].
  rewrite fmap_cons, filter_cons, decide_True, IH; [done|apply Hf].
Qed.

(** *** The invariant of one scan *)

Section Invariant.
Variables (id tgt : string) (ports : list Z).

Lemma scanPorts_inv :
  poolInv id tgt ports (scanPorts id tgt ports).
Proof.
  split; unfold count;
    cbn [scanPorts scanID target workers sem results wg closed published];
    try done.
  - rewrite <- list_fmap_compose. apply list_fmap_id.
  - by rewrite filter_waiting_none.
  - lia.
  - by rewrite filter_waiting_all, length_fmap.
  - apply Forall_fmap, Forall_forall. done.
  - by rewrite filter_waiting_none.
Qed.

Lemma scanPort_resultOf (p : Z) (conn : dialed) :
  resultOf id tgt p (fst (scanPort id tgt p conn)).
Proof. by destruct conn. Qed.

#[local] Ltac fields :=
  cbn [scanID target workers sem results wg closed published].

#[local] Ltac counts :=
  rewrite ?count_split, ?emitted_split, ?remaining_split in *;
  cbn [snd fst holdsSlot notFinished emitted remaining] in *.

#[local] Ltac worker_step Hi w' :=
  match type of Hi with
  | workers ?c !! ?i = Some (?p, ?w) =>
      let l1 := fresh "l1" in
      let l2 := fresh "l2" in
      let Hw := fresh "Hw" in
      let Hs := fresh "Hs" in
      destruct (setWorker_split c i p w w' Hi) as (l1 & l2 & Hw & Hs);
      rewrite Hw in *;
      split; unfold count; fields; rewrite ?Hs; try done; counts; try lia;
      try done
  end.

(** Every step keeps the invariant. *)
Lemma pool_step_inv (e : event) (c c' : pool) :
  poolInv id tgt ports c -> step e c = Some c' -> poolInv id tgt ports c'.
Proof.
  intros [Hid Htgt Hports Hsem Hcap Hwg Hclosed Hscanned Hsent Hchan].
  unfold count in *.
  destruct e as [i|i conn|i|i|i| |]; cbn [step].
  - destruct (workers c !! i) as [[p []]|] eqn:Hi; try done.
    destruct (Nat.ltb_spec (sem c) maxWorkers) as [Hlt|]; [|done].
    intros [= <-]. worker_step Hi Dialing.
    + by rewrite <- Hports, !fmap_app.
    + rewrite Forall_app, Forall_cons in *.
      destruct Hscanned as (? & _ & ?). done.
  - destruct (workers c !! i) as [[p []]|] eqn:Hi; try done.
    intros [= <-]. worker_step Hi (Scanned (scanPort (scanID c) (target c) p conn).1).
    + by rewrite <- Hports, !fmap_app.
    + rewrite Forall_app, Forall_cons in *.
      destruct Hscanned as (? & _ & ?). split; [done|]. split; [|done].
      rewrite Hid, Htgt. apply scanPort_resultOf.
  - destruct (workers c !! i) as [[p []]|] eqn:Hi; try done.
    destruct (Nat.ltb_spec (length (results c)) (length (workers c)));
      [|done].
    intros [= <-]. worker_step Hi Sent.
    + by rewrite <- Hports, !fmap_app.
    + rewrite Forall_app, Forall_cons in *.
      destruct Hscanned as (? & _ & ?). done.
    + rewrite Forall_app, Forall_cons in Hscanned.
      destruct Hscanned as (_ & (Hr1 & Hr2 & _) & _).
      rewrite app_assoc, Forall_app, Forall_singleton. done.
    + rewrite Forall_app, Forall_cons in Hscanned.
      destruct Hscanned as (_ & (_ & _ & Hr) & _). cbn in Hr.
      rewrite app_assoc, fmap_app, Hchan. cbn. rewrite Hr.
      rewrite <- app_assoc. cbn.
      apply Permutation_app_head. symmetry. apply Permutation_cons_append.
  - destruct (workers c !! i) as [[p []]|] eqn:Hi; try done.
    intros [= <-]. worker_step Hi Released.
    + by rewrite <- Hports, !fmap_app.
    + rewrite Forall_app, Forall_cons in *.
      destruct Hscanned as (? & _ & ?). done.
  - destruct (workers c !! i) as [[p []]|] eqn:Hi; try done.
    intros [= <-]. worker_step Hi Finished.
    + by rewrite <- Hports, !fmap_app.
    + intros Hc. specialize (Hclosed Hc). lia.
    + rewrite Forall_app, Forall_cons in *.
      destruct Hscanned as (? & _ & ?). done.
  - destruct (Nat.eqb_spec (wg c) 0) as [H0|]; [|done].
    destruct (closed c) eqn:Hc; [done|]. cbn [negb andb].
    intros [= <-]. split; unfold count; fields; done.
  - destruct (results c) as [|r rest] eqn:Hr; [done|].
    intros [= <-]. split; unfold count; fields; try done.
    + by rewrite <- app_assoc.
    + by rewrite <- app_assoc.
Qed.

Lemma pool_run_inv (es : list event) (c c' : pool) :
  poolInv id tgt ports c -> run es c = Some c' -> poolInv id tgt ports c'.
Proof.
  revert c. induction es as [|e es IH]; intros c Hinv; cbn [run].
  - by intros [= <-].
  - destruct (step e c) as [c1|] eqn:He; [|done].
    apply IH. by eapply pool_step_inv.
Qed.

Lemma outstanding_le_sem (c : pool) :
  poolInv id tgt ports c -> outstanding c <= sem c.
Proof.
  intros Hinv. rewrite (inv_sem _ _ _ _ Hinv). unfold outstanding, count.
  induction (workers c) as [|[p w] l IH]; [done|].
  rewrite !filter_cons. destruct w; cbn;
    repeat case_decide; cbn; try done; lia.
Qed.

(** Every step uses up some of the steps left. *)
Lemma step_stepsLeft (e : event) (c c' : pool) :
  step e c = Some c' -> stepsLeft c' < stepsLeft c.
Proof.
  unfold stepsLeft.
  destruct e as [i|i conn|i|i|i| |]; cbn [step].
  - destruct (workers c !! i) as [[p []]|] eqn:Hi; try done.
    destruct (sem c <? maxWorkers); [|done]. intros [= <-].
    destruct (setWorker_split c i p _ Dialing Hi) as (l1 & l2 & Hw & Hs).
    fields. rewrite Hs, Hw, !remaining_split. cbn. lia.
  - destruct (workers c !! i) as [[p []]|] eqn:Hi; try done.
    intros [= <-].
    destruct (setWorker_split c i p _
                (Scanned (scanPort (scanID c) (target c) p conn).1) Hi)
      as (l1 & l2 & Hw & Hs).
    fields. rewrite Hs, Hw, !remaining_split. cbn. lia.
  - destruct (workers c !! i) as [[p []]|] eqn:Hi; try done.
    destruct (length (results c) <? length (workers c)); [|done].
    intros [= <-].
    destruct (setWorker_split c i p _ Sent Hi) as (l1 & l2 & Hw & Hs).
    fields. rewrite Hs, Hw, !remaining_split, length_app. cbn. lia.
  - destruct (workers c !! i) as [[p []]|] eqn:Hi; try done.
    intros [= <-].
    destruct (setWorker_split c i p _ Released Hi) as (l1 & l2 & Hw & Hs).
    fields. rewrite Hs, Hw, !remaining_split. cbn. lia.
  - destruct (workers c !! i) as [[p []]|] eqn:Hi; try done.
    intros [= <-].
    destruct (setWorker_split c i p _ Finished Hi) as (l1 & l2 & Hw & Hs).
    fields. rewrite Hs, Hw, !remaining_split. cbn. lia.
  - destruct (wg c =? 0); [|done]. destruct (closed c); [done|].
    intros [= <-]. fields. lia.
  - destruct (results c) as [|r rest]; [done|]. intros [= <-]. fields.
    cbn. lia.
Qed.

(** No run is longer than the steps left where it starts. *)
Lemma run_length (es : list event) (c c' : pool) :
  run es c = Some c' -> length es + stepsLeft c' <= stepsLeft c.
Proof.
  revert c. induction es as [|e es IH]; intros c; cbn [run].
  - intros [= <-]. cbn [length]. lia.
  - destruct (step e c) as [c1|] eqn:He; [|done]. intros Hrun.
    specialize (IH _ Hrun). apply step_stepsLeft in He. cbn [length]. lia.
Qed.

Lemma filter_none (f : Z * worker -> bool) (l : list (Z * worker)) :
  Forall (fun w => f w = false) l -> filter (fun w => f w = true) l = [].
Proof.
  induction 1 as [|x l Hx _ IH]; [done|].
  rewrite filter_cons, decide_False, IH; [done|]. by rewrite Hx.
Qed.

Lemma not_Exists_false (f : Z * worker -> bool) (l : list (Z * worker)) :
  ~ Exists (fun w => f w = true) l -> Forall (fun w => f w = false) l.
Proof.
  intros H. apply Forall_forall. intros x Hx.
  destruct (f x) eqn:Hf; [|done]. destruct H. apply Exists_exists. eauto.
Qed.

Lemma Exists_worker (f : Z * worker -> bool) (l : list (Z * worker)) :
  Exists (fun w => f w = true) l ->
  exists i p w, l !! i = Some (p, w) /\ f (p, w) = true.
Proof.
  intros ([p w] & Hin & Hf)%Exists_exists.
  apply list_elem_of_lookup in Hin as [i Hi]. eauto.
Qed.

(** A goroutine that has not sent leaves room in the channel. *)
Lemma channel_has_room (c : pool) (i : nat) (p : Z) (r : ScanResult.t) :
  poolInv id tgt ports c ->
  workers c !! i = Some (p, Scanned r) ->
  length (results c) < length (workers c).
Proof.
  intros Hinv Hi.
  pose proof (Permutation_length (inv_chan _ _ _ _ Hinv)) as Hlen.
  rewrite !length_fmap, length_app in Hlen.
  destruct (setWorker_split c i p _ Sent Hi) as (l1 & l2 & Hw & _).
  rewrite Hw, count_split in Hlen. rewrite Hw, length_app. cbn in *.
  pose proof (length_filter (fun w => emitted w = true) l1).
  pose proof (length_filter (fun w => emitted w = true) l2).
  lia.
Qed.

(** As long as [scanPorts] has not returned, some goroutine can step: the
    semaphore and the channel never block everybody. *)
Lemma pool_progress (c : pool) :
  poolInv id tgt ports c -> completed c = false ->
  exists e c', step e c = Some c'.
Proof.
  intros Hinv Hnot.
  destruct (decide (Exists (fun w => running w = true) (workers c)))
    as [Hrun|Hrun].
  - apply Exists_worker in Hrun as (i & p & w & Hi & Hw).
    destruct w; try done.
    + exists (DialReturns i Connected). cbn [step]. rewrite Hi. eauto.
    + exists (Send i). cbn [step]. rewrite Hi.
      pose proof (channel_has_room _ _ _ _ Hinv Hi) as Hroom.
      apply Nat.ltb_lt in Hroom. rewrite Hroom. eauto.
    + exists (Release i). cbn [step]. rewrite Hi. eauto.
    + exists (Done i). cbn [step]. rewrite Hi. eauto.
  - apply not_Exists_false in Hrun.
    assert (Hsem : sem c = 0).
    { rewrite (inv_sem _ _ _ _ Hinv). unfold count.
      rewrite filter_none; [done|].
      eapply Forall_impl; [exact Hrun|]. intros [p []]; done. }
    destruct (decide (Exists (fun w => isWaiting w = true) (workers c)))
      as [Hwait|Hwait].
    + apply Exists_worker in Hwait as (i & p & w & Hi & Hw).
      destruct w; try done.
      exists (Acquire i). cbn [step]. rewrite Hi, Hsem. cbn. eauto.
    + apply not_Exists_false in Hwait.
      assert (Hwg : wg c = 0).
      { rewrite (inv_wg _ _ _ _ Hinv). unfold count.
        rewrite filter_none; [done|].
        apply Forall_forall. intros [p w] Hin.
        pose proof (proj1 (Forall_forall _ _) Hrun _ Hin).
        pose proof (proj1 (Forall_forall _ _) Hwait _ Hin).
        by destruct w. }
      unfold completed in Hnot.
      destruct (closed c) eqn:Hc.
      * destruct (results c) as [|r rest] eqn:Hr; [done|].
        exists Publish. cbn [step]. rewrite Hr. eauto.
      * exists CloseResults. cbn [step]. rewrite Hwg, Hc. cbn. eauto.
Qed.

(** From wherever the scan stands it can be run to its end. *)
Lemma can_complete (c : pool) :
  poolInv id tgt ports c ->
  exists es c', run es c = Some c' /\ completed c' = true.
Proof.
  remember (stepsLeft c) as n eqn:Hn. revert c Hn.
  induction (lt_wf n) as [n _ IH]. intros c -> Hinv.
  destruct (completed c) eqn:Hc.
  - by exists [], c.
  - destruct (pool_progress _ Hinv Hc) as (e & c1 & He).
    destruct (IH (stepsLeft c1) (step_stepsLeft _ _ _ He) c1 eq_refl
                (pool_step_inv _ _ _ Hinv He)) as (es & c' & Hrun & Hdone).
    exists (e :: es), c'. cbn [run]. by rewrite He.
Qed.

(** When [scanPorts] returns, there is one published result for each port
    of the list. *)
Lemma completed_results (c : pool) :
  poolInv id tgt ports c -> completed c = true ->
  ScanResult.Port <$> published c ≡ₚ ports
  /\ Forall (fun r => ScanResult.ID r = id /\ ScanResult.Target r = tgt)
       (published c).
Proof.
  intros Hinv [Hc Hr%bool_decide_eq_true]%andb_true_iff.
  pose proof (inv_chan _ _ _ _ Hinv) as Hchan.
  pose proof (inv_sent _ _ _ _ Hinv) as Hsent.
  rewrite Hr, app_nil_r in Hchan, Hsent. split; [|done].
  rewrite Hchan, <- (inv_ports _ _ _ _ Hinv). f_equiv.
  pose proof (inv_closed _ _ _ _ Hinv Hc) as Hwg.
  rewrite (inv_wg _ _ _ _ Hinv) in Hwg. unfold count in Hwg.
  clear -Hwg. induction (workers c) as [|[p w] l IH]; [done|].
  rewrite filter_cons in *. destruct w; cbn in Hwg |- *;
    repeat case_decide; try done; cbn in Hwg; try lia.
  f_equiv. by apply IH.
Qed.

End Invariant.

(** C5. At any moment of any scan, of more ports than [maxWorkers] too, at
    most [maxWorkers] = 10 connection attempts are in flight: a goroutine
    dials only between taking a slot of the semaphore and giving it back,
    so the attempts in flight are among the slots taken, the slots taken
    are never more than [maxWorkers], and while all are taken no goroutine
    gets one. *)
Theorem at_most_maxWorkers_dialing (id tgt : string) (ports : list Z)
    (es : list event) (c : pool) :
  run es (scanPorts id tgt ports) = Some c ->
  maxWorkers = 10
  /\ outstanding c <= sem c
  /\ sem c = count holdsSlot c
  /\ sem c <= maxWorkers
  /\ outstanding c <= maxWorkers
  /\ (sem c = maxWorkers -> forall i, step (Acquire i) c = None).
Proof.
  intros Hrun.
  pose proof (pool_run_inv _ _ _ _ _ _ (scanPorts_inv id tgt ports) Hrun) as Hinv.
  pose proof (outstanding_le_sem _ _ _ _ Hinv) as Hout.
  pose proof (inv_cap _ _ _ _ Hinv) as Hcap.
  split; [done|]. split; [done|]. split; [apply (inv_sem _ _ _ _ Hinv)|].
  split; [done|]. split; [lia|].
  intros Hfull i. cbn [step]. rewrite Hfull.
  by destruct (workers c !! i) as [[p []]|].
Qed.

(** Eleven ports: ten goroutines dial, the eleventh waits for a slot. *)
Lemma at_most_maxWorkers_dialing_witness :
  let ports := [1; 2; 3; 4; 5; 6; 7; 8; 9; 10; 11]%Z in
  let es := Acquire <$> seq 0 10 in
  exists c,
    run es (scanPorts "scan-1" "10.0.0.5" ports) = Some c
    /\ maxWorkers < length ports
    /\ outstanding c = maxWorkers
    /\ step (Acquire 10) c = None.
Proof.
  intros ports es.
  let v := eval vm_compute in (run es (scanPorts "scan-1" "10.0.0.5" ports)) in
  match v with
  | Some ?c =>
      assert (Hrun : run es (scanPorts "scan-1" "10.0.0.5" ports) = Some c)
        by (vm_compute; reflexivity);
      exists c
  end.
  split; [exact Hrun|]. split; [vm_compute; lia|].
  split; [vm_compute; reflexivity|].
  destruct (at_most_maxWorkers_dialing _ _ _ _ _ Hrun)
    as (_ & _ & _ & _ & _ & Hblocked).
  apply Hblocked. vm_compute. reflexivity.
Defined.

(** C8. A request with an empty port list is scanned over [topPorts], the
    fifteen default ports.  Every run of the scan is finite, it never
    blocks before [scanPorts] returns, it can always be run on to that
    point, and when [scanPorts] returns the published results are one for
    each port of [topPorts], fifteen results of this scan and target. *)
Theorem empty_port_list_scans_topPorts (req : ScanRequest.t) :
  ScanRequest.Ports req = [] ->
  let c0 := handleScanRequest req in
  c0 = scanPorts (ScanRequest.ID req) (ScanRequest.Target req) topPorts
  /\ length topPorts = 15
  /\ forall es c,
       run es c0 = Some c ->
       length es <= stepsLeft c0
       /\ (completed c = false -> exists e c', step e c = Some c')
       /\ (exists es' c', run es' c = Some c' /\ completed c' = true)
       /\ (completed c = true ->
           ScanResult.Port <$> published c ≡ₚ topPorts
           /\ length (published c) = 15
           /\ Forall (fun r => ScanResult.ID r = ScanRequest.ID req
                               /\ ScanResult.Target r = ScanRequest.Target req)
                (published c)).
Proof.
  intros Hempty. cbn zeta. unfold handleScanRequest. rewrite Hempty.
  cbn [length Nat.eqb]. split; [done|]. split; [done|].
  intros es c Hrun.
  pose proof (pool_run_inv _ _ _ _ _ _ (scanPorts_inv _ _ topPorts) Hrun) as Hinv.
  split; [pose proof (run_length _ _ _ Hrun); lia|].
  split; [by eapply pool_progress|]. split; [by eapply can_complete|].
  intros Hdone.
  destruct (completed_results _ _ _ _ Hinv Hdone) as [Hperm Hall].
  split; [done|]. split; [|done].
  apply Permutation_length in Hperm. by rewrite length_fmap in Hperm.
Qed.

(** A request without ports against a host where only ssh and http
    answer, the probes being run one after the other. *)
Lemma empty_port_list_scans_topPorts_witness :
  let req := ScanRequest.mk "scan-1" "10.0.0.5" [] in
  let refused := NotConnected (mkDialError true false "connection refused") in
  let conns := (fun p => if bool_decide (p ∈ [22; 80]%Z) then Connected
                         else refused) <$> topPorts in
  exists c,
    run (oneByOne conns) (handleScanRequest req) = Some c
    /\ completed c = true
    /\ ScanResult.Port <$> published c = topPorts
    /\ ScanResult.Port <$> filter (fun r => ScanResult.IsOpen r = true)
                             (published c) = [22; 80]%Z
    /\ ScanResult.Port <$> published c ≡ₚ topPorts.
Proof.
  intros req refused conns.
  let v := eval vm_compute in (run (oneByOne conns) (handleScanRequest req)) in
  match v with
  | Some ?c =>
      assert (Hrun : run (oneByOne conns) (handleScanRequest req) = Some c)
        by (vm_compute; reflexivity);
      exists c
  end.
  split; [exact Hrun|]. split; [vm_compute; reflexivity|].
  split; [vm_compute; reflexivity|]. split; [vm_compute; reflexivity|].
  destruct (empty_port_list_scans_topPorts req eq_refl) as (_ & _ & H).
  destruct (H _ _ Hrun) as (_ & _ & _ & Hdone).
  apply Hdone. vm_compute. reflexivity.
Defined.

End Pool.

Section Sequential.
Import Reporter models.

Lemma run_app (es1 es2 : list event) (c : config) :
  run (es1 ++ es2) c = run es1 c ≫= run es2.
Proof.
  revert c. induction es1 as [|e es1 IH]; intros c; cbn [run app]; [done|].
  destruct (step e c); [apply IH | done].
Qed.

(** The newest goroutine takes a step and goes on, or ends. *)
Lemma run_newest (st : state) (ts : list thread) (t : thread) :
  step (Run (length ts)) (mkConfig st (ts ++ [t]))
  = Some (mkConfig (fst (exec t st))
            (ts ++ from_option (fun t' => [t']) [] (snd (exec t st)))).
Proof.
  cbn [step threads mem]. rewrite list_lookup_middle by done.
  destruct (exec t st) as [st' [t'|]]; cbn [fst snd from_option].
  - rewrite insert_app_r_alt by done. by rewrite Nat.sub_diag.
  - replace (ts ++ [t]) with (ts ++ t :: []) by done.
    by rewrite delete_middle, app_nil_r.
Qed.

Lemma run_cons (e : event) (es : list event) (c : config) :
  run (e :: es) c = step e c ≫= run es.
Proof. cbn [run]. by destruct (step e c). Qed.





End Sequential.

Section Registry.
Import Reporter models.

(** C1, as stated, fails: twenty-one results of one scan arrive, the
    twentieth finalizes the aggregate, the twenty-first makes a new one,
    whose timer finalizes it thirty seconds later.  The scan has two
    reports, of twenty ports and of one. *)
Lemma two_reports_for_one_scan :
  let result := portResult "scan-1" 80 "closed" in
  let first20 := mjoin (replicate 19 (handled result 0))
                 ++ handled result 0 ++ [Run 0%nat] in
  let late := handled result 0 in
  let timeout := [Tick resultTimeout; TimerFires 1; Run 0%nat; Run 0%nat] in
  statisticsAfter "scan-1" (first20 ++ late ++ timeout)
  = Some [ScanStatistics.mk 20 0 20; ScanStatistics.mk 1 0 1].
Proof. vm_compute. reflexivity. Qed.

Lemma scanIDs_update (p : nat) (f : ScanAggregator -> ScanAggregator)
    (st : state) :
  (forall a, scanID (f a) = scanID a) ->
  scanIDs (update p f st) = scanIDs st.
Proof.
  intros Hf. unfold update, scanIDs.
  destruct (heap st !! p) as [a|] eqn:Hp; [|done]. cbn.
  rewrite list_fmap_insert. apply list_insert_id.
  rewrite list_lookup_fmap, Hp. cbn. by rewrite Hf.
Qed.

Lemma update_fields (p : nat) (f : ScanAggregator -> ScanAggregator)
    (st : state) :
  scanAggregators (update p f st) = scanAggregators st
  /\ produced (update p f st) = produced st
  /\ now (update p f st) = now st.
Proof. unfold update. by destruct (heap st !! p). Qed.

(** A goroutine is one element of the list of goroutines. *)
Lemma threads_split (ts : list thread) (i : nat) (t : thread) :
  ts !! i = Some t ->
  exists l1 l2,
    ts = l1 ++ t :: l2
    /\ (forall t', <[i := t']> ts = l1 ++ t' :: l2)
    /\ delete i ts = l1 ++ l2.
Proof.
  intros H. exists (take i ts), (drop (S i) ts).
  split; [symmetry; by apply take_drop_middle|]. split.
  - intros t'. apply insert_take_drop. by eapply lookup_lt_Some.
  - apply delete_take_drop.
Qed.

Lemma timers_update (p : nat) (f : ScanAggregator -> ScanAggregator)
    (st : state) :
  (forall a, timer (f a) = timer a) ->
  timers (update p f st) = timers st.
Proof.
  intros Hf. unfold update, timers.
  destruct (heap st !! p) as [a|] eqn:Hp; [|done]. cbn.
  rewrite list_fmap_insert. apply list_insert_id.
  rewrite list_lookup_fmap, Hp. cbn. by rewrite Hf.
Qed.

Lemma timers_update_ne (p q : nat) (f : ScanAggregator -> ScanAggregator)
    (st : state) :
  p <> q -> timers (update p f st) !! q = timers st !! q.
Proof.
  intros Hne. unfold update, timers.
  destruct (heap st !! p) as [a|] eqn:Hp; [|done]. cbn.
  by rewrite list_fmap_insert, list_lookup_insert_ne.
Qed.

(** Goroutines other than the one that steps stay where they are. *)
Lemma elem_of_replace (l1 l2 : list thread) (t t' x : thread) :
  x <> t -> x ∈ l1 ++ t :: l2 -> x ∈ l1 ++ t' :: l2.
Proof. rewrite !elem_of_app, !elem_of_cons. intros ? [?|[?|?]]; auto. done. Qed.

Lemma elem_of_remove (l1 l2 : list thread) (t x : thread) :
  x <> t -> x ∈ l1 ++ t :: l2 -> x ∈ l1 ++ l2.
Proof. rewrite !elem_of_app, !elem_of_cons. intros ? [?|[?|?]]; auto. done. Qed.

Lemma start_inv : agentInv start.
Proof.
  split; cbn; try done.
  - apply NoDup_nil_2.
  - intros p Hp. by apply elem_of_nil in Hp.
  - intros p report Hp. by apply elem_of_nil in Hp.
Qed.

(** Steps that change neither the registry, nor the reports, nor the
    scan ids, nor what the goroutines have claimed. *)
Lemma inv_frame (c : config) (st' : state) (ts' : list thread) :
  agentInv c ->
  scanAggregators st' = scanAggregators (mem c) ->
  produced st' = produced (mem c) ->
  scanIDs st' = scanIDs (mem c) ->
  flat_map claimedBy ts' = flat_map claimedBy (threads c) ->
  (forall id p, scanAggregators (mem c) !! id = Some p ->
                pending c id p -> pending (mkConfig st' ts') id p) ->
  agentInv (mkConfig st' ts').
Proof.
  intros [Hreg Hnodup Hgone Hmade Hprod Hpend] Hm Hp Hs Ht Hpend'.
  split; unfold claimed in *; cbn [mem threads]; rewrite ?Hm, ?Hp, ?Hs, ?Ht;
    try done.
  intros id p Hidp. apply Hpend'; [done|]. by apply Hpend.
Qed.

(** The first result of a scan makes an aggregator. *)
Lemma inv_create (c : config) (id : string) (a : ScanAggregator)
    (nw : Z) (t : thread) :
  agentInv c ->
  scanAggregators (mem c) !! id = None ->
  scanID a = id ->
  timer a = Armed ->
  claimedBy t = [] ->
  agentInv
    (mkConfig
       (mkState (<[id := length (heap (mem c))]> (scanAggregators (mem c)))
          (heap (mem c) ++ [a]) (produced (mem c)) nw)
       (threads c ++ [t])).
Proof.
  intros [Hreg Hnodup Hgone Hmade Hprod Hpend] Hnone Ha Htm Ht.
  assert (Hlen : length (scanIDs (mem c)) = length (heap (mem c)))
    by apply length_fmap.
  assert (Hclaims : flat_map claimedBy (threads c ++ [t])
                    = flat_map claimedBy (threads c)).
  { rewrite flat_map_app. cbn. by rewrite Ht, !app_nil_r. }
  split; unfold claimed, scanIDs, pending, timers in *;
    cbn [mem threads scanAggregators heap produced];
    rewrite ?Hclaims, ?fmap_app; cbn [fmap list_fmap].
  - intros id' p [[<- <-]|[Hne Hp]]%lookup_insert_Some.
    + rewrite <- Hlen. rewrite list_lookup_middle; [by rewrite Ha | done].
    + apply lookup_app_l_Some. by apply Hreg.
  - done.
  - intros id' p [[<- <-]|[Hne Hp]]%lookup_insert_Some.
    + intros Hin%Hmade. lia.
    + by eapply Hgone.
  - intros p Hp%Hmade. rewrite length_app. cbn. lia.
  - intros p report Hp%Hprod. by apply lookup_app_l_Some.
  - intros id' p [[<- <-]|[Hne Hp]]%lookup_insert_Some.
    + left. rewrite list_lookup_middle; [by rewrite Htm|].
      by rewrite length_fmap.
    + destruct (Hpend _ _ Hp) as [Harmed|Hcb].
      * left. by apply lookup_app_l_Some.
      * right. apply elem_of_app. by left.
Qed.

(** A critical section that finds the entry takes it out of the registry
    and leaves the aggregator to the goroutine, and to no other. *)
Lemma inv_claim (c : config) (id : string) (q : nat) (st' : state)
    (l1 l2 : list thread) (t : thread) :
  agentInv c ->
  scanAggregators (mem c) !! id = Some q ->
  scanAggregators st' = delete id (scanAggregators (mem c)) ->
  produced st' = produced (mem c) ->
  scanIDs st' = scanIDs (mem c) ->
  (forall p, p <> q -> timers st' !! p = timers (mem c) !! p) ->
  threads c = l1 ++ t :: l2 ->
  claimedBy t = [] ->
  (forall id', t = AtCallback id' -> id' = id) ->
  agentInv (mkConfig st' (l1 ++ AtGenerate q :: l2)).
Proof.
  intros [Hreg Hnodup Hgone Hmade Hprod Hpend] Hq Hm Hp Hs Htm Ht Hnil Hcb.
  assert (Hperm : claimed (mkConfig st' (l1 ++ AtGenerate q :: l2))
                  ≡ₚ q :: claimed c).
  { unfold claimed. cbn [mem threads]. rewrite Hp, Ht, !flat_map_app.
    cbn [flat_map claimedBy]. rewrite Hnil. cbn [app].
    by rewrite !Permutation_middle. }
  assert (Hother : forall id' p, id <> id' ->
            scanAggregators (mem c) !! id' = Some p -> p <> q).
  { intros id' p Hne Hp' ->. apply Hreg in Hq, Hp'. congruence. }
  split; cbn [mem threads]; rewrite ?Hm, ?Hs, ?Hp; try done.
  - intros id' p [Hne Hp']%lookup_delete_Some. by apply Hreg.
  - rewrite Hperm. apply NoDup_cons. split; [by eapply Hgone | done].
  - intros id' p [Hne Hp']%lookup_delete_Some. rewrite Hperm.
    intros [->|Hin]%elem_of_cons; [|by eapply Hgone].
    by eapply Hother.
  - intros p. rewrite Hperm. intros [->|Hin]%elem_of_cons; [|by apply Hmade].
    apply Hreg in Hq. by eapply lookup_lt_Some.
  - intros id' p [Hne Hp']%lookup_delete_Some.
    destruct (Hpend _ _ Hp') as [Harmed|Hin]; unfold pending; cbn [mem threads].
    + left. rewrite Htm; [done|]. by eapply Hother.
    + right. rewrite Ht in Hin. eapply elem_of_replace; [|exact Hin].
      intros <-. by specialize (Hcb _ eq_refl).
Qed.

(** The goroutine that took an aggregator out reports it. *)
Lemma inv_generate (c : config) (q : nat) (l1 l2 : list thread) :
  agentInv c ->
  threads c = l1 ++ AtGenerate q :: l2 ->
  agentInv (mkConfig (generateReport q (mem c)) (l1 ++ l2)).
Proof.
  intros [Hreg Hnodup Hgone Hmade Hprod Hpend] Ht.
  assert (Hq : q ∈ claimed c).
  { unfold claimed. rewrite Ht, flat_map_app. cbn.
    rewrite !elem_of_app, elem_of_cons. auto. }
  assert (Hpend' : forall st', timers st' = timers (mem c) ->
            forall id p, scanAggregators (mem c) !! id = Some p ->
                         pending (mkConfig st' (l1 ++ l2)) id p).
  { intros st' Htm id p Hp.
    destruct (Hpend _ _ Hp) as [Harmed|Hin]; unfold pending; cbn [mem threads].
    - left. by rewrite Htm.
    - right. rewrite Ht in Hin. eapply elem_of_remove; [|exact Hin]. done. }
  unfold generateReport.
  destruct (heap (mem c) !! q) as [a|] eqn:Ha.
  - assert (Hperm :
      claimed (mkConfig
                 (mkState (scanAggregators (mem c)) (heap (mem c))
                    (produced (mem c) ++ [(q, buildReport (now (mem c)) a)])
                    (now (mem c))) (l1 ++ l2)) ≡ₚ claimed c).
    { unfold claimed. cbn [mem threads produced].
      rewrite Ht, !flat_map_app, fmap_app. cbn.
      rewrite <- !app_assoc. cbn. by rewrite !Permutation_middle. }
    split.
    + intros id p Hp. exact (Hreg _ _ Hp).
    + by rewrite Hperm.
    + intros id p Hp. rewrite Hperm. exact (Hgone _ _ Hp).
    + intros p. rewrite Hperm. intros Hp. exact (Hmade _ Hp).
    + cbn [mem produced]. intros p report [Hin|Hin]%elem_of_app.
      * exact (Hprod _ _ Hin).
      * apply list_elem_of_singleton in Hin as [= -> ->].
        unfold scanIDs. cbn. by rewrite list_lookup_fmap, Ha.
    + intros id p Hp. exact (Hpend' _ eq_refl _ _ Hp).
  - apply Hmade in Hq. unfold scanIDs in Hq. rewrite length_fmap in Hq.
    apply lookup_lt_is_Some in Hq. rewrite Ha in Hq. by destruct Hq.
Qed.

Lemma claims_snoc (ts : list thread) (t : thread) :
  claimedBy t = [] ->
  flat_map claimedBy (ts ++ [t]) = flat_map claimedBy ts.
Proof.
  intros Ht. rewrite flat_map_app. cbn. by rewrite Ht, !app_nil_r.
Qed.

Lemma claims_replace (l1 l2 : list thread) (t t' : thread) :
  claimedBy t = [] -> claimedBy t' = [] ->
  flat_map claimedBy (l1 ++ t' :: l2) = flat_map claimedBy (l1 ++ t :: l2).
Proof. intros Ht Ht'. rewrite !flat_map_app. cbn. by rewrite Ht, Ht'. Qed.

Lemma claims_remove (l1 l2 : list thread) (t : thread) :
  claimedBy t = [] ->
  flat_map claimedBy (l1 ++ l2) = flat_map claimedBy (l1 ++ t :: l2).
Proof. intros Ht. rewrite !flat_map_app. cbn. by rewrite Ht. Qed.

(** What is pending stays pending when the timers keep their state and the
    callbacks stay. *)
Lemma pending_kept (c : config) (st' : state) (ts' : list thread)
    (id : string) (p : nat) :
  timers st' = timers (mem c) ->
  (AtCallback id ∈ threads c -> AtCallback id ∈ ts') ->
  pending c id p -> pending (mkConfig st' ts') id p.
Proof.
  intros Htm Hts [Harmed|Hin]; unfold pending; cbn [mem threads].
  - left. by rewrite Htm.
  - right. by apply Hts.
Qed.

#[local] Ltac frame c :=
  apply (inv_frame c);
  [ assumption
  | cbn [mem threads];
    try (rewrite ?(proj1 (update_fields _ _ _)); reflexivity)
  | cbn [mem threads];
    try (rewrite ?(proj1 (proj2 (update_fields _ _ _))); reflexivity)
  | cbn [mem threads];
    try (rewrite ?scanIDs_update by reflexivity; reflexivity)
  | cbn [mem threads]
  | intros ? ? ?; apply pending_kept;
    [ try (rewrite ?timers_update by reflexivity; reflexivity) | ] ].

(** Every step keeps the invariant. *)
Lemma agent_step_inv (e : event) (c c' : config) :
  agentInv c -> step e c = Some c' -> agentInv c'.
Proof.
  intros Hinv. destruct e as [d|result|service|p|i]; cbn [step].
  - destruct (0 <=? d); [|done]. intros [= <-]. by frame c.
  - unfold lookupOrCreate.
    destruct (scanAggregators (mem c) !! ScanResult.ScanID result)
      as [p|] eqn:Hp; intros [= <-].
    + frame c; [by apply claims_snoc|].
      intros Hin. apply elem_of_app. by left.
    + by apply (inv_create c).
  - destruct (scanAggregators (mem c) !! ServiceInfo.ScanID service);
      intros [= <-]; [|done].
    frame c; [by apply claims_snoc|].
    intros Hin. apply elem_of_app. by left.
  - unfold fireTimer. destruct (heap (mem c) !! p) as [a|] eqn:Ha; [|done].
    destruct (timer a); try done.
    destruct (_ <=? _); [|done]. intros [= <-].
    apply (inv_frame c); [assumption|..]; cbn [mem threads].
    + by rewrite (proj1 (update_fields _ _ _)).
    + by rewrite (proj1 (proj2 (update_fields _ _ _))).
    + by rewrite scanIDs_update.
    + by apply claims_snoc.
    + intros id q Hq Hpend. unfold pending. cbn [mem threads].
      destruct (decide (p = q)) as [<-|Hne].
      * right. apply elem_of_app. right. apply list_elem_of_singleton.
        pose proof (inv_registry _ Hinv _ _ Hq) as Hid.
        unfold scanIDs in Hid. rewrite list_lookup_fmap, Ha in Hid.
        by injection Hid as ->.
      * destruct Hpend as [Harmed|Hin].
        -- left. by rewrite timers_update_ne.
        -- right. apply elem_of_app. by left.
  - destruct (threads c !! i) as [t|] eqn:Hi; [|done].
    destruct (threads_split _ _ _ Hi) as (l1 & l2 & Hts & Hins & Hdel).
    destruct t as [result p|result count|q|id|service p]; cbn [exec].
    + unfold addResult. intros [= <-]. rewrite Hins.
      frame c; rewrite Hts; [by apply claims_replace|].
      by apply elem_of_replace.
    + destruct (maxResultsWait <=? count).
      * unfold claimOnThreshold.
        destruct (scanAggregators (mem c) !! ScanResult.ScanID result)
          as [q|] eqn:Hq; intros [= <-].
        -- rewrite Hins. eapply (inv_claim c); try done;
             unfold setAggregators; cbn [scanAggregators produced];
             rewrite ?(proj1 (proj2 (update_fields _ _ _))); try done.
           ++ unfold scanIDs at 1. cbn [heap]. by apply scanIDs_update.
           ++ intros p Hne. unfold timers at 1. cbn [heap].
              by apply timers_update_ne.
        -- rewrite Hdel. frame c; rewrite Hts; [by eapply claims_remove|].
           by apply elem_of_remove.
      * intros [= <-]. rewrite Hdel.
        frame c; rewrite Hts; [by eapply claims_remove|].
        by apply elem_of_remove.
    + intros [= <-]. rewrite Hdel. by apply (inv_generate c).
    + unfold claimOnTimer.
      destruct (scanAggregators (mem c) !! id) as [q|] eqn:Hq; intros [= <-].
      * rewrite Hins. eapply (inv_claim c); try done.
        by intros id' [= ->].
      * rewrite Hdel. apply (inv_frame c); try done; cbn [mem threads].
        -- rewrite Hts. by eapply claims_remove.
        -- intros id' p Hp. apply pending_kept; [done|]. rewrite Hts.
           apply elem_of_remove. intros [= ->]. congruence.
    + intros [= <-]. rewrite Hdel.
      frame c; rewrite Hts; [by eapply claims_remove|].
      by apply elem_of_remove.
Qed.

Lemma agent_run_inv (es : list event) (c c' : config) :
  agentInv c -> run es c = Some c' -> agentInv c'.
Proof.
  revert c. induction es as [|e es IH]; intros c Hinv; cbn [run].
  - by intros [= <-].
  - destruct (step e c) as [c1|] eqn:He; [|done].
    apply IH. by eapply agent_step_inv.
Qed.

Lemma claimed_produced (c : config) (p : nat) :
  p ∈ fst <$> produced (mem c) -> p ∈ claimed c.
Proof. intros H. unfold claimed. apply elem_of_app. by left. Qed.

Lemma claimed_generating (c : config) (p : nat) :
  AtGenerate p ∈ threads c -> p ∈ claimed c.
Proof.
  intros H. unfold claimed. apply elem_of_app. right.
  apply list_elem_of_In, in_flat_map. exists (AtGenerate p).
  split; [by apply list_elem_of_In | by left].
Qed.

(** An aggregator that is in the registry can still be finalized: its
    timer fires and the callback runs, or the callback that is waiting
    runs. *)
Lemma can_finalize (c : config) (id : string) (p : nat) :
  agentInv c ->
  scanAggregators (mem c) !! id = Some p ->
  exists es c',
    run es c = Some c' /\ p ∈ fst <$> produced (mem c')
    /\ scanAggregators (mem c') !! id = None.
Proof.
  intros Hinv Hp. destruct c as [st ts]. cbn [mem] in Hp.
  pose proof (inv_registry _ Hinv _ _ Hp) as Hid.
  unfold scanIDs in Hid. cbn [mem] in Hid.
  rewrite list_lookup_fmap in Hid.
  destruct (heap st !! p) as [a|] eqn:Ha; [|done].
  injection Hid as Hid.
  destruct (inv_pending _ Hinv _ _ Hp) as [Harmed|Hin].
  - unfold timers in Harmed. cbn [mem] in Harmed.
    rewrite list_lookup_fmap, Ha in Harmed. injection Harmed as Harmed.
    set (d := Z.max 0 (startTime a + resultTimeout - now st)).
    set (n := length ts).
    set (fired := update p (fun a =>
                    mkScanAggregator (scanID a) (target a) (results a)
                      (services a) (startTime a) Fired (resultCount a))
                    (tick d st)).
    assert (Hfire : fireTimer p (tick d st) = Some (id, fired)).
    { unfold fireTimer, tick. cbn [heap now]. rewrite Ha, Harmed, Hid.
      destruct (Z.leb_spec (startTime a + resultTimeout) (now st + d));
        [done|lia]. }
    assert (Hreg : scanAggregators fired !! id = Some p).
    { subst fired. by rewrite (proj1 (update_fields _ _ _)). }
    assert (Hheap : is_Some (heap (setAggregators
                      (delete id (scanAggregators fired)) fired) !! p)).
    { cbn [setAggregators heap]. apply lookup_lt_is_Some. subst fired.
      unfold update, tick. cbn [heap]. rewrite Ha. cbn [setHeap heap].
      rewrite length_insert. by eapply lookup_lt_Some. }
    destruct Hheap as [a' Ha'].
    eexists [Tick d; TimerFires p; Run n; Run n], _.
    rewrite run_cons. cbn [step mem threads].
    replace (0 <=? d) with true by (symmetry; apply Z.leb_le; lia).
    cbn [mbind option_bind]. rewrite run_cons. cbn [step mem threads].
    rewrite Hfire. cbn [mbind option_bind]. subst n.
    rewrite run_cons, run_newest. cbn [exec]. unfold claimOnTimer.
    rewrite Hreg. cbn [fst snd from_option mbind option_bind].
    rewrite run_cons, run_newest. cbn [exec fst snd from_option].
    unfold generateReport. rewrite Ha'.
    cbn [mbind option_bind run mem produced scanAggregators].
    split; [reflexivity|]. cbn [mem produced scanAggregators setAggregators].
    split.
    + rewrite fmap_app. apply elem_of_app. right. by left.
    + apply lookup_delete_eq.
  - cbn [threads] in Hin. apply list_elem_of_lookup in Hin as [i Hi].
    destruct (threads_split _ _ _ Hi) as (l1 & l2 & Hts & Hins & Hdel).
    eexists [Run i; Run i], _.
    rewrite run_cons. cbn [step mem threads exec]. rewrite Hi.
    cbn [exec]. unfold claimOnTimer. rewrite Hp.
    cbn [mbind option_bind]. rewrite run_cons. cbn [step mem threads].
    rewrite list_lookup_insert_eq by (by eapply lookup_lt_Some).
    cbn [exec]. unfold generateReport. cbn [setAggregators heap].
    rewrite Ha. cbn [mbind option_bind run mem produced scanAggregators].
    split; [reflexivity|]. cbn [mem produced scanAggregators setAggregators].
    split.
    + rewrite fmap_app. apply elem_of_app. right. by left.
    + apply lookup_delete_eq.
Qed.

End Registry.


Section Triggers.
Import Reporter models.










End Triggers.

Section ReportContents.
Import Reporter models.

Lemma open_closed_le (rs : list ScanResult.t) :
  (length (filter isOpen rs) + length (filter isClosed rs) <= length rs)%nat
  /\ ((length (filter isOpen rs) + length (filter isClosed rs))%nat
      = length rs
      <-> Forall (fun r => isOpen r \/ isClosed r) rs).
Proof.
  induction rs as [|r rs [IHle IHeq]]; [by split|].
  rewrite !filter_cons, Forall_cons. unfold isOpen, isClosed in *.
  destruct (decide (ScanResult.State r = "open")) as [Ho|Ho];
    destruct (decide (ScanResult.State r = "closed")) as [Hc|Hc];
    cbn [length]; try congruence.
  - split; [lia|]. rewrite <- IHeq. split; [intros; split; [by left|lia]|].
    intros [_ ?]. lia.
  - split; [lia|]. rewrite <- IHeq. split; [intros; split; [by right|lia]|].
    intros [_ ?]. lia.
  - split; [lia|]. split; [lia|]. intros [[?|?] _]; done.
Qed.

(** X1. The statistics of a report: the total is the number of results
    received, the closed count the number of results whose state is closed;
    a result whose state is neither open nor closed (a filtered one) is in
    the total only, so open and closed add up to the total exactly when
    every result is open or closed. *)
Theorem report_totals (now : Z) (aggregator : ScanAggregator) :
  let s := Statistics (buildReport now aggregator) in
  ScanStatistics.TotalPorts s = Z.of_nat (length (results aggregator))
  /\ ScanStatistics.ClosedPorts s
     = Z.of_nat (length (filter isClosed (results aggregator)))
  /\ 0 <= ScanStatistics.OpenPorts s
  /\ ScanStatistics.OpenPorts s + ScanStatistics.ClosedPorts s
     <= ScanStatistics.TotalPorts s
  /\ (ScanStatistics.OpenPorts s + ScanStatistics.ClosedPorts s
      = ScanStatistics.TotalPorts s
      <-> Forall (fun r => isOpen r \/ isClosed r) (results aggregator)).
Proof.
  cbn. unfold countResults.
  destruct (countResults_from (buildServiceMap (services aggregator))
              (results aggregator) (mkCounting [] 0 0)) as (_ & Ho & Hc).
  cbn in Ho, Hc. rewrite Ho, Hc.
  destruct (open_closed_le (results aggregator)) as [Hle Heq].
  split; [done|]. split; [done|]. split; [lia|]. split; [lia|].
  rewrite <- Heq. lia.
Qed.

(** The map built from the service records gives, for a port, the record
    received last for it. *)
Lemma buildServiceMap_last (ss : list ServiceInfo.t) (port : Z) :
  buildServiceMap ss !! port
  = last (filter (fun s => ServiceInfo.Port s = port) ss).
Proof.
  unfold buildServiceMap.
  induction ss as [|s ss IH] using rev_ind; [done|].
  rewrite foldl_app, filter_app. cbn [foldl]. rewrite filter_cons, filter_nil.
  destruct (decide (ServiceInfo.Port s = port)) as [<-|Hne].
  - by rewrite lookup_insert_eq, last_snoc.
  - rewrite lookup_insert_ne by done. by rewrite app_nil_r.
Qed.

(** X2. The entry of an open port in a report carries the service name and
    the version of the service record received last for that port, and
    empty ones when no record was received for it. *)
Theorem open_port_latest_service (now : Z) (aggregator : ScanAggregator) :
  OpenPorts (buildReport now aggregator)
  = (fun r =>
       match last (filter (fun s => ServiceInfo.Port s = ScanResult.Port r)
                     (services aggregator)) with
       | Some s =>
           mkOpenPortInfo (ScanResult.Port r) (ServiceInfo.ServiceName s)
             (ServiceInfo.Version s)
       | None => mkOpenPortInfo (ScanResult.Port r) "" ""
       end) <$> filter isOpen (results aggregator).
Proof.
  cbn. unfold countResults.
  destruct (countResults_from (buildServiceMap (services aggregator))
              (results aggregator) (mkCounting [] 0 0)) as (Hp & _ & _).
  cbn in Hp. rewrite Hp. apply list_fmap_ext. intros _ r _.
  unfold portInfoOf. by rewrite buildServiceMap_last.
Qed.

(** X3. A service record of a scan whose aggregate is in the registry is
    appended to that aggregate and to nothing else, and a report built from
    the aggregate afterwards lists every open port of the record's port with
    the record's service name and version. *)
Theorem service_record_attached (service : ServiceInfo.t) (st : state)
    (p : nat) (a : ScanAggregator) :
  scanAggregators st !! ServiceInfo.ScanID service = Some p ->
  heap st !! p = Some a ->
  let st' := handleServiceDetected service st in
  scanAggregators st' = scanAggregators st
  /\ produced st' = produced st
  /\ heap st' = <[p := appendService service a]> (heap st)
  /\ forall now r,
       r ∈ results a -> isOpen r ->
       ScanResult.Port r = ServiceInfo.Port service ->
       mkOpenPortInfo (ScanResult.Port r) (ServiceInfo.ServiceName service)
         (ServiceInfo.Version service)
       ∈ OpenPorts (buildReport now (appendService service a)).
Proof.
  intros Hp Ha. cbn zeta. unfold handleServiceDetected. rewrite Hp.
  unfold update. rewrite Ha. cbn [scanAggregators produced heap setHeap].
  do 3 (split; [done|]). intros n r Hr Ho Hport.
  rewrite open_port_latest_service. cbn [results services appendService].
  apply list_elem_of_fmap. exists r. split.
  - rewrite filter_app, filter_cons, filter_nil.
    rewrite decide_True by done. by rewrite last_snoc.
  - by apply list_elem_of_filter.
Qed.

Lemma service_record_attached_witness :
  let service := ServiceInfo.mk "" "s" "10.0.0.5" 22 "SSH" "8.9" "" in
  let r := portResult "s" 22 "open" in
  let st := handleScanResult r initial in
  mkOpenPortInfo 22 "SSH" "8.9"
  ∈ OpenPorts (buildReport 5 (appendService service
       (mkScanAggregator "s" "10.0.0.5" [r] [] 0 Armed 1))).
Proof.
  intros service r st.
  refine (proj2 (proj2 (proj2
    (service_record_attached service st 0%nat
       (mkScanAggregator "s" "10.0.0.5" [r] [] 0 Armed 1) _ _))) 5 r _ _ _).
  - vm_compute. reflexivity.
  - vm_compute. reflexivity.
  - apply list_elem_of_singleton. reflexivity.
  - reflexivity.
  - reflexivity.
Defined.

End ReportContents.

Section Isolation.
Import Reporter models.

Lemma update_heap_ne (p q : nat) (f : ScanAggregator -> ScanAggregator)
    (st : state) :
  p <> q -> heap (update p f st) !! q = heap st !! q.
Proof.
  intros Hne. unfold update. destruct (heap st !! p); [|done].
  cbn. by rewrite list_lookup_insert_ne.
Qed.

Lemma generateReport_fields (p : nat) (st : state) :
  scanAggregators (generateReport p st) = scanAggregators st
  /\ heap (generateReport p st) = heap st
  /\ now (generateReport p st) = now st.
Proof. unfold generateReport. by destruct (heap st !! p). Qed.

(** X4. Scans are kept apart: while the agent handles a result of one scan,
    the registry entry and the aggregate of every other scan stay as they
    are, whether or not the result finalizes its own scan. *)
Theorem other_scans_untouched (es : list event) (c : config)
    (result : ScanResult.t) (id' : string) (q : nat) (a : ScanAggregator) :
  run es start = Some c ->
  id' <> ScanResult.ScanID result ->
  scanAggregators (mem c) !! id' = Some q ->
  heap (mem c) !! q = Some a ->
  let st' := handleScanResult result (mem c) in
  scanAggregators st' !! id' = Some q /\ heap st' !! q = Some a.
Proof.
  intros Hrun Hne Hq Ha. cbn zeta.
  pose proof (agent_run_inv _ _ _ start_inv Hrun) as Hinv.
  destruct c as [st ts]. cbn [mem] in *.
  unfold handleScanResult.
  destruct (lookupOrCreate result st) as [p st1] eqn:H1.
  assert (Hpq : p <> q /\ scanAggregators st1 !! id' = Some q
                /\ heap st1 !! q = Some a
                /\ scanAggregators st1 !! ScanResult.ScanID result = Some p).
  { unfold lookupOrCreate in H1.
    destruct (scanAggregators st !! ScanResult.ScanID result) as [p'|] eqn:Hp.
    - injection H1 as <- <-. repeat split; try done.
      intros ->. pose proof (inv_registry _ Hinv _ _ Hp) as E1.
      pose proof (inv_registry _ Hinv _ _ Hq) as E2. cbn [mem] in E1, E2.
      congruence.
    - injection H1 as <- <-. cbn [scanAggregators heap].
      apply lookup_lt_Some in Ha as Hlt. repeat split.
      + lia.
      + by rewrite lookup_insert_ne.
      + by rewrite lookup_app_l.
      + by rewrite lookup_insert_eq. }
  destruct Hpq as (Hpq & Hq1 & Ha1 & Hp1).
  unfold addResult.
  set (st2 := update p (appendResult result) st1).
  assert (Hq2 : scanAggregators st2 !! id' = Some q).
  { unfold st2. by rewrite (proj1 (update_fields _ _ _)). }
  assert (Ha2 : heap st2 !! q = Some a).
  { unfold st2. by rewrite update_heap_ne. }
  assert (Hp2 : scanAggregators st2 !! ScanResult.ScanID result = Some p).
  { unfold st2. by rewrite (proj1 (update_fields _ _ _)). }
  destruct (maxResultsWait <=? _); [|done].
  unfold claimOnThreshold. rewrite Hp2.
  match goal with
  | |- context [generateReport p ?s] =>
      destruct (generateReport_fields p s) as (E1 & E2 & _);
      change (scanAggregators (generateReport p s) !! id' = Some q
              /\ heap (generateReport p s) !! q = Some a);
      rewrite E1, E2
  end.
  cbn [scanAggregators heap setAggregators].
  rewrite lookup_delete_ne by done.
  by rewrite update_heap_ne.
Qed.

Lemma other_scans_untouched_witness :
  exists c a,
    run (handled (portResult "a" 22 "open") 0) start = Some c
    /\ scanAggregators
         (handleScanResult (portResult "b" 80 "open") (mem c)) !! "a"
       = Some 0%nat
    /\ heap (handleScanResult (portResult "b" 80 "open") (mem c)) !! 0%nat
       = Some a.
Proof.
  let v := eval vm_compute in
             (run (handled (portResult "a" 22 "open") 0) start) in
  match v with
  | Some ?c =>
      assert (Hrun : run (handled (portResult "a" 22 "open") 0) start
                     = Some c) by (vm_compute; reflexivity);
      let w := eval vm_compute in (heap (mem c) !! 0%nat) in
      match w with
      | Some ?a =>
          assert (Ha : heap (mem c) !! 0%nat = Some a)
            by (vm_compute; reflexivity);
          exists c, a
      end
  end.
  split; [exact Hrun|].
  apply (other_scans_untouched _ _ (portResult "b" 80 "open") "a" 0%nat _
           Hrun).
  - vm_compute. discriminate.
  - vm_compute. reflexivity.
  - exact Ha.
Defined.

End Isolation.

Section Shutdown.
Import Reporter models.

Lemma reportsOf_snoc (p q : nat) (report : Report) (st st' : state) :
  produced st' = produced st ++ [(q, report)] ->
  reportsOf p st'
  = reportsOf p st ++ (if decide (q = p) then [(q, report)] else []).
Proof.
  intros H. unfold reportsOf. rewrite H, filter_app, filter_cons, filter_nil.
  cbn [fst]. by destruct (decide (q = p)).
Qed.

Lemma reportsOf_none (p : nat) (st : state) :
  (forall report, (p, report) ∉ produced st) -> reportsOf p st = [].
Proof.
  unfold reportsOf. induction (produced st) as [|[q r] l IH]; intros H.
  - done.
  - rewrite filter_cons. cbn [fst]. destruct (decide (q = p)) as [->|Hne].
    + destruct (H r). apply elem_of_cons. by left.
    + apply IH. intros r' Hr'. apply (H r'). apply elem_of_cons. by right.
Qed.

Lemma reportsOf_generate_ne (p q : nat) (st : state) :
  q <> p -> reportsOf p (generateReport q st) = reportsOf p st.
Proof.
  intros Hne. unfold generateReport. destruct (heap st !! q); [|done].
  erewrite reportsOf_snoc by reflexivity.
  rewrite decide_False by done. apply app_nil_r.
Qed.

Lemma reportsOf_update (p q : nat) (f : ScanAggregator -> ScanAggregator)
    (st : state) :
  reportsOf p (update q f st) = reportsOf p st.
Proof.
  unfold reportsOf. by rewrite (proj1 (proj2 (update_fields _ _ _))).
Qed.

Lemma timers_generate (q : nat) (st : state) :
  timers (generateReport q st) = timers st.
Proof.
  unfold timers. by rewrite (proj1 (proj2 (generateReport_fields _ _))).
Qed.

Lemma scanIDs_generate (q : nat) (st : state) :
  scanIDs (generateReport q st) = scanIDs st.
Proof.
  unfold scanIDs. by rewrite (proj1 (proj2 (generateReport_fields _ _))).
Qed.

Section Pass.
Variables (c : config) (order : list (string * nat)).
Hypothesis order_ids :
  forall e, e ∈ order -> scanIDs (mem c) !! snd e = Some (fst e).
Hypothesis order_distinct : NoDup (snd <$> order).

(** A step that leaves the registry, the scan ids and the reports alone,
    starts no report and arms no timer. *)
Lemma pass_frame (s : shuttingDown) (st' : state) (ts' : list thread) :
  passInv c order s ->
  scanAggregators st' = scanAggregators (mem (agent s)) ->
  scanIDs st' = scanIDs (mem (agent s)) ->
  (forall x, AtGenerate x ∈ ts' -> AtGenerate x ∈ threads (agent s)) ->
  (forall p, timers (mem (agent s)) !! p <> Some Armed ->
             timers st' !! p <> Some Armed) ->
  (forall e, e ∈ order ->
             reportsOf (snd e) st' = reportsOf (snd e) (mem (agent s))) ->
  passInv c order (mkShuttingDown (mkConfig st' ts') (todo s)).
Proof.
  intros [Hreg Hids Hthr (behind & Hord & Hb & Ht)] Hm Hs Hts Htm Hrep.
  split; cbn [agent mem threads todo].
  - by rewrite Hm.
  - by rewrite Hs.
  - intros e He Hin. by apply (Hthr e He), Hts.
  - exists behind. split; [done|]. split.
    + intros e He. destruct (Hb e He) as [H1 H2]. split; [by apply Htm|].
      rewrite Hrep; [done|]. rewrite Hord. apply elem_of_app. by left.
    + intros e He. rewrite Hrep; [by apply Ht|].
      rewrite Hord. apply elem_of_app. by right.
Qed.

Lemma order_split_ne (behind rest : list (string * nat))
    (entry e : string * nat) :
  order = behind ++ entry :: rest ->
  e ∈ behind \/ e ∈ rest -> snd entry <> snd e.
Proof.
  intros Hord He Heq. pose proof order_distinct as Hnd.
  rewrite Hord, fmap_app, fmap_cons in Hnd.
  apply NoDup_app in Hnd as (_ & Hdis & Hnd).
  apply NoDup_cons in Hnd as [Hnot _].
  destruct He as [He|He].
  - apply (Hdis (snd e)); [by apply list_elem_of_fmap_2|].
    rewrite <- Heq. apply elem_of_cons. by left.
  - apply Hnot. rewrite Heq. by apply list_elem_of_fmap_2.
Qed.

Lemma pass_next (s : shuttingDown) (entry : string * nat)
    (rest : list (string * nat)) :
  passInv c order s ->
  todo s = entry :: rest ->
  passInv c order
    (mkShuttingDown
       (mkConfig (finalReport entry (mem (agent s))) (threads (agent s)))
       rest).
Proof.
  intros [Hreg Hids Hthr (behind & Hord & Hb & Ht)] Htodo.
  rewrite Htodo in Hord.
  assert (Hentry : entry ∈ order).
  { rewrite Hord. apply elem_of_app. right. apply elem_of_cons. by left. }
  pose proof (order_ids entry Hentry) as Hid. rewrite <- Hids in Hid.
  unfold scanIDs in Hid. rewrite list_lookup_fmap in Hid.
  destruct (heap (mem (agent s)) !! snd entry) as [a|] eqn:Ha; [|done].
  injection Hid as Hid.
  set (st := mem (agent s)) in *.
  assert (Hprod : produced (finalReport entry st)
                  = produced st
                    ++ [(snd entry, buildReport (now st) (stopTimer a))]).
  { unfold finalReport, generateReport, update. rewrite Ha.
    cbn [heap setHeap]. rewrite list_lookup_insert_eq
      by (by eapply lookup_lt_Some). done. }
  assert (Htm : forall p, p <> snd entry ->
            timers (finalReport entry st) !! p = timers st !! p).
  { intros p Hp. unfold finalReport.
    by rewrite timers_generate, timers_update_ne. }
  split; cbn [agent mem threads todo].
  - unfold finalReport.
    rewrite (proj1 (generateReport_fields _ _)).
    by rewrite (proj1 (update_fields _ _ _)).
  - unfold finalReport. rewrite scanIDs_generate, scanIDs_update; done.
  - done.
  - exists (behind ++ [entry]). split; [by rewrite <- app_assoc|]. split.
    + intros e He. apply elem_of_app in He as [He|He].
      * assert (Hne : snd entry <> snd e)
          by (eapply order_split_ne; eauto).
        destruct (Hb e He) as [H1 H2]. split.
        -- by rewrite Htm.
        -- rewrite (reportsOf_snoc _ _ _ _ _ Hprod).
           rewrite decide_False by done. by rewrite app_nil_r.
      * apply list_elem_of_singleton in He as ->. split.
        -- unfold finalReport. rewrite timers_generate.
           unfold timers, update. rewrite Ha. cbn [heap setHeap].
           rewrite list_fmap_insert, list_lookup_insert_eq
             by (rewrite length_fmap; by eapply lookup_lt_Some).
           cbn. by destruct (timer a).
        -- exists (buildReport (now st) (stopTimer a)).
           rewrite (reportsOf_snoc _ _ _ _ _ Hprod).
           rewrite decide_True by done. rewrite Ht; [done|].
           rewrite Htodo. apply elem_of_cons. by left.
    + intros e He.
      assert (Hne : snd entry <> snd e) by (eapply order_split_ne; eauto).
      rewrite (reportsOf_snoc _ _ _ _ _ Hprod).
      rewrite decide_False by done. rewrite app_nil_r. apply Ht.
      rewrite Htodo. apply elem_of_cons. by right.
Qed.

Lemma pass_step_inv (e : passEvent) (s s' : shuttingDown) :
  passInv c order s -> passStep e s = Some s' -> passInv c order s'.
Proof.
  intros Hinv Hstep. destruct e as [|e]; cbn [passStep] in Hstep.
  { destruct (todo s) as [|entry rest] eqn:Htodo; [done|].
    injection Hstep as <-. by apply pass_next. }
  destruct s as [[st ts] td]. cbn [agent mem threads todo] in Hstep.
  destruct e as [d|result|service|p|i]; try done.
  - (* the clock *)
    cbn [step mem threads] in Hstep. destruct (0 <=? d); [|done].
    injection Hstep as <-.
    by apply (pass_frame (mkShuttingDown (mkConfig st ts) td)).
  - (* a timer fires *)
    cbn [step mem threads] in Hstep.
    destruct (fireTimer p st) as [[id st1]|] eqn:Hf; [|done].
    injection Hstep as <-.
    unfold fireTimer in Hf. destruct (heap st !! p) as [a|] eqn:Ha; [|done].
    destruct (timer a) eqn:Htm; try done.
    destruct (_ <=? _); [|done]. injection Hf as <- <-.
    apply (pass_frame (mkShuttingDown (mkConfig st ts) td));
      cbn [agent mem threads]; try done.
    + by rewrite (proj1 (update_fields _ _ _)).
    + by apply scanIDs_update.
    + intros x Hx. apply elem_of_app in Hx as [Hx|Hx]; [done|].
      by apply list_elem_of_singleton in Hx.
    + intros q Hq. destruct (decide (p = q)) as [<-|Hne].
      * unfold timers, update. rewrite Ha. cbn [heap setHeap].
        rewrite list_fmap_insert, list_lookup_insert_eq
          by (rewrite length_fmap; by eapply lookup_lt_Some).
        done.
      * by rewrite timers_update_ne.
    + intros e He. apply reportsOf_update.
  - (* a goroutine under aggregator.mutex *)
    destruct (ts !! i) as [t|] eqn:Hi; [|done].
    destruct (needsRegistry t) eqn:Hneeds; [done|].
    cbn [step mem threads mbind option_bind] in Hstep. rewrite Hi in Hstep.
    destruct (threads_split _ _ _ Hi) as (l1 & l2 & Hts & Hrep & Hdel).
    assert (Hin : t ∈ ts).
    { rewrite Hts. apply elem_of_app. right. apply elem_of_cons. by left. }
    destruct t as [result p|result count|q|id|service p];
      cbn [exec needsRegistry] in Hstep, Hneeds; try done.
    + unfold addResult in Hstep. cbn [option_bind] in Hstep.
      injection Hstep as <-.
      apply (pass_frame (mkShuttingDown (mkConfig st ts) td));
        cbn [agent mem threads]; try done.
      * by rewrite (proj1 (update_fields _ _ _)).
      * by apply scanIDs_update.
      * intros x. rewrite Hrep, Hts. apply elem_of_replace. done.
      * intros q. by rewrite timers_update.
      * intros e He. apply reportsOf_update.
    + rewrite Hneeds in Hstep. cbn [option_bind] in Hstep.
      injection Hstep as <-.
      apply (pass_frame (mkShuttingDown (mkConfig st ts) td));
        cbn [agent mem threads]; try done.
      intros x. rewrite Hdel, Hts. intros Hx.
      apply elem_of_app in Hx. rewrite elem_of_app, elem_of_cons. tauto.
    + cbn [option_bind] in Hstep. injection Hstep as <-.
      apply (pass_frame (mkShuttingDown (mkConfig st ts) td));
        cbn [agent mem threads]; try done.
      * by rewrite (proj1 (generateReport_fields _ _)).
      * apply scanIDs_generate.
      * intros x. rewrite Hdel, Hts. intros Hx.
        apply elem_of_app in Hx. rewrite elem_of_app, elem_of_cons. tauto.
      * intros p. by rewrite timers_generate.
      * intros e He. apply reportsOf_generate_ne. intros ->.
        by apply (pass_threads _ _ _ Hinv e He).
    + cbn [option_bind] in Hstep. injection Hstep as <-.
      apply (pass_frame (mkShuttingDown (mkConfig st ts) td));
        cbn [agent mem threads]; try done.
      * by rewrite (proj1 (update_fields _ _ _)).
      * by apply scanIDs_update.
      * intros x. rewrite Hdel, Hts. intros Hx.
        apply elem_of_app in Hx. rewrite elem_of_app, elem_of_cons. tauto.
      * intros q. by rewrite timers_update.
      * intros e He. apply reportsOf_update.
Qed.

Lemma pass_inv (es : list passEvent) (s s' : shuttingDown) :
  passInv c order s -> pass es s = Some s' -> passInv c order s'.
Proof.
  revert s. induction es as [|e es IH]; intros s Hinv; cbn [pass].
  - by intros [= <-].
  - destruct (passStep e s) as [s1|] eqn:He; [|done].
    apply IH. by eapply pass_step_inv.
Qed.

End Pass.

Lemma fireTimer_off (p : nat) (st : state) :
  timers st !! p <> Some Armed -> fireTimer p st = None.
Proof.
  unfold timers, fireTimer. rewrite list_lookup_fmap.
  destruct (heap st !! p) as [a|]; [|done]. cbn.
  by destruct (timer a).
Qed.

(** X5. Shutdown.  Started in any state the agent can reach, and with
    goroutines that are inside a section under an aggregator's own lock
    still running between its entries, the pass over the registry builds
    exactly one report for every aggregate in the registry, under the scan
    id of its entry, and leaves the timer of each one off, so that none of
    them fires afterwards.  The pass removes no entry: the registry after
    it is the registry before it. *)
Theorem shutdown_reports_each_aggregate (es : list event) (c : config)
    (order : list (string * nat)) (pes : list passEvent)
    (s : shuttingDown) :
  run es start = Some c ->
  order ≡ₚ map_to_list (scanAggregators (mem c)) ->
  pass pes (mkShuttingDown c order) = Some s ->
  todo s = [] ->
  scanAggregators (mem (agent s)) = scanAggregators (mem c)
  /\ forall id p,
       scanAggregators (mem c) !! id = Some p ->
       reportsOf p (mem c) = []
       /\ (exists report,
             reportsOf p (mem (agent s)) = [(p, report)]
             /\ ScanID report = id)
       /\ fireTimer p (mem (agent s)) = None.
Proof.
  intros Hrun Hperm Hpass Hdone.
  pose proof (agent_run_inv _ _ _ start_inv Hrun) as Hinv.
  assert (Hin : forall id p, (id, p) ∈ order
                             <-> scanAggregators (mem c) !! id = Some p).
  { intros id p. rewrite Hperm. apply elem_of_map_to_list. }
  assert (Hnone : forall id p, scanAggregators (mem c) !! id = Some p ->
                               reportsOf p (mem c) = []).
  { intros id p Hp. unfold reportsOf.
    apply reportsOf_none. intros r Hr.
    apply (inv_claimed_gone _ Hinv _ _ Hp), claimed_produced.
    apply list_elem_of_fmap. by exists (p, r). }
  assert (Hids : forall e, e ∈ order ->
                           scanIDs (mem c) !! snd e = Some (fst e)).
  { intros [id p] He. apply Hin in He. by apply (inv_registry _ Hinv). }
  assert (Hnd : NoDup (snd <$> order)).
  { apply NoDup_fmap_2_strong.
    - intros [id p] [id' p'] H1 H2 Heq. cbn in Heq. subst p'.
      apply Hids in H1, H2. cbn in H1, H2. congruence.
    - rewrite Hperm. apply NoDup_map_to_list. }
  assert (Hinit : passInv c order (mkShuttingDown c order)).
  { split; cbn [agent todo]; try done.
    - intros [id p] He Hg. apply Hin in He.
      by apply (inv_claimed_gone _ Hinv _ _ He), claimed_generating.
    - exists []. split; [done|]. split.
      + intros e He. by apply elem_of_nil in He.
      + intros [id p] He. apply Hin in He. by eapply Hnone. }
  destruct (pass_inv c order Hids Hnd _ _ _ Hinit Hpass)
    as [Hreg _ _ (behind & Hord & Hb & _)].
  rewrite Hdone, app_nil_r in Hord. subst behind.
  split; [done|]. intros id p Hp. split; [by eapply Hnone|].
  apply Hin in Hp. destruct (Hb _ Hp) as [Htm Hrep]. split; [done|].
  by apply fireTimer_off.
Qed.

Lemma shutdown_reports_each_aggregate_witness :
  exists c s,
    run (handled (portResult "a" 22 "open") 0
         ++ [ScanResultMsg (portResult "a" 80 "closed")]) start = Some c
    /\ pass [Meanwhile (Run 0); Next; Meanwhile (Run 0)]
         (mkShuttingDown c (map_to_list (scanAggregators (mem c))))
       = Some s
    /\ scanAggregators (mem (agent s)) = scanAggregators (mem c)
    /\ (Statistics ∘ snd) <$> produced (mem (agent s))
       = [ScanStatistics.mk 2 1 1].
Proof.
  let v := eval vm_compute in
             (run (handled (portResult "a" 22 "open") 0
                   ++ [ScanResultMsg (portResult "a" 80 "closed")]) start) in
  match v with
  | Some ?c =>
      assert (Hrun : run (handled (portResult "a" 22 "open") 0
                          ++ [ScanResultMsg (portResult "a" 80 "closed")])
                       start = Some c) by (vm_compute; reflexivity);
      let w := eval vm_compute in
                 (pass [Meanwhile (Run 0); Next; Meanwhile (Run 0)]
                    (mkShuttingDown c
                       (map_to_list (scanAggregators (mem c))))) in
      match w with
      | Some ?s =>
          assert (Hpass : pass [Meanwhile (Run 0); Next; Meanwhile (Run 0)]
                            (mkShuttingDown c
                               (map_to_list (scanAggregators (mem c))))
                          = Some s) by (vm_compute; reflexivity);
          exists c, s
      end
  end.
  split; [exact Hrun|]. split; [exact Hpass|]. split.
  - apply (shutdown_reports_each_aggregate _ _ _ _ _ Hrun
             (reflexivity _) Hpass).
    vm_compute. reflexivity.
  - vm_compute. reflexivity.
Defined.

End Shutdown.

Section Life.
Import Reporter models.

(** When the context is done, the aggregators reported so far are those
    that the triggers took. *)
Lemma life_start (c : config) :
  agentInv c -> lifeInv (fst <$> produced (mem c)) [] c.
Proof.
  intros [Hreg Hnodup Hgone Hmade Hprod _]. unfold claimed in *.
  split; try done. by rewrite app_nil_r.
Qed.

Lemma life_frame (V P : list nat) (c : config) (st' : state)
    (ts' : list thread) :
  lifeInv V P c ->
  scanAggregators st' = scanAggregators (mem c) ->
  produced st' = produced (mem c) ->
  scanIDs st' = scanIDs (mem c) ->
  flat_map claimedBy ts' = flat_map claimedBy (threads c) ->
  lifeInv V P (mkConfig st' ts').
Proof.
  intros [Hreg Hrep Hnodup Hgone Hmade Hprod] Hm Hp Hs Ht.
  split; cbn [mem threads]; rewrite ?Hm, ?Hp, ?Hs, ?Ht; done.
Qed.

Lemma life_create (V P : list nat) (c : config) (id : string)
    (a : ScanAggregator) (nw : Z) (t : thread) :
  lifeInv V P c ->
  scanAggregators (mem c) !! id = None ->
  scanID a = id ->
  claimedBy t = [] ->
  lifeInv V P
    (mkConfig
       (mkState (<[id := length (heap (mem c))]> (scanAggregators (mem c)))
          (heap (mem c) ++ [a]) (produced (mem c)) nw)
       (threads c ++ [t])).
Proof.
  intros [Hreg Hrep Hnodup Hgone Hmade Hprod] Hnone Ha Ht.
  assert (Hlen : length (scanIDs (mem c)) = length (heap (mem c)))
    by apply length_fmap.
  assert (Hclaims : flat_map claimedBy (threads c ++ [t])
                    = flat_map claimedBy (threads c))
    by (by apply claims_snoc).
  split; unfold scanIDs in *;
    cbn [mem threads scanAggregators heap produced];
    rewrite ?Hclaims, ?fmap_app; cbn [fmap list_fmap].
  - intros id' p [[<- <-]|[Hne Hp]]%lookup_insert_Some.
    + rewrite <- Hlen. rewrite list_lookup_middle; [by rewrite Ha | done].
    + apply lookup_app_l_Some. by apply Hreg.
  - done.
  - done.
  - intros id' p [[<- <-]|[Hne Hp]]%lookup_insert_Some.
    + intros Hin%Hmade. lia.
    + by eapply Hgone.
  - intros p Hp%Hmade. rewrite length_app. cbn. lia.
  - intros p report Hp%Hprod. by apply lookup_app_l_Some.
Qed.

Lemma life_claim (V P : list nat) (c : config) (id : string) (q : nat)
    (st' : state) (l1 l2 : list thread) (t : thread) :
  lifeInv V P c ->
  scanAggregators (mem c) !! id = Some q ->
  scanAggregators st' = delete id (scanAggregators (mem c)) ->
  produced st' = produced (mem c) ->
  scanIDs st' = scanIDs (mem c) ->
  threads c = l1 ++ t :: l2 ->
  claimedBy t = [] ->
  lifeInv V P (mkConfig st' (l1 ++ AtGenerate q :: l2)).
Proof.
  intros [Hreg Hrep Hnodup Hgone Hmade Hprod] Hq Hm Hp Hs Ht Hnil.
  assert (Hperm : V ++ flat_map claimedBy (l1 ++ AtGenerate q :: l2)
                  ≡ₚ q :: (V ++ flat_map claimedBy (threads c))).
  { rewrite Ht, !flat_map_app. cbn [flat_map claimedBy]. rewrite Hnil.
    cbn [app]. by rewrite !Permutation_middle. }
  assert (Hother : forall id' p, id <> id' ->
            scanAggregators (mem c) !! id' = Some p -> p <> q).
  { intros id' p Hne Hp' ->. apply Hreg in Hq, Hp'. congruence. }
  split; cbn [mem threads]; rewrite ?Hm, ?Hs, ?Hp; try done.
  - intros id' p [Hne Hp']%lookup_delete_Some. by apply Hreg.
  - rewrite Hperm. apply NoDup_cons. split; [by eapply Hgone | done].
  - intros id' p [Hne Hp']%lookup_delete_Some. rewrite Hperm.
    intros [->|Hin]%elem_of_cons; [|by eapply Hgone].
    by eapply Hother.
  - intros p. rewrite Hperm. intros [->|Hin]%elem_of_cons; [|by apply Hmade].
    apply Hreg in Hq. by eapply lookup_lt_Some.
Qed.

Lemma life_generate (V P : list nat) (c : config) (q : nat)
    (l1 l2 : list thread) :
  lifeInv V P c ->
  threads c = l1 ++ AtGenerate q :: l2 ->
  lifeInv (V ++ [q]) P (mkConfig (generateReport q (mem c)) (l1 ++ l2)).
Proof.
  intros [Hreg Hrep Hnodup Hgone Hmade Hprod] Ht.
  assert (Hq : q ∈ V ++ flat_map claimedBy (threads c)).
  { rewrite Ht, flat_map_app. cbn.
    rewrite !elem_of_app, elem_of_cons. auto. }
  assert (Hperm : (V ++ [q]) ++ flat_map claimedBy (l1 ++ l2)
                  ≡ₚ V ++ flat_map claimedBy (threads c)).
  { rewrite Ht, !flat_map_app. cbn. rewrite <- !app_assoc. cbn.
    by rewrite !Permutation_middle. }
  unfold generateReport.
  destruct (heap (mem c) !! q) as [a|] eqn:Ha.
  - split; cbn [mem threads produced scanAggregators].
    + intros id p Hp. exact (Hreg _ _ Hp).
    + rewrite fmap_app, Hrep. cbn. rewrite <- !app_assoc.
      apply Permutation_app_head, Permutation_app_comm.
    + by rewrite Hperm.
    + intros id p Hp. rewrite Hperm. exact (Hgone _ _ Hp).
    + intros p. rewrite Hperm. intros Hp. exact (Hmade _ Hp).
    + intros p report [Hin|Hin]%elem_of_app.
      * exact (Hprod _ _ Hin).
      * apply list_elem_of_singleton in Hin as [= -> ->].
        unfold scanIDs. cbn. by rewrite list_lookup_fmap, Ha.
  - apply Hmade in Hq. unfold scanIDs in Hq. rewrite length_fmap in Hq.
    apply lookup_lt_is_Some in Hq. rewrite Ha in Hq. by destruct Hq.
Qed.

#[local] Ltac frame V P c :=
  apply (life_frame V P c);
  [ assumption
  | cbn [mem threads];
    try (rewrite ?(proj1 (update_fields _ _ _)); reflexivity)
  | cbn [mem threads];
    try (rewrite ?(proj1 (proj2 (update_fields _ _ _))); reflexivity)
  | cbn [mem threads];
    try (rewrite ?scanIDs_update by reflexivity; reflexivity)
  | cbn [mem threads] ].

(** Every step keeps it, and adds to [V] the aggregator that it reports,
    if it reports one. *)
Lemma life_step (V P : list nat) (e : event) (c c' : config) :
  lifeInv V P c -> step e c = Some c' ->
  exists new, lifeInv (V ++ new) P c'.
Proof.
  intros Hinv. destruct e as [d|result|service|p|i]; cbn [step].
  - destruct (0 <=? d); [|done]. intros [= <-]. exists [].
    rewrite app_nil_r. by frame V P c.
  - unfold lookupOrCreate.
    destruct (scanAggregators (mem c) !! ScanResult.ScanID result)
      as [p|] eqn:Hp; intros [= <-]; exists []; rewrite app_nil_r.
    + frame V P c. by apply claims_snoc.
    + by apply (life_create V P c).
  - destruct (scanAggregators (mem c) !! ServiceInfo.ScanID service);
      intros [= <-]; exists []; rewrite app_nil_r; [|done].
    frame V P c. by apply claims_snoc.
  - unfold fireTimer. destruct (heap (mem c) !! p) as [a|] eqn:Ha; [|done].
    destruct (timer a); try done.
    destruct (_ <=? _); [|done]. intros [= <-]. exists [].
    rewrite app_nil_r. frame V P c. by apply claims_snoc.
  - destruct (threads c !! i) as [t|] eqn:Hi; [|done].
    destruct (threads_split _ _ _ Hi) as (l1 & l2 & Hts & Hins & Hdel).
    destruct t as [result p|result count|q|id|service p]; cbn [exec].
    + unfold addResult. intros [= <-]. rewrite Hins. exists [].
      rewrite app_nil_r. frame V P c. rewrite Hts. by apply claims_replace.
    + destruct (maxResultsWait <=? count).
      * unfold claimOnThreshold.
        destruct (scanAggregators (mem c) !! ScanResult.ScanID result)
          as [q|] eqn:Hq; intros [= <-]; exists []; rewrite app_nil_r.
        -- rewrite Hins. eapply (life_claim V P c); try done;
             unfold setAggregators; cbn [scanAggregators produced];
             rewrite ?(proj1 (proj2 (update_fields _ _ _))); try done.
           unfold scanIDs at 1. cbn [heap]. by apply scanIDs_update.
        -- rewrite Hdel. frame V P c. rewrite Hts. by eapply claims_remove.
      * intros [= <-]. rewrite Hdel. exists []. rewrite app_nil_r.
        frame V P c. rewrite Hts. by eapply claims_remove.
    + intros [= <-]. rewrite Hdel. exists [q]. by apply (life_generate V P c).
    + unfold claimOnTimer.
      destruct (scanAggregators (mem c) !! id) as [q|] eqn:Hq;
        intros [= <-]; exists []; rewrite app_nil_r.
      * rewrite Hins. by eapply (life_claim V P c).
      * rewrite Hdel. apply (life_frame V P c); try done; cbn [mem threads].
        rewrite Hts. by eapply claims_remove.
    + intros [= <-]. rewrite Hdel. exists []. rewrite app_nil_r.
      frame V P c. rewrite Hts. by eapply claims_remove.
Qed.

Lemma life_run (V P : list nat) (es : list event) (c c' : config) :
  lifeInv V P c -> run es c = Some c' ->
  exists new, lifeInv (V ++ new) P c'.
Proof.
  revert V c. induction es as [|e es IH]; intros V c Hinv; cbn [run].
  - intros [= <-]. exists []. by rewrite app_nil_r.
  - destruct (step e c) as [c1|] eqn:He; [|done]. intros Hrun.
    destruct (life_step _ _ _ _ _ Hinv He) as [new1 H1].
    destruct (IH _ _ H1 Hrun) as [new2 H2].
    exists (new1 ++ new2). by rewrite app_assoc.
Qed.

(** The pass reports the aggregator of an entry and leaves the entry. *)
Lemma life_next (V P : list nat) (c : config) (id : string) (p : nat) :
  lifeInv V P c ->
  scanAggregators (mem c) !! id = Some p ->
  lifeInv V (P ++ [p])
    (mkConfig (finalReport (id, p) (mem c)) (threads c)).
Proof.
  intros [Hreg Hrep Hnodup Hgone Hmade Hprod] Hp.
  pose proof (Hreg _ _ Hp) as Hid. unfold scanIDs in Hid.
  rewrite list_lookup_fmap in Hid.
  destruct (heap (mem c) !! p) as [a|] eqn:Ha; [|done].
  injection Hid as Hid.
  assert (Hnew : produced (finalReport (id, p) (mem c))
                 = produced (mem c)
                   ++ [(p, buildReport (now (mem c)) (stopTimer a))]).
  { unfold finalReport, generateReport, update. cbn [snd]. rewrite Ha.
    cbn [heap setHeap]. rewrite list_lookup_insert_eq
      by (by eapply lookup_lt_Some). done. }
  assert (Hm : scanAggregators (finalReport (id, p) (mem c))
               = scanAggregators (mem c)).
  { unfold finalReport.
    rewrite (proj1 (generateReport_fields _ _)).
    by rewrite (proj1 (update_fields _ _ _)). }
  assert (Hs : scanIDs (finalReport (id, p) (mem c)) = scanIDs (mem c)).
  { unfold finalReport. by rewrite scanIDs_generate, scanIDs_update. }
  split; cbn [mem threads]; rewrite ?Hm, ?Hs, ?Hnew; try done.
  - rewrite fmap_app, Hrep. cbn. by rewrite app_assoc.
  - intros q report [Hin|Hin]%elem_of_app.
    + exact (Hprod _ _ Hin).
    + apply list_elem_of_singleton in Hin as [= -> ->].
      unfold scanIDs. rewrite list_lookup_fmap, Ha. cbn. by rewrite Hid.
Qed.

(** Between two entries of the pass, the agent steps as it always does. *)
Lemma passStep_meanwhile (e : event) (s s' : shuttingDown) :
  passStep (Meanwhile e) s = Some s' ->
  step e (agent s) = Some (agent s') /\ todo s' = todo s.
Proof.
  destruct e as [d|result|service|p|i]; cbn [passStep]; try done.
  - destruct (step (Tick d) (agent s)) as [c1|]; [|done].
    by intros [= <-].
  - destruct (step (TimerFires p) (agent s)) as [c1|]; [|done].
    by intros [= <-].
  - destruct (threads (agent s) !! i) as [t|]; [|done].
    destruct (needsRegistry t); [done|].
    destruct (step (Run i) (agent s)) as [c1|]; [|done].
    by intros [= <-].
Qed.

Section Pass.
Variables (c : config) (order : list (string * nat)).
Hypothesis order_registry :
  forall id p, (id, p) ∈ order <-> scanAggregators (mem c) !! id = Some p.

Lemma life_pass_step (V : list nat) (behind : list (string * nat))
    (e : passEvent) (s s' : shuttingDown) :
  scanAggregators (mem (agent s)) = scanAggregators (mem c) ->
  order = behind ++ todo s ->
  lifeInv V (snd <$> behind) (agent s) ->
  passStep e s = Some s' ->
  exists new behind',
    order = behind' ++ todo s'
    /\ lifeInv (V ++ new) (snd <$> behind') (agent s').
Proof.
  intros Hreg Hord Hinv Hstep. destruct e as [|e].
  - cbn [passStep] in Hstep.
    destruct (todo s) as [|[id p] rest] eqn:Htodo; [done|].
    injection Hstep as <-. exists [], (behind ++ [(id, p)]).
    cbn [agent todo]. split; [by rewrite <- app_assoc|].
    rewrite app_nil_r, fmap_app. cbn [fmap list_fmap snd].
    destruct (agent s) as [st ts] eqn:Hs. cbn [mem threads] in *.
    apply (life_next V _ (mkConfig st ts)); [done|].
    cbn [mem]. rewrite Hreg. apply order_registry. rewrite Hord.
    apply elem_of_app. right. apply elem_of_cons. by left.
  - apply passStep_meanwhile in Hstep as [Hstep Htodo].
    destruct (life_step _ _ _ _ _ Hinv Hstep) as [new Hnew].
    exists new, behind. by rewrite Htodo.
Qed.

End Pass.

(** The order in which the pass visits the registry of a state that the
    agent can reach: every entry has its scan id, and no aggregator comes
    twice. *)
Lemma order_of_registry (c : config) (order : list (string * nat)) :
  agentInv c ->
  order ≡ₚ map_to_list (scanAggregators (mem c)) ->
  (forall id p, (id, p) ∈ order <-> scanAggregators (mem c) !! id = Some p)
  /\ (forall e, e ∈ order -> scanIDs (mem c) !! snd e = Some (fst e))
  /\ NoDup (snd <$> order)
  /\ passInv c order (mkShuttingDown c order).
Proof.
  intros Hinv Hperm.
  assert (Hin : forall id p, (id, p) ∈ order
                             <-> scanAggregators (mem c) !! id = Some p).
  { intros id p. rewrite Hperm. apply elem_of_map_to_list. }
  assert (Hids : forall e, e ∈ order ->
                           scanIDs (mem c) !! snd e = Some (fst e)).
  { intros [id p] He. apply Hin in He. by apply (inv_registry _ Hinv). }
  split; [done|]. split; [done|]. split.
  - apply NoDup_fmap_2_strong.
    + intros [id p] [id' p'] H1 H2 Heq. cbn in Heq. subst p'.
      apply Hids in H1, H2. cbn in H1, H2. congruence.
    + rewrite Hperm. apply NoDup_map_to_list.
  - split; cbn [agent todo]; try done.
    + intros [id p] He Hg. apply Hin in He.
      by apply (inv_claimed_gone _ Hinv _ _ He), claimed_generating.
    + exists []. split; [done|]. split.
      * intros e He. by apply elem_of_nil in He.
      * intros [id p] He. apply Hin in He. apply reportsOf_none.
        intros r Hr.
        apply (inv_claimed_gone _ Hinv _ _ He), claimed_produced.
        apply list_elem_of_fmap. by exists (p, r).
Qed.

Lemma visited_behind (order behind : list (string * nat))
    (s : shuttingDown) :
  order = behind ++ todo s -> visited order s = behind.
Proof.
  intros ->. unfold visited. rewrite length_app.
  replace (length behind + length (todo s) - length (todo s))%nat
    with (length behind) by lia.
  by rewrite take_app_length.
Qed.

Lemma life_pass (c : config) (order : list (string * nat))
    (es : list passEvent) (V : list nat) (s s' : shuttingDown) :
  agentInv c ->
  order ≡ₚ map_to_list (scanAggregators (mem c)) ->
  passInv c order s ->
  lifeInv V (snd <$> visited order s) (agent s) ->
  pass es s = Some s' ->
  exists new,
    passInv c order s'
    /\ lifeInv (V ++ new) (snd <$> visited order s') (agent s').
Proof.
  intros Hagent Hperm.
  destruct (order_of_registry _ _ Hagent Hperm) as (Hin & Hids & Hnd & _).
  revert V s. induction es as [|e es IH]; intros V s Hpass Hinv; cbn [pass].
  - intros [= <-]. exists []. by rewrite app_nil_r.
  - destruct (passStep e s) as [s1|] eqn:He; [|done]. intros Hrun.
    pose proof (pass_step_inv c order Hids Hnd _ _ _ Hpass He) as Hpass1.
    destruct (pass_order _ _ _ Hpass) as (behind & Hord & _).
    rewrite (visited_behind _ _ _ Hord) in Hinv.
    destruct (life_pass_step c order Hin V behind e s s1
                (pass_registry _ _ _ Hpass) Hord Hinv He)
      as (new1 & behind1 & Hord1 & Hinv1).
    rewrite <- (visited_behind _ _ _ Hord1) in Hinv1.
    destruct (IH _ _ Hpass1 Hinv1 Hrun) as (new2 & Hpass2 & Hinv2).
    exists (new1 ++ new2). by rewrite app_assoc.
Qed.

(** The whole life: the run, the pass, and what comes after it. *)
Lemma life_shutDown (es : list event) (c : config)
    (order : list (string * nat)) (during : list passEvent)
    (after : list event) (s : shuttingDown) (c' : config) :
  run es start = Some c ->
  order ≡ₚ map_to_list (scanAggregators (mem c)) ->
  shutDown c order during after = Some (s, c') ->
  exists new,
    lifeInv ((fst <$> produced (mem c)) ++ new)
      (snd <$> visited order s) c'
    /\ passInv c order s
    /\ pass during (mkShuttingDown c order) = Some s
    /\ run after (agent s) = Some c'.
Proof.
  intros Hrun Hperm Hdown.
  pose proof (agent_run_inv _ _ _ start_inv Hrun) as Hagent.
  destruct (order_of_registry _ _ Hagent Hperm) as (_ & _ & _ & Hinit).
  unfold shutDown in Hdown.
  destruct (pass during (mkShuttingDown c order)) as [s1|] eqn:Hpass;
    [|done].
  cbn [mbind option_bind] in Hdown.
  assert (Hfirst : lifeInv (fst <$> produced (mem c))
                     (snd <$> visited order (mkShuttingDown c order))
                     (agent (mkShuttingDown c order))).
  { rewrite (visited_behind order [] (mkShuttingDown c order) eq_refl).
    by apply life_start. }
  destruct (life_pass _ _ _ _ _ _ Hagent Hperm Hinit Hfirst Hpass)
    as (new1 & Hpass1 & Hinv1).
  destruct after as [|e after].
  - injection Hdown as <- <-. exists new1. done.
  - destruct (todo s1) eqn:Htodo; [|done].
    destruct (run (e :: after) (agent s1)) as [c1|] eqn:Hafter; [|done].
    injection Hdown as <- <-.
    destruct (life_run _ _ _ _ _ Hinv1 Hafter) as [new2 Hinv2].
    exists (new1 ++ new2). by rewrite app_assoc.
Qed.

Lemma visited_order (order : list (string * nat)) (s : shuttingDown) :
  NoDup (snd <$> order) -> NoDup (snd <$> visited order s).
Proof.
  intros Hnd. unfold visited. rewrite <- (take_drop
    (length order - length (todo s)) order), fmap_app in Hnd.
  by apply NoDup_app in Hnd as [Hnd _].
Qed.

(** C1, amended.  The check for the entry and its removal are one
    critical section in both triggers, so a trigger that finds the entry
    of an aggregator takes the aggregator out and leaves it to its own
    goroutine.  Hence, however the goroutines of the two handlers and of
    the timers interleave, no aggregator is taken or reported twice by
    the triggers, each report is the report of the scan of its
    aggregator, and an aggregator that is still in the registry has been
    neither taken nor reported, and can still be.  This holds to the end
    of the agent: with the pass of [Start] at shutdown and whatever runs
    after it, the reports are those of the triggers, one for an
    aggregator at most, and those of the pass, one for each entry that
    it has visited.  (All this is per aggregator, not per scan id: a
    result that arrives after the removal makes a new aggregator.) *)
Theorem one_report_per_aggregate (es : list event) (c : config) :
  run es start = Some c ->
  NoDup (claimed c)
  /\ (forall p report,
        (p, report) ∈ produced (mem c) ->
        scanIDs (mem c) !! p = Some (ScanID report))
  /\ (forall id p,
        scanAggregators (mem c) !! id = Some p ->
        (p ∉ claimed c)
        /\ exists es' c',
             run es' c = Some c' /\ p ∈ fst <$> produced (mem c')
             /\ scanAggregators (mem c') !! id = None)
  /\ (forall order during after s c',
        order ≡ₚ map_to_list (scanAggregators (mem c)) ->
        shutDown c order during after = Some (s, c') ->
        exists new,
          (fst <$> produced (mem c'))
          ≡ₚ ((fst <$> produced (mem c)) ++ new)
             ++ (snd <$> visited order s)
          /\ NoDup (((fst <$> produced (mem c)) ++ new)
                    ++ flat_map claimedBy (threads c'))
          /\ NoDup (snd <$> visited order s)
          /\ forall id p,
               scanAggregators (mem c') !! id = Some p ->
               p ∉ ((fst <$> produced (mem c)) ++ new)
                   ++ flat_map claimedBy (threads c')).
Proof.
  intros Hrun. pose proof (agent_run_inv _ _ _ start_inv Hrun) as Hinv.
  split; [|split; [|split]].
  - apply (inv_claimed_once _ Hinv).
  - apply (inv_produced _ Hinv).
  - intros id p Hp. split.
    + by apply (inv_claimed_gone _ Hinv _ _ Hp).
    + by apply can_finalize.
  - intros order during after s c' Hperm Hdown.
    destruct (life_shutDown _ _ _ _ _ _ _ Hrun Hperm Hdown)
      as (new & Hlife & _).
    destruct (order_of_registry _ _ Hinv Hperm) as (_ & _ & Hnd & _).
    exists new. split; [apply (life_reports _ _ _ Hlife)|].
    split; [apply (life_once _ _ _ Hlife)|].
    split; [by apply visited_order|].
    apply (life_gone _ _ _ Hlife).
Qed.

(** The race: the timer of a scan fires while the handler of its
    twentieth result is between counting it and checking the threshold.
    The handler takes the entry before the callback of the timer runs,
    and there is one report.  A twenty-first result makes a second
    aggregator, which the pass at shutdown reports. *)
Lemma one_report_per_aggregate_witness :
  let result := portResult "scan-1" 80 "open" in
  let es := mjoin (replicate 19 (handled result 0))
            ++ [Tick resultTimeout; ScanResultMsg result; Run 0%nat;
                TimerFires 0; Run 0%nat; Run 1%nat; Run 0%nat]
            ++ handled result 0 in
  exists c,
    run es start = Some c
    /\ threads c = []
    /\ fst <$> produced (mem c) = [0%nat]
    /\ NoDup (claimed c)
    /\ exists s c' new,
         shutDown c [("scan-1", 1%nat)] [Next] [] = Some (s, c')
         /\ fst <$> produced (mem c') = [0%nat; 1%nat]
         /\ [0%nat; 1%nat] ≡ₚ ([0%nat] ++ new) ++ [1%nat]
         /\ NoDup (([0%nat] ++ new) ++ []).
Proof.
  intros result es.
  let v := eval vm_compute in (run es start) in
  match v with
  | Some ?c =>
      assert (Hrun : run es start = Some c) by (vm_compute; reflexivity);
      exists c;
      (split; [exact Hrun|]); (split; [reflexivity|]);
      (split; [reflexivity|]);
      (split; [exact (proj1 (one_report_per_aggregate _ _ Hrun))|]);
      let w := eval vm_compute in
                 (shutDown c [("scan-1", 1%nat)] [Next] []) in
      match w with
      | Some (?s, ?c') =>
          assert (Hdown : shutDown c [("scan-1", 1%nat)] [Next] []
                          = Some (s, c')) by (vm_compute; reflexivity);
          destruct (proj2 (proj2 (proj2
                      (one_report_per_aggregate _ _ Hrun)))
                      [("scan-1", 1%nat)] [Next] [] s c')
            as (new & H1 & H2 & _);
            [vm_compute; reflexivity | exact Hdown |];
          exists s, c', new
      end
  end.
  split; [exact Hdown|]. split; [reflexivity|].
  split; [exact H1 | exact H2].
Defined.

End Life.

Section Final.
Import Reporter models.

Lemma step_produced (e : event) (c c' : config) :
  step e c = Some c' ->
  exists new, produced (mem c') = produced (mem c) ++ new.
Proof.
  destruct c as [st ts]. destruct e as [d|result|service|p|i];
    cbn [step mem threads].
  - destruct (0 <=? d); [|done]. intros [= <-]. exists []. cbn.
    by rewrite app_nil_r.
  - unfold lookupOrCreate.
    destruct (scanAggregators st !! ScanResult.ScanID result);
      intros [= <-]; exists []; cbn; by rewrite app_nil_r.
  - destruct (scanAggregators st !! ServiceInfo.ScanID service);
      intros [= <-]; exists []; cbn; by rewrite app_nil_r.
  - destruct (fireTimer p st) as [[id st1]|] eqn:Hf; [|done].
    intros [= <-]. unfold fireTimer in Hf.
    destruct (heap st !! p) as [a|]; [|done].
    destruct (timer a); try done. destruct (_ <=? _); [|done].
    injection Hf as <- <-. exists []. cbn [mem].
    by rewrite (proj1 (proj2 (update_fields _ _ _))), app_nil_r.
  - destruct (ts !! i) as [t|]; [|done].
    destruct t as [result p|result count|q|id|service p]; cbn [exec].
    + unfold addResult. intros [= <-]. exists []. cbn [mem].
      by rewrite (proj1 (proj2 (update_fields _ _ _))), app_nil_r.
    + destruct (maxResultsWait <=? count);
        [|intros [= <-]; exists []; cbn; by rewrite app_nil_r].
      unfold claimOnThreshold.
      destruct (scanAggregators st !! ScanResult.ScanID result);
        intros [= <-]; exists []; cbn [mem produced setAggregators];
        by rewrite ?(proj1 (proj2 (update_fields _ _ _))), app_nil_r.
    + intros [= <-]. unfold generateReport. destruct (heap st !! q).
      * eexists. cbn. reflexivity.
      * exists []. cbn. by rewrite app_nil_r.
    + unfold claimOnTimer. destruct (scanAggregators st !! id);
        intros [= <-]; exists []; cbn; by rewrite app_nil_r.
    + intros [= <-]. exists []. cbn [mem].
      by rewrite (proj1 (proj2 (update_fields _ _ _))), app_nil_r.
Qed.

Lemma run_produced (es : list event) (c c' : config) :
  run es c = Some c' ->
  exists new, produced (mem c') = produced (mem c) ++ new.
Proof.
  revert c. induction es as [|e es IH]; intros c; cbn [run].
  - intros [= <-]. exists []. by rewrite app_nil_r.
  - destruct (step e c) as [c1|] eqn:He; [|done]. intros Hrun.
    destruct (step_produced _ _ _ He) as [new1 H1].
    destruct (IH _ Hrun) as [new2 H2].
    exists (new1 ++ new2). by rewrite H2, H1, app_assoc.
Qed.

Lemma only_report (l : list (nat * Report)) (p : nat) (report : Report) :
  NoDup (fst <$> l) -> (p, report) ∈ l ->
  filter (fun r => fst r = p) l = [(p, report)].
Proof.
  induction l as [|[q r] l IH]; intros Hnd Hin.
  - by apply elem_of_nil in Hin.
  - rewrite fmap_cons in Hnd. apply NoDup_cons in Hnd as [Hq Hnd].
    rewrite filter_cons. cbn [fst] in *.
    apply elem_of_cons in Hin as [[= <- <-]|Hin].
    + rewrite decide_True by done. f_equal.
      clear IH Hnd. induction l as [|[q' r'] l IH]; [done|].
      rewrite filter_cons. cbn [fst]. rewrite decide_False.
      * apply IH. intros H. apply Hq. rewrite fmap_cons.
        apply elem_of_cons. by right.
      * intros ->. apply Hq. rewrite fmap_cons. apply elem_of_cons.
        by left.
    + rewrite decide_False; [by apply IH|].
      intros ->. apply Hq. apply list_elem_of_fmap. by exists (p, report).
Qed.

Lemma pass_produced (es : list passEvent) (s s' : shuttingDown) :
  pass es s = Some s' ->
  exists new,
    produced (mem (agent s')) = produced (mem (agent s)) ++ new.
Proof.
  revert s. induction es as [|e es IH]; intros s; cbn [pass].
  - intros [= <-]. exists []. by rewrite app_nil_r.
  - destruct (passStep e s) as [s1|] eqn:He; [|done]. intros Hrun.
    destruct (IH _ Hrun) as [new2 H2].
    assert (H1 : exists new1, produced (mem (agent s1))
                              = produced (mem (agent s)) ++ new1).
    { destruct e as [|e].
      - cbn [passStep] in He. destruct (todo s) as [|entry rest]; [done|].
        injection He as <-. cbn [agent mem]. unfold finalReport.
        set (st := update (snd entry) stopTimer (mem (agent s))).
        assert (Hst : produced st = produced (mem (agent s)))
          by apply update_fields.
        rewrite <- Hst. unfold generateReport.
        destruct (heap st !! snd entry).
        + eexists. cbn. reflexivity.
        + exists []. by rewrite app_nil_r.
      - apply passStep_meanwhile in He as [He _].
        by apply step_produced in He. }
    destruct H1 as [new1 H1].
    exists (new1 ++ new2). by rewrite H2, H1, app_assoc.
Qed.

(** X6. A report is final.  Once an aggregate has been reported while the
    agent runs, that report stays the only one built from it to the end
    of the agent, and the aggregate never returns to the registry,
    whatever the handlers and the timers do afterwards, and through the
    pass of [Start] at shutdown and what the goroutines still do after
    it: a result or a service record that a goroutine appends to the
    aggregate later, having found it before it was taken out of the
    registry, is in no report. *)
Theorem report_is_final (es es1 : list event) (c0 c : config) (p : nat)
    (report : Report) (order : list (string * nat))
    (during : list passEvent) (after : list event) (s : shuttingDown)
    (c' : config) :
  run es start = Some c0 ->
  (p, report) ∈ produced (mem c0) ->
  run es1 c0 = Some c ->
  order ≡ₚ map_to_list (scanAggregators (mem c)) ->
  shutDown c order during after = Some (s, c') ->
  reportsOf p (mem c') = [(p, report)]
  /\ forall id, scanAggregators (mem c') !! id <> Some p.
Proof.
  intros Hrun0 Hin0 Hrun1 Hperm Hdown.
  assert (Hrun : run (es ++ es1) start = Some c).
  { rewrite run_app, Hrun0. exact Hrun1. }
  pose proof (agent_run_inv _ _ _ start_inv Hrun) as Hinv.
  destruct (run_produced _ _ _ Hrun1) as [new1 Hnew1].
  assert (Hin : (p, report) ∈ produced (mem c)).
  { rewrite Hnew1. apply elem_of_app. by left. }
  assert (Hp : p ∈ fst <$> produced (mem c)).
  { apply list_elem_of_fmap. by exists (p, report). }
  destruct (order_of_registry _ _ Hinv Hperm) as (Hord & _ & _ & _).
  destruct (life_shutDown _ _ _ _ _ _ _ Hrun Hperm Hdown)
    as (new & Hlife & _ & Hpass & Hafter).
  destruct (pass_produced _ _ _ Hpass) as [more1 Hmore1].
  destruct (run_produced _ _ _ Hafter) as [more2 Hmore2].
  cbn [agent] in Hmore1. rewrite Hmore1, <- app_assoc in Hmore2.
  pose proof (life_once _ _ _ Hlife) as Hnd.
  rewrite <- !app_assoc in Hnd.
  apply NoDup_app in Hnd as (Hnd0 & Hdis & _).
  split.
  - unfold reportsOf. rewrite Hmore2, filter_app.
    rewrite (only_report _ _ _ Hnd0 Hin).
    replace (filter (fun r => fst r = p) (more1 ++ more2))
      with (@nil (nat * Report)); [done|].
    symmetry. apply (reportsOf_none p
      (mkState ∅ [] (more1 ++ more2) 0)). cbn [produced].
    intros r Hr.
    pose proof (life_reports _ _ _ Hlife) as Hrep.
    rewrite Hmore2, fmap_app, <- !app_assoc in Hrep.
    apply Permutation_app_inv_l in Hrep.
    assert (Hmore : p ∈ fst <$> (more1 ++ more2)).
    { apply list_elem_of_fmap. by exists (p, r). }
    rewrite Hrep in Hmore. apply elem_of_app in Hmore as [Hmore|Hmore].
    + apply (Hdis p Hp). apply elem_of_app. by left.
    + apply list_elem_of_fmap in Hmore as ([id q] & -> & Hq).
      unfold visited in Hq. apply elem_of_take in Hq as (i & Hi & _).
      apply list_elem_of_lookup_2, Hord in Hi. cbn [snd] in *.
      by apply (inv_claimed_gone _ Hinv _ _ Hi), claimed_produced.
  - intros id Hid. apply (life_gone _ _ _ Hlife _ _ Hid).
    rewrite <- !app_assoc. apply elem_of_app. by left.
Qed.

(** Two results of a scan arrive together; the first is appended, the
    timer reports the aggregate, and only then the second is appended.
    The agent shuts down, and a third result, whose handler was waiting,
    makes an aggregate of its own. *)
Lemma report_is_final_witness :
  let r1 := portResult "s" 22 "open" in
  let r2 := portResult "s" 80 "open" in
  let es := [ScanResultMsg r1; ScanResultMsg r2; Run 0; Run 0;
             Tick resultTimeout; TimerFires 0; Run 1; Run 1] in
  let es1 := [Run 0; Run 0] in
  exists c0 c s c' report,
    run es start = Some c0
    /\ run es1 c0 = Some c
    /\ shutDown c [] [] [ScanResultMsg r1; Run 0] = Some (s, c')
    /\ (results <$> heap (mem c')) = [[r1; r2]; [r1]]
    /\ ScanStatistics.TotalPorts (Statistics report) = 1
    /\ reportsOf 0 (mem c') = [(0%nat, report)].
Proof.
  intros r1 r2 es es1.
  let v := eval vm_compute in (run es start) in
  match v with
  | Some ?c0 =>
      assert (Hrun : run es start = Some c0) by (vm_compute; reflexivity);
      let w := eval vm_compute in (run es1 c0) in
      match w with
      | Some ?c =>
          assert (Hrun1 : run es1 c0 = Some c) by (vm_compute; reflexivity);
          let u := eval vm_compute in (produced (mem c0)) in
          match u with
          | [(_, ?report)] =>
              assert (Hin : (0%nat, report) ∈ produced (mem c0))
                by (apply list_elem_of_here);
              let x := eval vm_compute in
                         (shutDown c [] [] [ScanResultMsg r1; Run 0]) in
              match x with
              | Some (?s, ?c') =>
                  assert (Hdown : shutDown c [] []
                                    [ScanResultMsg r1; Run 0]
                                  = Some (s, c'))
                    by (vm_compute; reflexivity);
                  exists c0, c, s, c', report
              end
          end
      end
  end.
  split; [exact Hrun|]. split; [exact Hrun1|]. split; [exact Hdown|].
  split; [vm_compute; reflexivity|]. split; [vm_compute; reflexivity|].
  refine (proj1 (report_is_final _ _ _ _ _ _ _ _ _ _ _
                   Hrun Hin Hrun1 _ Hdown)).
  vm_compute. reflexivity.
Defined.

End Final.

Section Counting.
Import Reporter models.

Lemma sum_list_insert (h : list nat) (p x y : nat) :
  h !! p = Some x ->
  (sum_list (<[p := y]> h) + x = sum_list h + y)%nat.
Proof.
  revert p. induction h as [|a h IH]; intros [|p] Hp; try done.
  - injection Hp as ->. cbn. lia.
  - specialize (IH p Hp).
    change (<[S p := y]> (a :: h)) with (a :: <[p := y]> h).
    change (sum_list (a :: <[p := y]> h))
      with (a + sum_list (<[p := y]> h))%nat.
    change (sum_list (a :: h)) with (a + sum_list h)%nat. lia.
Qed.

(** Distinct entries of a list add up to no more than the list. *)
Lemma sum_list_some (h : list nat) (l : list nat) :
  NoDup l ->
  (sum_list_with (fun p => default 0%nat (h !! p)) l <= sum_list h)%nat.
Proof.
  revert h. induction l as [|p l IH]; intros h Hnd; cbn [sum_list_with].
  - lia.
  - apply NoDup_cons in Hnd as [Hp Hnd].
    destruct (h !! p) as [x|] eqn:Hx; cbn [default].
    + pose proof (sum_list_insert h p x 0%nat Hx) as Hsum.
      specialize (IH (<[p := 0%nat]> h) Hnd).
      assert (Heq : sum_list_with (fun q => default 0%nat (h !! q)) l
                    = sum_list_with
                        (fun q => default 0%nat (<[p := 0%nat]> h !! q)) l).
      { clear -Hp. induction l as [|q l IH]; [done|]. cbn [sum_list_with].
        rewrite IH by (intros ?; apply Hp, elem_of_cons; by right).
        rewrite list_lookup_insert_ne; [done|].
        intros ->. apply Hp, elem_of_cons. by left. }
      rewrite Heq. change (id x) with x.
      apply Nat.le_trans with (x + sum_list (<[p := 0%nat]> h))%nat;
        [apply Nat.add_le_mono_l, IH | lia].
    + specialize (IH h Hnd). lia.
Qed.

Lemma sizes_update (p : nat) (f : ScanAggregator -> ScanAggregator)
    (st : state) :
  (forall a, length (results (f a)) = length (results a)) ->
  sizes (update p f st) = sizes st.
Proof.
  intros Hf. unfold update, sizes.
  destruct (heap st !! p) as [a|] eqn:Hp; [|done]. cbn [heap setHeap].
  rewrite list_fmap_insert. apply list_insert_id.
  rewrite list_lookup_fmap, Hp. cbn. by rewrite Hf.
Qed.

Lemma length_update (p : nat) (f : ScanAggregator -> ScanAggregator)
    (st : state) :
  length (heap (update p f st)) = length (heap st).
Proof.
  unfold update. destruct (heap st !! p); [|done]. cbn.
  apply length_insert.
Qed.

Lemma appending_split (l1 l2 : list thread) (t : thread) :
  length (filter (fun t => appending t = true) (l1 ++ t :: l2))
  = (length (filter (fun t => appending t = true) l1)
     + (if appending t then 1 else 0)
     + length (filter (fun t => appending t = true) l2))%nat.
Proof.
  rewrite filter_app, filter_cons, length_app.
  destruct (appending t); cbn.
  - rewrite decide_True by done. cbn. lia.
  - rewrite decide_False by done. lia.
Qed.

Lemma appending_snoc (ts : list thread) (t : thread) :
  length (filter (fun t => appending t = true) (ts ++ [t]))
  = (length (filter (fun t => appending t = true) ts)
     + (if appending t then 1 else 0))%nat.
Proof.
  rewrite appending_split. cbn. lia.
Qed.

(** A step that leaves the sizes of the aggregators and the reports as
    they are, and changes no goroutine that is about to append. *)
Lemma count_frame (n : nat) (c : config) (st' : state)
    (ts' : list thread) :
  countInv n c ->
  sizes st' = sizes (mem c) ->
  length (heap st') = length (heap (mem c)) ->
  produced st' = produced (mem c) ->
  (forall result p, AtAppend result p ∈ ts' ->
                    AtAppend result p ∈ threads c) ->
  length (filter (fun t => appending t = true) ts')
  = length (filter (fun t => appending t = true) (threads c)) ->
  countInv n (mkConfig st' ts').
Proof.
  intros [Hptr Hheld Hrep] Hs Hl Hp Hts Hn.
  split; cbn [mem threads].
  - intros result p Hin. rewrite Hl. by eapply Hptr, Hts.
  - by rewrite Hs, Hn.
  - intros p report. rewrite Hp, Hs. apply Hrep.
Qed.

Lemma registry_made (c : config) :
  (forall id p, scanAggregators (mem c) !! id = Some p ->
                scanIDs (mem c) !! p = Some id) ->
  forall (e : event) result p,
    e = ScanResultMsg result ->
    scanAggregators (mem c) !! ScanResult.ScanID result = Some p ->
    (p < length (heap (mem c)))%nat.
Proof.
  intros Hreg e result p _ Hp. apply Hreg in Hp.
  apply lookup_lt_Some in Hp. unfold scanIDs in Hp.
  by rewrite length_fmap in Hp.
Qed.

Lemma count_step (n : nat) (e : event) (c c' : config) :
  (forall result p,
     e = ScanResultMsg result ->
     scanAggregators (mem c) !! ScanResult.ScanID result = Some p ->
     (p < length (heap (mem c)))%nat) ->
  countInv n c -> step e c = Some c' ->
  countInv (if isScanResultMsg e then S n else n) c'.
Proof.
  intros Hreg Hcnt. pose proof Hcnt as [Hptr Hheld Hrep].
  destruct c as [st ts]. cbn [mem threads] in *.
  destruct e as [d|result|service|p|i];
    cbn [step mem threads isScanResultMsg].
  - destruct (0 <=? d); [|done]. intros [= <-].
    by apply (count_frame n (mkConfig st ts)).
  - unfold lookupOrCreate.
    destruct (scanAggregators st !! ScanResult.ScanID result) as [p|] eqn:Hp;
      intros [= <-]; split; cbn [mem threads heap produced].
    + intros r q [Hin|Hin%list_elem_of_singleton]%elem_of_app;
        [by eapply Hptr|].
      injection Hin as -> ->. by apply (Hreg result).
    + rewrite appending_snoc. cbn [appending]. lia.
    + done.
    + intros r q [Hin|Hin%list_elem_of_singleton]%elem_of_app;
        rewrite length_app; cbn [length].
      * apply Hptr in Hin. lia.
      * injection Hin as -> ->. lia.
    + rewrite appending_snoc. cbn [appending]. unfold sizes in *.
      cbn [heap]. rewrite fmap_app, sum_list_with_app. cbn. lia.
    + intros q report Hin. destruct (Hrep q report Hin) as (k & Hk & Hle).
      exists k. split; [|done]. unfold sizes in *. cbn [heap].
      rewrite fmap_app. by apply lookup_app_l_Some.
  - destruct (scanAggregators st !! ServiceInfo.ScanID service);
      intros [= <-]; [|done].
    apply (count_frame n (mkConfig st ts)); try done; cbn [threads].
    + intros r q [Hin|Hin%list_elem_of_singleton]%elem_of_app; done.
    + rewrite appending_snoc. cbn [appending]. lia.
  - destruct (fireTimer p st) as [[id st1]|] eqn:Hf; [|done].
    intros [= <-]. unfold fireTimer in Hf.
    destruct (heap st !! p) as [a|]; [|done].
    destruct (timer a); try done. destruct (_ <=? _); [|done].
    injection Hf as <- <-.
    apply (count_frame n (mkConfig st ts)); cbn [mem threads].
    + done.
    + by apply sizes_update.
    + apply length_update.
    + apply update_fields.
    + intros r q [Hin|Hin%list_elem_of_singleton]%elem_of_app; done.
    + rewrite appending_snoc. cbn [appending]. lia.
  - destruct (ts !! i) as [t|] eqn:Hi; [|done].
    destruct (threads_split _ _ _ Hi) as (l1 & l2 & Hts & Hins & Hdel).
    assert (Hin : t ∈ ts).
    { rewrite Hts. apply elem_of_app. right. apply elem_of_cons. by left. }
    assert (Hother : forall t' r q,
              (forall r' q', t' <> AtAppend r' q') ->
              AtAppend r q ∈ l1 ++ t' :: l2 -> AtAppend r q ∈ ts).
    { intros t' r q Ht'. rewrite Hts, !elem_of_app, !elem_of_cons.
      intros [?|[?|?]]; auto. by destruct (Ht' r q). }
    assert (Hgone : forall r q, AtAppend r q ∈ l1 ++ l2 ->
                                AtAppend r q ∈ ts).
    { intros r q. rewrite Hts, !elem_of_app, !elem_of_cons.
      intros [?|?]; auto. }
    rewrite Hts in Hheld. rewrite appending_split in Hheld.
    destruct t as [result p|result count|q|id|service p]; cbn [exec];
      cbn [appending] in Hheld.
    + unfold addResult. intros [= <-].
      pose proof (Hptr _ _ Hin) as Hlt.
      destruct (lookup_lt_is_Some_2 _ _ Hlt) as [a Ha].
      split; cbn [mem threads].
      * intros r q Hq. rewrite length_update. rewrite Hins in Hq.
        eapply Hptr, Hother; [|exact Hq]. done.
      * rewrite Hins, appending_split. cbn [appending].
        unfold sizes, update. rewrite Ha. cbn [heap setHeap].
        rewrite list_fmap_insert.
        pose proof (sum_list_insert
          ((fun a => length (results a)) <$> heap st) p
          (length (results a)) (length (results (appendResult result a))))
          as Hsum.
        rewrite list_lookup_fmap, Ha in Hsum. specialize (Hsum eq_refl).
        cbn [results appendResult] in Hsum |- *.
        rewrite length_app in Hsum |- *. cbn [length] in Hsum |- *.
        unfold sizes in Hheld. lia.
      * intros q report Hq.
        rewrite (proj1 (proj2 (update_fields _ _ _))) in Hq.
        destruct (Hrep q report Hq) as (k & Hk & Hle & H0).
        unfold sizes, update in *. rewrite Ha. cbn [heap setHeap].
        rewrite list_fmap_insert.
        destruct (decide (p = q)) as [<-|Hne].
        -- rewrite list_lookup_fmap, Ha in Hk. injection Hk as <-.
           eexists. rewrite list_lookup_insert_eq
             by (rewrite length_fmap; by eapply lookup_lt_Some).
           split; [done|]. cbn [results appendResult].
           rewrite length_app. cbn [length]. lia.
        -- exists k. by rewrite list_lookup_insert_ne.
    + destruct (maxResultsWait <=? count).
      * unfold claimOnThreshold.
        destruct (scanAggregators st !! ScanResult.ScanID result) as [agg|];
          intros [= <-].
        -- apply (count_frame n (mkConfig st ts));
             cbn [mem threads heap produced setAggregators].
           ++ done.
           ++ unfold sizes. cbn [heap setAggregators].
              by apply sizes_update.
           ++ apply length_update.
           ++ apply update_fields.
           ++ intros r q. rewrite Hins. by apply Hother.
           ++ rewrite Hins, Hts, !appending_split. done.
        -- apply (count_frame n (mkConfig st ts)); try done; cbn [threads].
           ++ intros r q. rewrite Hdel. apply Hgone.
           ++ rewrite Hdel, Hts, filter_app, length_app, appending_split.
              cbn [appending]. lia.
      * intros [= <-].
        apply (count_frame n (mkConfig st ts)); try done; cbn [threads].
        -- intros r q. rewrite Hdel. apply Hgone.
        -- rewrite Hdel, Hts, filter_app, length_app, appending_split.
           cbn [appending]. lia.
    + intros [= <-]. unfold generateReport.
      destruct (heap st !! q) as [a|] eqn:Ha.
      * split; cbn [mem threads heap produced].
        -- intros r p. rewrite Hdel. intros Hp. by eapply Hptr, Hgone.
        -- rewrite Hdel, filter_app, length_app. unfold sizes in *.
           cbn [heap]. lia.
        -- intros p report [Hp|Hp%list_elem_of_singleton]%elem_of_app.
           ++ by apply Hrep.
           ++ injection Hp as -> ->. exists (length (results a)).
              unfold sizes. cbn [heap]. rewrite list_lookup_fmap, Ha.
              split; [done|]. cbn. lia.
      * apply (count_frame n (mkConfig st ts)); try done; cbn [threads].
        -- intros r p. rewrite Hdel. apply Hgone.
        -- rewrite Hdel, Hts, filter_app, length_app, appending_split.
           cbn [appending]. lia.
    + unfold claimOnTimer.
      destruct (scanAggregators st !! id) as [agg|]; intros [= <-].
      * apply (count_frame n (mkConfig st ts)); try done; cbn [threads].
        -- intros r q. rewrite Hins. by apply Hother.
        -- rewrite Hins, Hts, !appending_split. done.
      * apply (count_frame n (mkConfig st ts)); try done; cbn [threads].
        -- intros r q. rewrite Hdel. apply Hgone.
        -- rewrite Hdel, Hts, filter_app, length_app, appending_split.
           cbn [appending]. lia.
    + intros [= <-].
      apply (count_frame n (mkConfig st ts)); cbn [mem threads].
      * done.
      * by apply sizes_update.
      * apply length_update.
      * apply update_fields.
      * intros r q. rewrite Hdel. apply Hgone.
      * rewrite Hdel, Hts, filter_app, length_app, appending_split.
        cbn [appending]. lia.
Qed.

Lemma count_run (es : list event) (n : nat) (c c' : config) :
  agentInv c -> countInv n c -> run es c = Some c' ->
  countInv (n + received es) c'.
Proof.
  revert n c. induction es as [|e es IH]; intros n c Hinv Hcnt; cbn [run].
  - intros [= <-]. unfold received. cbn. by rewrite Nat.add_0_r.
  - destruct (step e c) as [c1|] eqn:He; [|done]. intros Hrun.
    pose proof (agent_step_inv _ _ _ Hinv He) as Hinv1.
    pose proof (count_step _ _ _ _ (registry_made _ (inv_registry _ Hinv) e)
                  Hcnt He) as Hcnt1.
    specialize (IH _ _ Hinv1 Hcnt1 Hrun).
    unfold received in *. rewrite filter_cons.
    destruct (isScanResultMsg e).
    + rewrite decide_True by done. cbn [length].
      by replace (n + S (length (filter _ es)))%nat
        with (S n + length (filter (fun e => isScanResultMsg e = true) es))%nat
        by lia.
    + by rewrite decide_False by done.
Qed.

Lemma reported_le (l : list (nat * Report)) (h : list nat) :
  (forall p report, (p, report) ∈ l ->
     exists k, h !! p = Some k
               /\ ScanStatistics.TotalPorts (Statistics report) <= Z.of_nat k
               /\ 0 <= ScanStatistics.TotalPorts (Statistics report)) ->
  0 <= foldr (fun r acc => ScanStatistics.TotalPorts (Statistics (snd r))
                           + acc) 0 l
    <= Z.of_nat (sum_list_with (fun p => default 0%nat (h !! p)) (fst <$> l)).
Proof.
  induction l as [|[p r] l IH]; intros H; cbn [foldr fmap list_fmap
    sum_list_with fst snd]; [lia|].
  destruct (H p r) as (k & Hk & Hle & H0); [apply elem_of_cons; by left|].
  rewrite Hk. cbn [default].
  assert (IH' := IH (fun q report Hin =>
                       H q report (proj2 (elem_of_cons _ _ _)
                                    (or_intror Hin)))).
  change (id k) with k. rewrite Nat2Z.inj_add. lia.
Qed.

Lemma received_cons (e : event) (es : list event) :
  received (e :: es)
  = ((if isScanResultMsg e then 1 else 0) + received es)%nat.
Proof.
  unfold received. rewrite filter_cons. destruct (isScanResultMsg e).
  - by rewrite decide_True by done.
  - by rewrite decide_False by done.
Qed.

(** After the pass, with the registry as the pass left it. *)
Lemma count_life_run (V P : list nat) (es : list event) (n : nat)
    (c c' : config) :
  lifeInv V P c -> countInv n c -> run es c = Some c' ->
  countInv (n + received es) c'.
Proof.
  revert V n c. induction es as [|e es IH]; intros V n c Hinv Hcnt;
    cbn [run].
  - intros [= <-]. unfold received. cbn. by rewrite Nat.add_0_r.
  - destruct (step e c) as [c1|] eqn:He; [|done]. intros Hrun.
    destruct (life_step _ _ _ _ _ Hinv He) as [new Hinv1].
    pose proof (count_step _ _ _ _
                  (registry_made _ (life_registry _ _ _ Hinv) e)
                  Hcnt He) as Hcnt1.
    specialize (IH _ _ _ Hinv1 Hcnt1 Hrun). rewrite received_cons.
    destruct (isScanResultMsg e).
    + by replace (n + (1 + received es))%nat
        with (S n + received es)%nat by lia.
    + done.
Qed.

(** The pass counts what the aggregator of the entry holds. *)
Lemma count_next (n : nat) (c : config) (entry : string * nat) :
  countInv n c ->
  countInv n (mkConfig (finalReport entry (mem c)) (threads c)).
Proof.
  intros [Hptr Hheld Hrep]. destruct c as [st ts].
  cbn [mem threads] in *. unfold finalReport.
  set (st1 := update (snd entry) stopTimer st).
  assert (Hsz : sizes st1 = sizes st) by (by apply sizes_update).
  assert (Hlen : length (heap st1) = length (heap st))
    by apply length_update.
  assert (Hpr : produced st1 = produced st) by apply update_fields.
  unfold generateReport. destruct (heap st1 !! snd entry) as [a|] eqn:Ha.
  - split; cbn [mem threads heap produced].
    + intros r p Hp. rewrite Hlen. by eapply Hptr.
    + unfold sizes in *. cbn [heap]. by rewrite Hsz.
    + intros p report [Hp|Hp%list_elem_of_singleton]%elem_of_app.
      * unfold sizes in *. cbn [heap]. rewrite Hsz. apply Hrep.
        by rewrite <- Hpr.
      * injection Hp as -> ->. exists (length (results a)).
        unfold sizes. cbn [heap]. rewrite list_lookup_fmap, Ha.
        split; [done|]. cbn. lia.
  - split; cbn [mem threads]; rewrite ?Hlen, ?Hsz, ?Hpr; done.
Qed.

Lemma count_pass (n : nat) (es : list passEvent) (s s' : shuttingDown) :
  countInv n (agent s) -> pass es s = Some s' -> countInv n (agent s').
Proof.
  revert s. induction es as [|e es IH]; intros s Hcnt; cbn [pass].
  - by intros [= <-].
  - destruct (passStep e s) as [s1|] eqn:He; [|done]. apply IH.
    destruct e as [|e].
    + cbn [passStep] in He. destruct (todo s) as [|entry rest]; [done|].
      injection He as <-. cbn [agent]. by apply count_next.
    + assert (Hno : isScanResultMsg e = false).
      { destruct e; try done. }
      apply passStep_meanwhile in He as [He _].
      assert (Hvac : forall result p,
                e = ScanResultMsg result ->
                scanAggregators (mem (agent s)) !! ScanResult.ScanID result
                = Some p ->
                (p < length (heap (mem (agent s))))%nat).
      { intros result p ->. done. }
      pose proof (count_step _ _ _ _ Hvac Hcnt He) as H.
      by rewrite Hno in H.
Qed.

Lemma reported_sizes (c : config) (n : nat) :
  countInv n c ->
  0 <= reported (mem c)
    <= Z.of_nat (sum_list_with (sizeOf (mem c)) (fst <$> produced (mem c))).
Proof. intros [_ _ Hrep]. apply (reported_le _ _ Hrep). Qed.

Lemma sizes_some (st : state) (l : list nat) :
  NoDup l -> (sum_list_with (sizeOf st) l <= sum_list (sizes st))%nat.
Proof. apply sum_list_some. Qed.

(** X7. No result is lost on the way to its aggregate, and the triggers
    report none twice.  While the agent runs, the results that the
    aggregates hold, with those that a goroutine is about to append, are
    as many as the result messages received, and the ports that all the
    reports built so far count together are no more than that: a trigger
    reports an aggregate once, and a report counts what its aggregate
    held when it was built.  Through the pass of [Start] at shutdown and
    what runs after it, the results held stay as many as those received;
    the pass reports what it finds in the registry without taking it out,
    so a report of a trigger can count the same results again, and the
    reports together count no more than the results received and the
    results of the aggregates that the pass has visited, hence no result
    more than twice. *)
Theorem reports_count_each_result_once (es : list event) (c : config)
    (order : list (string * nat)) (during : list passEvent)
    (after : list event) (s : shuttingDown) (c' : config) :
  run es start = Some c ->
  order ≡ₚ map_to_list (scanAggregators (mem c)) ->
  shutDown c order during after = Some (s, c') ->
  held c = received es
  /\ 0 <= reported (mem c) <= Z.of_nat (received es)
  /\ held c' = (received es + received after)%nat
  /\ 0 <= reported (mem c')
       <= Z.of_nat (received es + received after)
          + Z.of_nat (sum_list_with (sizeOf (mem c'))
                        (snd <$> visited order s))
  /\ reported (mem c') <= 2 * Z.of_nat (received es + received after).
Proof.
  intros Hrun Hperm Hdown.
  pose proof (agent_run_inv _ _ _ start_inv Hrun) as Hinv.
  assert (Hstart : countInv 0 start).
  { split; cbn; [|done|].
    - intros r p Hin. by apply elem_of_nil in Hin.
    - intros p r Hin. by apply elem_of_nil in Hin. }
  pose proof (count_run _ _ _ _ start_inv Hstart Hrun) as Hcnt.
  cbn [Nat.add] in Hcnt.
  destruct (order_of_registry _ _ Hinv Hperm) as (_ & _ & Hnd & Hinit).
  destruct (life_shutDown _ _ _ _ _ _ _ Hrun Hperm Hdown)
    as (new & Hlife & _ & Hpass & Hafter).
  assert (Hfirst : lifeInv (fst <$> produced (mem c))
                     (snd <$> visited order (mkShuttingDown c order))
                     (agent (mkShuttingDown c order))).
  { rewrite (visited_behind order [] (mkShuttingDown c order) eq_refl).
    by apply life_start. }
  destruct (life_pass _ _ _ _ _ _ Hinv Hperm Hinit Hfirst Hpass)
    as (new1 & _ & Hlife1).
  pose proof (count_pass _ _ (mkShuttingDown c order) _ Hcnt Hpass)
    as Hcnt1.
  pose proof (count_life_run _ _ _ _ _ _ Hlife1 Hcnt1 Hafter) as Hcnt2.
  assert (Hbefore : 0 <= reported (mem c) <= Z.of_nat (received es)).
  { pose proof (reported_sizes _ _ Hcnt) as Hle.
    pose proof (inv_claimed_once _ Hinv) as Hnd0. unfold claimed in Hnd0.
    apply NoDup_app in Hnd0 as [Hnd0 _].
    pose proof (sizes_some (mem c) _ Hnd0) as Hsome.
    pose proof (cnt_held _ _ Hcnt) as Hheld. lia. }
  pose proof (reported_sizes _ _ Hcnt2) as Hle.
  rewrite (life_reports _ _ _ Hlife), sum_list_with_app in Hle.
  pose proof (life_once _ _ _ Hlife) as HndV.
  apply NoDup_app in HndV as [HndV _].
  pose proof (sizes_some (mem c') _ HndV) as HV.
  pose proof (sizes_some (mem c') _ (visited_order order s Hnd)) as HP.
  pose proof (cnt_held _ _ Hcnt2) as Hheld2.
  split; [exact (cnt_held _ _ Hcnt)|]. split; [exact Hbefore|].
  split; [exact Hheld2|]. split; lia.
Qed.

(** Twenty-one deliveries of one result: a report of twenty, and one
    result left in a new aggregate.  At shutdown the pass reports that
    aggregate; the callback of its timer, which was waiting, reports it
    again: twenty-one results, twenty-two ports reported. *)
Lemma reports_count_each_result_once_witness :
  let result := portResult "scan-1" 80 "closed" in
  let es := mjoin (replicate 19 (handled result 0))
            ++ handled result 0 ++ [Run 0%nat] ++ handled result 0
            ++ [Tick resultTimeout; TimerFires 1] in
  exists c s c',
    run es start = Some c
    /\ shutDown c [("scan-1", 1%nat)] [Next] [Run 0%nat; Run 0%nat]
       = Some (s, c')
    /\ received es = 21%nat
    /\ reported (mem c) = 20
    /\ reported (mem c') = 22
    /\ held c' = 21%nat
    /\ reported (mem c') <= 21 + 1.
Proof.
  intros result es.
  let v := eval vm_compute in (run es start) in
  match v with
  | Some ?c =>
      assert (Hrun : run es start = Some c) by (vm_compute; reflexivity);
      let w := eval vm_compute in
                 (shutDown c [("scan-1", 1%nat)] [Next]
                    [Run 0%nat; Run 0%nat]) in
      match w with
      | Some (?s, ?c') =>
          assert (Hdown : shutDown c [("scan-1", 1%nat)] [Next]
                            [Run 0%nat; Run 0%nat] = Some (s, c'))
            by (vm_compute; reflexivity);
          exists c, s, c'
      end
  end.
  split; [exact Hrun|]. split; [exact Hdown|].
  split; [vm_compute; reflexivity|]. split; [vm_compute; reflexivity|].
  split; [vm_compute; reflexivity|].
  match type of Hrun with
  | _ = Some ?c =>
      assert (Hperm : [("scan-1", 1%nat)]
                      ≡ₚ map_to_list (scanAggregators (mem c)))
        by (vm_compute; reflexivity)
  end.
  destruct (reports_count_each_result_once _ _ _ _ _ _ _ Hrun Hperm Hdown)
    as (_ & _ & H3 & H4 & _).
  split; [exact H3|]. exact (proj2 H4).
Defined.

End Counting.

Section Channel.
Import Scanner.
#[local] Open Scope nat_scope.

Lemma all_finished (l : list (Z * worker)) :
  length (filter (fun w => notFinished w = true) l) = 0 ->
  Forall (fun w => snd w = Finished) l.
Proof.
  induction l as [|[p w] l IH]; [done|].
  rewrite filter_cons. destruct w; cbn [notFinished snd];
    try (rewrite decide_True by done; cbn [length]; lia).
  rewrite decide_False by done. intros H. apply Forall_cons. split; [done|].
  by apply IH.
Qed.

Lemma none_holds_slot (l : list (Z * worker)) :
  Forall (fun w => snd w = Finished) l ->
  length (filter (fun w => holdsSlot w = true) l) = 0.
Proof.
  induction 1 as [|[p w] l Hw _ IH]; [done|]. cbn in Hw. subst w.
  rewrite filter_cons, decide_False; [done|]. cbn. done.
Qed.

(** X8. The result channel is closed only when every probe goroutine has
    finished: once it is closed every goroutine is past its [wg.Done], all
    semaphore slots are free, and the only thing that still happens is that
    the results left in the channel are published.  No goroutine sends on
    the closed channel, and the channel is not closed twice. *)
Theorem closed_after_all_finished (id tgt : string) (ports : list Z)
    (es : list event) (c : pool) :
  run es (scanPorts id tgt ports) = Some c ->
  closed c = true ->
  Forall (fun w => snd w = Finished) (workers c)
  /\ sem c = 0
  /\ forall e c', step e c = Some c' -> e = Publish.
Proof.
  intros Hrun Hclosed.
  pose proof (pool_run_inv _ _ _ _ _ _ (scanPorts_inv id tgt ports) Hrun)
    as Hinv.
  pose proof (inv_closed _ _ _ _ Hinv Hclosed) as Hwg.
  rewrite (inv_wg _ _ _ _ Hinv) in Hwg.
  pose proof (all_finished _ Hwg) as Hfin.
  split; [done|]. split.
  { rewrite (inv_sem _ _ _ _ Hinv). by apply none_holds_slot. }
  assert (Hw : forall i p w, workers c !! i = Some (p, w) -> w = Finished).
  { intros i p w Hi. rewrite Forall_forall in Hfin.
    apply (Hfin (p, w)). by eapply list_elem_of_lookup_2. }
  intros e c'. destruct e as [i|i conn|i|i|i| |]; cbn [step]; [..|done];
    try (destruct (workers c !! i) as [[p w]|] eqn:Hi; [|done];
         rewrite (Hw _ _ _ Hi); done).
  rewrite Hclosed. by rewrite andb_false_r.
Qed.

Lemma closed_after_all_finished_witness :
  let conns := [Connected; NotConnected (mkDialError true true "i/o timeout")] in
  exists c,
    run (oneByOne conns) (scanPorts "scan-1" "10.0.0.5" [22; 81]%Z) = Some c
    /\ sem c = 0
    /\ step (Send 0) c = None.
Proof.
  intros conns.
  let v := eval vm_compute in
             (run (oneByOne conns)
                (scanPorts "scan-1" "10.0.0.5" [22; 81]%Z)) in
  match v with
  | Some ?c =>
      assert (Hrun : run (oneByOne conns)
                       (scanPorts "scan-1" "10.0.0.5" [22; 81]%Z) = Some c)
        by (vm_compute; reflexivity);
      exists c
  end.
  split; [exact Hrun|].
  destruct (closed_after_all_finished _ _ _ _ _ Hrun eq_refl)
    as (_ & Hsem & Hstep).
  split; [exact Hsem|]. vm_compute. reflexivity.
Defined.

(** X9. A goroutine that has its result can always put it on the channel:
    the buffer, made for as many results as there are ports, is never
    full, so a semaphore slot is never held up by a slow publisher. *)
Theorem send_never_blocks (id tgt : string) (ports : list Z)
    (es : list event) (c : pool) (i : nat) (p : Z) (r : ScanResult.t) :
  run es (scanPorts id tgt ports) = Some c ->
  workers c !! i = Some (p, Scanned r) ->
  length (results c) < length ports
  /\ exists c', step (Send i) c = Some c'
                /\ results c' = results c ++ [r]
                /\ published c' = published c.
Proof.
  intros Hrun Hi.
  pose proof (pool_run_inv _ _ _ _ _ _ (scanPorts_inv id tgt ports) Hrun)
    as Hinv.
  pose proof (channel_has_room _ _ _ _ _ _ _ Hinv Hi) as Hroom.
  split.
  { rewrite <- (inv_ports _ _ _ _ Hinv), length_fmap. done. }
  cbn [step]. rewrite Hi.
  apply Nat.ltb_lt in Hroom. rewrite Hroom. eauto.
Qed.

Lemma send_never_blocks_witness :
  exists c c',
    run [Acquire 0; Acquire 1; DialReturns 1 Connected;
         DialReturns 0 Connected; Send 1]
      (scanPorts "scan-1" "10.0.0.5" [22; 80]%Z) = Some c
    /\ step (Send 0) c = Some c'
    /\ ScanResult.Port <$> results c' = [80; 22]%Z.
Proof.
  let v := eval vm_compute in
             (run [Acquire 0; Acquire 1; DialReturns 1 Connected;
                   DialReturns 0 Connected; Send 1]
                (scanPorts "scan-1" "10.0.0.5" [22; 80]%Z)) in
  match v with
  | Some ?c =>
      assert (Hrun : run [Acquire 0; Acquire 1; DialReturns 1 Connected;
                          DialReturns 0 Connected; Send 1]
                       (scanPorts "scan-1" "10.0.0.5" [22; 80]%Z) = Some c)
        by (vm_compute; reflexivity);
      exists c
  end.
  destruct (send_never_blocks _ _ _ _ _ 0 22%Z
              (ScanResult.mk "scan-1" "10.0.0.5" 22 true "") Hrun eq_refl)
    as (_ & c' & Hstep & Hres & _).
  exists c'. split; [exact Hrun|]. split; [exact Hstep|].
  rewrite Hres. vm_compute. reflexivity.
Defined.

Lemma scanPort_verdict (id tgt : string) (p : Z) (conn : dialed) :
  verdict (fst (scanPort id tgt p conn)) = true.
Proof.
  destruct conn as [|err]; [done|]. cbn.
  by destruct (isNetError err && Timeout err).
Qed.

Lemma verdict_step (e : event) (c c' : pool) :
  Forall (fun w => scannedVerdict w = true) (workers c) ->
  Forall (fun r => verdict r = true) (published c ++ results c) ->
  step e c = Some c' ->
  Forall (fun w => scannedVerdict w = true) (workers c')
  /\ Forall (fun r => verdict r = true) (published c' ++ results c').
Proof.
  intros Hw Hr.
  assert (Hset : forall i p w w',
            workers c !! i = Some (p, w) ->
            scannedVerdict (p, w') = true ->
            Forall (fun w => scannedVerdict w = true) (setWorker i w' c)).
  { intros i p w w' Hi Hv.
    destruct (setWorker_split c i p w w' Hi) as (l1 & l2 & E1 & ->).
    rewrite E1 in Hw. rewrite Forall_app, Forall_cons in *.
    destruct Hw as (? & _ & ?). done. }
  destruct e as [i|i conn|i|i|i| |]; cbn [step].
  - destruct (workers c !! i) as [[p []]|] eqn:Hi; try done.
    destruct (sem c <? maxWorkers); [|done]. intros [= <-].
    cbn [workers published results]. split; [|done]. by eapply Hset.
  - destruct (workers c !! i) as [[p []]|] eqn:Hi; try done.
    intros [= <-]. cbn [workers published results]. split; [|done].
    eapply Hset; [done|]. apply scanPort_verdict.
  - destruct (workers c !! i) as [[p []]|] eqn:Hi; try done.
    destruct (length (results c) <? length (workers c)); [|done].
    intros [= <-]. cbn [workers published results].
    split; [by eapply Hset|].
    rewrite app_assoc, Forall_app, Forall_singleton. split; [done|].
    rewrite Forall_forall in Hw.
    apply (Hw (p, Scanned result)). by eapply list_elem_of_lookup_2.
  - destruct (workers c !! i) as [[p []]|] eqn:Hi; try done.
    intros [= <-]. cbn [workers published results]. split; [|done].
    by eapply Hset.
  - destruct (workers c !! i) as [[p []]|] eqn:Hi; try done.
    intros [= <-]. cbn [workers published results]. split; [|done].
    by eapply Hset.
  - destruct (_ && _); [|done]. by intros [= <-].
  - destruct (results c) as [|r rest] eqn:Hres; [done|].
    intros [= <-]. cbn [workers published results]. split; [done|].
    by rewrite <- app_assoc.
Qed.

Lemma verdict_run (es : list event) (c c' : pool) :
  Forall (fun w => scannedVerdict w = true) (workers c) ->
  Forall (fun r => verdict r = true) (published c ++ results c) ->
  run es c = Some c' ->
  Forall (fun r => verdict r = true) (published c' ++ results c').
Proof.
  revert c. induction es as [|e es IH]; intros c Hw Hr; cbn [run].
  - by intros [= <-].
  - destruct (step e c) as [c1|] eqn:He; [|done].
    destruct (verdict_step _ _ _ Hw Hr He). by apply IH.
Qed.

(** X10. Whatever the interleaving, every result that a scan publishes is
    a verdict of [scanPort]: the port is open and the error is empty, or
    it is not open and the error is timeout or connection_refused.  What
    tells a closed port from a filtered one is the error word alone. *)
Theorem published_results_are_verdicts (id tgt : string) (ports : list Z)
    (es : list event) (c : pool) (r : ScanResult.t) :
  run es (scanPorts id tgt ports) = Some c ->
  r ∈ published c ->
  (ScanResult.IsOpen r = true /\ ScanResult.Error r = "")
  \/ (ScanResult.IsOpen r = false
      /\ (ScanResult.Error r = "timeout"
          \/ ScanResult.Error r = "connection_refused")).
Proof.
  intros Hrun Hr.
  assert (Hall : Forall (fun r => verdict r = true)
                   (published c ++ results c)).
  { eapply verdict_run; [| |exact Hrun]; cbn [scanPorts workers published
      results app]; [|done].
    apply Forall_fmap, Forall_forall. done. }
  rewrite Forall_forall in Hall.
  assert (Hv : verdict r = true).
  { apply Hall, elem_of_app. by left. }
  unfold verdict in Hv. destruct (ScanResult.IsOpen r).
  - left. split; [done|]. by apply String.eqb_eq.
  - right. split; [done|]. apply orb_true_iff in Hv as [Hv|Hv];
      apply String.eqb_eq in Hv; auto.
Qed.

Lemma published_results_are_verdicts_witness :
  let conns := [Connected; NotConnected (mkDialError true true "i/o timeout")] in
  let r := ScanResult.mk "scan-1" "10.0.0.5" 81 false "timeout" in
  (ScanResult.IsOpen r = true /\ ScanResult.Error r = "")
  \/ (ScanResult.IsOpen r = false
      /\ (ScanResult.Error r = "timeout"
          \/ ScanResult.Error r = "connection_refused")).
Proof.
  intros conns r.
  let v := eval vm_compute in
             (run (oneByOne conns)
                (scanPorts "scan-1" "10.0.0.5" [22; 81]%Z)) in
  match v with
  | Some ?c =>
      assert (Hrun : run (oneByOne conns)
                       (scanPorts "scan-1" "10.0.0.5" [22; 81]%Z) = Some c)
        by (vm_compute; reflexivity);
      apply (published_results_are_verdicts _ _ _ _ c r Hrun)
  end.
  apply elem_of_cons. right. apply elem_of_cons. left. reflexivity.
Defined.

(** X11. A request that names ports is scanned over exactly those ports,
    a port named twice being probed twice.  Every run of the scan is
    finite, it never blocks before [scanPorts] returns, it can always be
    run on to that point, and when [scanPorts] returns there is one
    published result for each requested port, all of this scan and
    target. *)
Theorem requested_ports_scanned (req : ScanRequest.t) :
  ScanRequest.Ports req <> [] ->
  let c0 := handleScanRequest req in
  c0 = scanPorts (ScanRequest.ID req) (ScanRequest.Target req)
         (ScanRequest.Ports req)
  /\ forall es c,
       run es c0 = Some c ->
       length es <= stepsLeft c0
       /\ (completed c = false -> exists e c', step e c = Some c')
       /\ (exists es' c', run es' c = Some c' /\ completed c' = true)
       /\ (completed c = true ->
           ScanResult.Port <$> published c ≡ₚ ScanRequest.Ports req
           /\ Forall (fun r => ScanResult.ID r = ScanRequest.ID req
                               /\ ScanResult.Target r = ScanRequest.Target req)
                (published c)).
Proof.
  intros Hports. cbn zeta. unfold handleScanRequest.
  destruct (ScanRequest.Ports req) as [|p ps] eqn:Hp; [done|].
  cbn [length Nat.eqb]. split; [done|]. intros es c Hrun.
  pose proof (pool_run_inv _ _ _ _ _ _ (scanPorts_inv _ _ (p :: ps)) Hrun)
    as Hinv.
  split; [pose proof (run_length _ _ _ Hrun); lia|].
  split; [by eapply pool_progress|]. split; [by eapply can_complete|].
  intros Hdone. by apply (completed_results _ _ _ _ Hinv Hdone).
Qed.

Lemma requested_ports_scanned_witness :
  let req := ScanRequest.mk "scan-1" "10.0.0.5" [80; 22; 80]%Z in
  exists c,
    run (oneByOne [Connected; Connected; Connected]) (handleScanRequest req)
    = Some c
    /\ ScanResult.Port <$> published c ≡ₚ [80; 22; 80]%Z.
Proof.
  intros req.
  let v := eval vm_compute in
             (run (oneByOne [Connected; Connected; Connected])
                (handleScanRequest req)) in
  match v with
  | Some ?c =>
      assert (Hrun : run (oneByOne [Connected; Connected; Connected])
                       (handleScanRequest req) = Some c)
        by (vm_compute; reflexivity);
      exists c
  end.
  split; [exact Hrun|].
  assert (Hne : ScanRequest.Ports req <> []) by (vm_compute; discriminate).
  destruct (requested_ports_scanned req Hne) as (_ & H).
  destruct (H _ _ Hrun) as (_ & _ & _ & Hdone).
  apply Hdone. vm_compute. reflexivity.
Defined.

End Channel.

Section Handlers.
Import Analyzer strings.

(** What a record says about the probe it comes from. *)
Lemma detect_identity (h : handler) (net : Net) (info : ServiceInfo.t) :
  ServiceInfo.ScanID (fst (detect h net info)) = ServiceInfo.ScanID info
  /\ ServiceInfo.Target (fst (detect h net info)) = ServiceInfo.Target info
  /\ ServiceInfo.Port (fst (detect h net info)) = ServiceInfo.Port info.
Proof.
  destruct h; cbn [detect].
  - unfold detectSSH. destruct (dial (tcp net)); [done|].
    destruct (reads (tcp net) 0%nat) as [banner err].
    destruct (notEOF err); [done|].
    destruct (Contains banner "SSH"); [|done].
    destruct (Contains banner "OpenSSH"); [|done].
    by destruct (Split banner " ") as [|? [|? ?]].
  - unfold detectHTTP. destruct (http net); [done|]. by destruct (negb _).
  - unfold detectHTTPS. destruct (http net); [done|]. by destruct (negb _).
  - unfold detectMySQL. destruct (dial (tcp net)); [done|].
    destruct (reads (tcp net) 0%nat) as [data err].
    destruct (notEOF err); [done|].
    destruct (4 <? _); [|done].
    destruct (bool_decide _); [|done].
    by destruct (5 <? _)%nat.
  - unfold detectPostgreSQL. destruct (dial (tcp net)); [done|].
    destruct (writes (tcp net) 0%nat); [done|].
    destruct (reads (tcp net) 0%nat) as [data err].
    by destruct (_ || _).
  - unfold detectRedis. destruct (dial (tcp net)); [done|].
    destruct (writes (tcp net) 0%nat); [done|].
    destruct (reads (tcp net) 0%nat) as [response err].
    destruct (notEOF err); [done|].
    destruct (_ || _); [|done].
    destruct (reads (tcp net) 1%nat) as [infoData rerr].
    by destruct (_ && _); destruct (negb _).
  - unfold detectMongoDB. destruct (dial (tcp net)); [done|].
    destruct (writes (tcp net) 0%nat); [done|].
    destruct (reads (tcp net) 0%nat) as [data err].
    by destruct (0 <? _).
  - unfold grabBanner. destruct (dial (tcp net)); [done|].
    destruct (reads (tcp net) 0%nat) as [data1 err1].
    destruct (reads (tcp net) 1%nat) as [data2 err2].
    destruct (notEOF err1 && _); cbn [fst];
      (destruct (0 <? _); [|done]); unfold guessService;
      repeat (destruct (Contains _ _); [done|]);
      by destruct (String.eqb _ _).
Qed.

Lemma detectService_identity (result : ScanResult.t) (net : Net) :
  ServiceInfo.ScanID (fst (detectService result net)) = ScanResult.ID result
  /\ ServiceInfo.Target (fst (detectService result net))
     = ScanResult.Target result
  /\ ServiceInfo.Port (fst (detectService result net))
     = ScanResult.Port result.
Proof.
  unfold detectService.
  destruct (detect_identity (dispatch (ScanResult.Port result)) net
    (match serviceRegistry !! ScanResult.Port result with
     | Some service =>
         setService service
           (ServiceInfo.mk (ScanResult.ID result) (ScanResult.Target result)
              (ScanResult.Port result) "" "" "")
     | None =>
         ServiceInfo.mk (ScanResult.ID result) (ScanResult.Target result)
           (ScanResult.Port result) "" "" ""
     end)) as (-> & -> & ->).
  by destruct (serviceRegistry !! ScanResult.Port result).
Qed.

Lemma string_length_app (a b : string) :
  String.length (a +:+ b) = (String.length a + String.length b)%nat.
Proof.
  induction a as [|c a IH]; [done|].
  rewrite append_cons. cbn [String.length]. by rewrite IH.
Qed.

Lemma hasByte_app (c : ascii) (a b : string) :
  hasByte c (a +:+ b) = hasByte c a || hasByte c b.
Proof.
  induction a as [|x a IH]; [done|]. rewrite append_cons. cbn [hasByte].
  by rewrite IH, orb_assoc.
Qed.

Lemma hasByte_ReplaceAll (c old : ascii) (s new : string) :
  hasByte c new = false ->
  c = old \/ hasByte c s = false ->
  hasByte c (ReplaceAll s old new) = false.
Proof.
  intros Hnew. induction s as [|x s IH]; [done|]. intros H.
  cbn [ReplaceAll]. destruct (Ascii.eqb_spec x old) as [->|Hx].
  - rewrite hasByte_app, Hnew. cbn [orb]. apply IH.
    destruct H as [H|H]; [by left|]. right. cbn [hasByte] in H.
    by apply orb_false_iff in H as [_ H].
  - cbn [hasByte]. destruct H as [->|H].
    + apply orb_false_iff. split; [by apply Ascii.eqb_neq|]. apply IH. by left.
    + cbn [hasByte] in H. apply orb_false_iff in H as [H1 H2].
      rewrite H1. cbn [orb]. apply IH. by right.
Qed.

Lemma hasByte_substring (c : ascii) (n m : nat) (s : string) :
  hasByte c s = false -> hasByte c (String.substring n m s) = false.
Proof.
  revert n m. induction s as [|x s IH]; intros n m H.
  - by destruct n, m.
  - cbn [hasByte] in H. apply orb_false_iff in H as [H1 H2].
    destruct n as [|n]; [destruct m as [|m]|]; cbn [String.substring];
      [done| |by apply IH].
    cbn [hasByte]. rewrite H1. cbn [orb]. by apply IH.
Qed.

Lemma length_substring (m : nat) (s : string) :
  (m <= String.length s)%nat ->
  String.length (String.substring 0 m s) = m.
Proof.
  revert m. induction s as [|x s IH]; intros [|m] H; cbn in *; try done.
  - lia.
  - rewrite IH; lia.
Qed.

Lemma Banner_guessService (l : string) (info : ServiceInfo.t) :
  ServiceInfo.Banner (guessService l info) = ServiceInfo.Banner info.
Proof.
  unfold guessService. repeat (destruct (Contains l _); [done|]).
  by destruct (String.eqb _ _).
Qed.

(** The banner as [grabBanner] cleans it up. *)
Lemma cleaned_banner (data : string) :
  let banner := ReplaceAll (ReplaceAll (TrimSpace data) "013" "") "010" " " in
  let banner := if 200 <? len banner
                then String.substring 0 200 banner +:+ "..."
                else banner in
  hasByte "013" banner = false /\ hasByte "010" banner = false
  /\ len banner <= 203.
Proof.
  cbn zeta.
  set (b := ReplaceAll (ReplaceAll (TrimSpace data) "013" "") "010" " ").
  assert (Hcr : hasByte "013" b = false).
  { apply hasByte_ReplaceAll; [done|]. right.
    apply hasByte_ReplaceAll; [done|]. by left. }
  assert (Hlf : hasByte "010" b = false).
  { apply hasByte_ReplaceAll; [done|]. by left. }
  unfold len. destruct (Z.ltb_spec 200 (Z.of_nat (String.length b))) as [H|H].
  - rewrite !hasByte_app, !hasByte_substring by done.
    rewrite string_length_app, length_substring by lia. cbn.
    repeat split; lia.
  - repeat split; [done|done|lia].
Qed.

(** X12. The banner that the generic handler records is one line of at most
    203 bytes: whatever the server sends, the handler leaves the record as
    it is, or sets a banner without carriage return and line feed that is
    cut to 200 bytes and three dots. *)
Theorem grabBanner_banner_clean (c : Conn) (info : ServiceInfo.t) :
  let info' := fst (grabBanner c info) in
  info' = info
  \/ (hasByte "013" (ServiceInfo.Banner info') = false
      /\ hasByte "010" (ServiceInfo.Banner info') = false
      /\ len (ServiceInfo.Banner info') <= 203).
Proof.
  cbn zeta. unfold grabBanner. destruct (dial c); [by left|].
  destruct (reads c 0%nat) as [data1 err1].
  destruct (reads c 1%nat) as [data2 err2].
  destruct (notEOF err1 && _); cbn [fst];
    (destruct (0 <? _); [|by left]); right;
    rewrite Banner_guessService; cbn [ServiceInfo.Banner setBanner];
    apply cleaned_banner.
Qed.

Lemma versionLoop_run (v rest : string) (i e : nat) :
  hasByte zero v = false ->
  versionLoop (v +:+ String zero rest) i e
  = match v with
    | EmptyString => e
    | String _ _ => (i + String.length v - 1)%nat
    end.
Proof.
  revert i e. induction v as [|b v IH]; intros i e H; [done|].
  cbn [hasByte] in H. apply orb_false_iff in H as [Hb Hv].
  rewrite append_cons. cbn [versionLoop]. rewrite Hb, IH by done.
  destruct v; cbn [String.length]; lia.
Qed.

Lemma substring_all (s : string) :
  String.substring 0 (String.length s) s = s.
Proof. induction s as [|c s IH]; [done|]. cbn. by rewrite IH. Qed.

Lemma substring_more (n : nat) (s : string) :
  (String.length s <= n)%nat -> String.substring 0 n s = s.
Proof.
  revert n. induction s as [|c s IH]; intros [|n] H; cbn in *;
    try done; try lia.
  rewrite IH; [done|lia].
Qed.

Lemma substring_app_l (m : nat) (a b : string) :
  (m <= String.length a)%nat ->
  String.substring 0 m (a +:+ b) = String.substring 0 m a.
Proof.
  revert m. induction a as [|c a IH]; intros [|m] H;
    rewrite ?append_cons, ?append_nil_l; cbn [String.length] in H.
  - by destruct b.
  - lia.
  - done.
  - cbn [String.substring]. rewrite IH; [done|lia].
Qed.

(** X13. The MySQL handler reads the server version out of the handshake
    one byte short: for a packet of protocol 10 whose version string, of
    two bytes or more, ends at a zero byte, the recorded version is that
    string without its last byte. *)
Theorem mysql_version_one_byte_short (c : Conn) (info : ServiceInfo.t)
    (b0 b1 b2 b3 : ascii) (v rest : string) (err : option error) :
  let data := String b0 (String b1 (String b2 (String b3
                (String (ascii_of_nat 10) (v +:+ String zero rest))))) in
  dial c = None ->
  reads c 0%nat = (data, err) ->
  notEOF err = false ->
  (String.length data <= 1024)%nat ->
  hasByte zero v = false ->
  (2 <= String.length v)%nat ->
  let info' := fst (detectMySQL c info) in
  let version := String.substring 0 (String.length v - 1) v in
  ServiceInfo.Service info' = "MySQL"
  /\ ServiceInfo.Version info' = version
  /\ ServiceInfo.Banner info' = "MySQL " +:+ version
  /\ String.length (ServiceInfo.Version info') = (String.length v - 1)%nat.
Proof.
  intros data Hdial Hread Herr Hlen Hv H2. cbn zeta.
  unfold detectMySQL. rewrite Hdial, Hread, Herr.
  unfold buf. rewrite (substring_more 1024 data Hlen).
  assert (H4 : (4 <? len data) = true).
  { apply Z.ltb_lt. unfold len, data. cbn [String.length]. lia. }
  rewrite H4. unfold data at 1. cbn [String.get].
  rewrite bool_decide_eq_true_2 by done.
  assert (Hsub : String.substring 5 (String.length data - 5) data
                 = v +:+ String zero rest).
  { unfold data. cbn [String.length String.substring Nat.sub].
    rewrite Nat.sub_0_r. apply substring_all. }
  rewrite Hsub, versionLoop_run by done.
  destruct v as [|x v]; [cbn in H2; lia|].
  assert (H5 : (5 <? 5 + String.length (String x v) - 1)%nat = true).
  { apply Nat.ltb_lt. lia. }
  rewrite H5. cbn [fst ServiceInfo.Service ServiceInfo.Version
    ServiceInfo.Banner setBanner setVersion setService].
  assert (Hver : String.substring 5
                   (5 + String.length (String x v) - 1 - 5) data
                 = String.substring 0 (String.length (String x v) - 1)
                     (String x v)).
  { unfold data.
    replace (5 + String.length (String x v) - 1 - 5)%nat
      with (String.length (String x v) - 1)%nat by lia.
    cbn [String.substring]. apply substring_app_l. lia. }
  rewrite Hver. repeat split. apply length_substring. lia.
Qed.

Lemma mysql_version_one_byte_short_witness :
  let header := fun s => String "J" (String zero (String zero (String zero
                           (String (ascii_of_nat 10) s)))) in
  let c := mkConn None
             (fun _ => (header ("8.0.32" +:+ String zero "rest"), None))
             (fun _ => None) in
  ServiceInfo.Version
    (fst (detectMySQL c (ServiceInfo.mk "scan-1" "10.0.0.5" 3306 "MySQL" "" "")))
  = "8.0.3".
Proof.
  intros header c.
  refine (proj1 (proj2
    (mysql_version_one_byte_short c
       (ServiceInfo.mk "scan-1" "10.0.0.5" 3306 "MySQL" "" "")
       "J" zero zero zero "8.0.32" "rest" None _ _ _ _ _ _))).
  - reflexivity.
  - reflexivity.
  - reflexivity.
  - vm_compute. lia.
  - reflexivity.
  - vm_compute. lia.
Defined.

Lemma unlisted_port_generic (port : Z) :
  serviceRegistry !! port = None -> dispatch port = Generic.
Proof.
  intros Hnone. unfold dispatch.
  repeat match goal with
  | |- context [?p =? ?k] =>
      destruct (Z.eqb_spec p k) as [->|?]; [by vm_compute in Hnone|]
  end.
  done.
Qed.

Lemma len_not_empty (s : string) : s <> "" -> (0 <? len s) = true.
Proof.
  unfold len. destruct s; [done|]. cbn [String.length].
  intros _. apply Z.ltb_lt. lia.
Qed.

(** X14. A port outside the table.  An open port that the table of the
    detector does not list goes to the generic handler.  The data that
    the handler looks at is what its first read returns or, when that
    read fails with no data, what the read after the line break returns.
    When the handler cannot connect or has no data, the record published
    has no service name, no banner and no version.  Otherwise, for data
    of ASCII bytes, its banner is the data, trimmed, without carriage
    returns, with a space for every line feed and cut after 200 bytes,
    and its service name is that of the first keyword, in the order
    [ftp], [smtp], [pop3], [imap], [http], [ssh], that the banner
    contains when lower-cased, and [Unknown] when it contains none. *)
Theorem unlisted_port_service (result : ScanResult.t) (net : Net) :
  serviceRegistry !! ScanResult.Port result = None ->
  json.isASCII (buf (fst (reads (tcp net) 0%nat))) = true ->
  json.isASCII (buf (fst (reads (tcp net) 1%nat))) = true ->
  let first := reads (tcp net) 0%nat in
  let data :=
    if notEOF (snd first) && (len (buf (fst first)) =? 0)
    then buf (fst (reads (tcp net) 1%nat))
    else buf (fst first) in
  let cleaned := ReplaceAll (ReplaceAll (TrimSpace data) "013" "") "010" " " in
  let banner :=
    if 200 <? len cleaned then String.substring 0 200 cleaned +:+ "..."
    else cleaned in
  let lower := ToLower banner in
  let record service banner :=
    ServiceInfo.mk (ScanResult.ID result) (ScanResult.Target result)
      (ScanResult.Port result) service "" banner in
  let info := fst (detectService result net) in
  dispatch (ScanResult.Port result) = Generic
  /\ (dial (tcp net) <> None \/ data = "" -> info = record "" "")
  /\ (dial (tcp net) = None -> data <> "" ->
      info
      = record
          (if Contains lower "ftp" then "FTP"
           else if Contains lower "smtp" then "SMTP"
           else if Contains lower "pop3" then "POP3"
           else if Contains lower "imap" then "IMAP"
           else if Contains lower "http" then "HTTP"
           else if Contains lower "ssh" then "SSH"
           else "Unknown")
          banner)
  /\ (ServiceInfo.Service info = ""
      \/ ServiceInfo.Service info ∈ keywordNames
      \/ ServiceInfo.Service info = "Unknown").
Proof.
  intros Hnone _ _. cbn zeta.
  pose proof (unlisted_port_generic _ Hnone) as Hg.
  split; [done|]. unfold detectService. rewrite Hnone, Hg. cbn [detect].
  unfold grabBanner.
  destruct (reads (tcp net) 0%nat) as [data1 err1].
  destruct (reads (tcp net) 1%nat) as [data2 err2]. cbn [fst snd].
  split; [|split].
  - intros [Hdial|Hdata].
    + by destruct (dial (tcp net)).
    + destruct (dial (tcp net)); [done|].
      destruct (notEOF err1 && (len (buf data1) =? 0)); cbn [fst];
        by rewrite Hdata.
  - intros -> Hdata.
    destruct (notEOF err1 && (len (buf data1) =? 0)); cbn [fst];
      rewrite (len_not_empty _ Hdata); unfold guessService;
      repeat (destruct (Contains _ _); [done|]); done.
  - destruct (dial (tcp net)); [by left|].
    destruct (notEOF err1 && _); cbn [fst];
      (destruct (0 <? _); [|by left]); right; unfold guessService,
      keywordNames;
      repeat (destruct (Contains _ _);
              [left; cbn; rewrite !elem_of_cons; tauto|]);
      by right.
Qed.

(** A server on port 9000 that greets as an FTP server does, whose
    greeting also names http; a server that says nothing until it gets a
    line break, and then greets as a mail server; and nobody there. *)
Lemma unlisted_port_service_witness :
  let result := ScanResult.mk "scan-1" "10.0.0.5" 9000 true "" in
  let ftp := mkNet (greets ("220 ProFTPD ready, see http://example.org"
                            +:+ CRLF) None)
               (GetFails (Err "refused")) in
  let smtp := mkNet (mkConn None
                       (fun k => match k with
                                 | O => ("", Some (Err "i/o timeout"))
                                 | _ => ("220 mail ESMTP" +:+ CRLF, None)
                                 end)
                       (fun _ => None))
                (GetFails (Err "refused")) in
  fst (detectService result ftp)
  = ServiceInfo.mk "scan-1" "10.0.0.5" 9000 "FTP" ""
      "220 ProFTPD ready, see http://example.org"
  /\ fst (detectService result smtp)
     = ServiceInfo.mk "scan-1" "10.0.0.5" 9000 "SMTP" "" "220 mail ESMTP"
  /\ fst (detectService result unreachable)
     = ServiceInfo.mk "scan-1" "10.0.0.5" 9000 "" "" "".
Proof.
  intros result ftp smtp. split; [|split].
  - destruct (unlisted_port_service result ftp eq_refl eq_refl eq_refl)
      as (_ & _ & H & _).
    exact (H eq_refl ltac:(discriminate)).
  - destruct (unlisted_port_service result smtp eq_refl eq_refl eq_refl)
      as (_ & _ & H & _).
    exact (H eq_refl ltac:(discriminate)).
  - destruct (unlisted_port_service result unreachable
                eq_refl eq_refl eq_refl) as (_ & H & _).
    apply H. left. discriminate.
Defined.

End Handlers.

Section Wire.
Import json.

Lemma coerceFrom_ascii (s : string) :
  isASCII s = true -> coerceFrom 0 s = s.
Proof.
  unfold isASCII. induction s as [|c s IH]; [done|].
  cbn [list_ascii_of_string forallb]. intros [Hc Hs]%andb_true_iff.
  cbn [coerceFrom runeSize]. rewrite Hc. by rewrite IH.
Qed.

Lemma coerce_empty (s : string) : coerce s = "" -> s = "".
Proof.
  destruct s as [|c s]; [done|]. unfold coerce. cbn [coerceFrom].
  by destruct (runeSize _).
Qed.

Lemma service_round_trip (info : Analyzer.ServiceInfo.t) :
  UnmarshalServiceInfo (MarshalServiceInfo info)
  = Some (models.ServiceInfo.mk ""
            (coerce (Analyzer.ServiceInfo.ScanID info))
            (coerce (Analyzer.ServiceInfo.Target info))
            (Analyzer.ServiceInfo.Port info)
            (coerce (Analyzer.ServiceInfo.Service info))
            (coerce (Analyzer.ServiceInfo.Version info))
            (coerce (Analyzer.ServiceInfo.Banner info))).
Proof.
  unfold MarshalServiceInfo.
  destruct (String.eqb_spec (Analyzer.ServiceInfo.Version info) "")
    as [->|Hv];
    destruct (String.eqb_spec (Analyzer.ServiceInfo.Banner info) "")
      as [->|Hb]; reflexivity.
Qed.

(** X15. A service record on the wire.  The reporter reads every field of
    the record that the analyzer publishes: the scan id, the target, the
    port, the service name under its own field name, the version and the
    banner, left out of the message when empty and read back as empty.
    Each string arrives as the analyzer had it up to the bytes that are
    not valid UTF-8, which arrive as U+FFFD; a string of bytes below 0x80
    arrives unchanged.  The record's own id is empty. *)
Theorem service_record_on_the_wire (info : Analyzer.ServiceInfo.t) :
  UnmarshalServiceInfo (MarshalServiceInfo info)
  = Some (models.ServiceInfo.mk ""
            (coerce (Analyzer.ServiceInfo.ScanID info))
            (coerce (Analyzer.ServiceInfo.Target info))
            (Analyzer.ServiceInfo.Port info)
            (coerce (Analyzer.ServiceInfo.Service info))
            (coerce (Analyzer.ServiceInfo.Version info))
            (coerce (Analyzer.ServiceInfo.Banner info)))
  /\ (forall s, isASCII s = true -> coerce s = s)
  /\ (forall s, coerce s = "" <-> s = "").
Proof.
  split; [apply service_round_trip|]. split; [apply coerceFrom_ascii|].
  intros s. split; [apply coerce_empty|]. by intros ->.
Qed.

Lemma probe_round_trip (r : Scanner.ScanResult.t) :
  UnmarshalProbe (publishResult r)
  = Some (Analyzer.ScanResult.mk (coerce (Scanner.ScanResult.ID r))
            (coerce (Scanner.ScanResult.Target r))
            (Scanner.ScanResult.Port r) (Scanner.ScanResult.IsOpen r)
            (coerce (Scanner.ScanResult.Error r))).
Proof.
  unfold publishResult, MarshalScanResult.
  cbn [Scanner.ScanResult.ID Scanner.ScanResult.Target
       Scanner.ScanResult.Port Scanner.ScanResult.IsOpen
       Scanner.ScanResult.Error].
  destruct (String.eqb_spec (coerce (Scanner.ScanResult.Error r)) "")
    as [E|E].
  - rewrite E. reflexivity.
  - reflexivity.
Qed.

(** X16. From the scanner to the analyzer.  The message that the scanner
    publishes for a probe is read by the analyzer with every field as it
    was written, the scan id and the target up to bytes that are not valid
    UTF-8, and the analyzer fingerprints the port exactly when the probe
    connected; the service record it then builds carries the scan id, the
    target and the port of the probe, whatever the handler reads from the
    network. *)
Theorem fingerprint_iff_connected (id tgt : string) (port : Z)
    (conn : Scanner.dialed) (net : Analyzer.Net) :
  let result := fst (Scanner.scanPort id tgt port conn) in
  UnmarshalProbe (publishResult result)
  = Some (Analyzer.ScanResult.mk (coerce id) (coerce tgt) port
            (Scanner.ScanResult.IsOpen result)
            (Scanner.ScanResult.Error result))
  /\ match conn with
     | Scanner.Connected =>
         exists info log,
           Detector.Subscribe (publishResult result) net = Some (info, log)
           /\ Analyzer.ServiceInfo.ScanID info = coerce id
           /\ Analyzer.ServiceInfo.Target info = coerce tgt
           /\ Analyzer.ServiceInfo.Port info = port
     | Scanner.NotConnected _ =>
         Detector.Subscribe (publishResult result) net = None
     end.
Proof.
  cbn zeta. unfold Detector.Subscribe.
  rewrite probe_round_trip. split.
  { destruct conn as [|err]; [done|]. cbn.
    by destruct (Scanner.isNetError err && Scanner.Timeout err). }
  destruct conn as [|err]; cbn [mbind option_bind].
  - unfold Analyzer.onScanResult. cbn [Scanner.scanPort fst
      Scanner.ScanResult.IsOpen Analyzer.ScanResult.IsOpen
      Scanner.ScanResult.ID Scanner.ScanResult.Target
      Scanner.ScanResult.Port Scanner.ScanResult.Error].
    set (r := Analyzer.ScanResult.mk (coerce id) (coerce tgt) port true _).
    exists (fst (Analyzer.detectService r net)),
           (snd (Analyzer.detectService r net)).
    split; [by destruct (Analyzer.detectService r net)|].
    apply (detectService_identity r net).
  - reflexivity.
Qed.

End Wire.

Section Pipeline.
Import Reporter models.

Lemma fromScanner_stateless (result : ScanResult.t) :
  fromScanner (ScanResultMsg result) -> stateless result.
Proof.
  intros H. destruct (H result eq_refl) as [r Hr].
  unfold json.publishResult, json.MarshalScanResult in Hr.
  destruct (String.eqb _ "");
    vm_compute in Hr; injection Hr as <-; done.
Qed.

Lemma stateless_filters (rs : list ScanResult.t) :
  Forall stateless rs -> filter isOpen rs = [] /\ filter isClosed rs = [].
Proof.
  induction 1 as [|r rs [_ Hr] _ [IH1 IH2]]; [done|].
  rewrite !filter_cons.
  rewrite decide_False by (unfold isOpen; by rewrite Hr).
  by rewrite decide_False by (unfold isClosed; by rewrite Hr).
Qed.

Lemma stateless_report (now : Z) (a : ScanAggregator) :
  scanID a = "" -> Forall stateless (results a) ->
  emptyReport (buildReport now a).
Proof.
  intros Hid Hrs. destruct (stateless_filters _ Hrs) as [Ho Hc].
  unfold emptyReport. rewrite open_port_latest_service, Ho.
  cbn [ScanID buildReport Statistics ScanStatistics.OpenPorts
       ScanStatistics.ClosedPorts]. unfold countResults.
  destruct (countResults_from (buildServiceMap (services a)) (results a)
              (mkCounting [] 0 0)) as (_ & H1 & H2).
  cbn zeta in H1, H2. rewrite H1, H2, Ho, Hc. done.
Qed.

Lemma heap_update (P : ScanAggregator -> Prop) (p : nat)
    (f : ScanAggregator -> ScanAggregator) (st : state) :
  (forall a, P a -> P (f a)) ->
  Forall P (heap st) -> Forall P (heap (update p f st)).
Proof.
  intros Hf Hh. unfold update. destruct (heap st !! p) as [a|] eqn:Ha; [|done].
  cbn [heap setHeap]. apply Forall_insert; [done|].
  apply Hf. by eapply Forall_lookup_1.
Qed.

Lemma scanner_step_inv (e : event) (c c' : config) :
  fromScanner e -> scannerInv c -> step e c = Some c' -> scannerInv c'.
Proof.
  intros Hfrom [Hreg Hheap Hthr Hprod].
  destruct c as [st ts]. cbn [mem threads] in *.
  destruct e as [d|result|service|p|i]; cbn [step mem threads].
  - destruct (0 <=? d); [|done]. by intros [= <-].
  - apply fromScanner_stateless in Hfrom as Hres.
    unfold lookupOrCreate.
    destruct (scanAggregators st !! ScanResult.ScanID result) as [p|] eqn:Hp;
      intros [= <-]; split; cbn [mem threads scanAggregators heap produced];
      try done.
    + apply Forall_app. split; [done|]. by apply Forall_singleton.
    + intros id p. destruct (decide (id = ScanResult.ScanID result)) as [->|Hne].
      * intros _. apply Hres.
      * rewrite lookup_insert_ne by done. apply Hreg.
    + apply Forall_app. split; [done|]. apply Forall_singleton.
      split; [apply Hres|done].
    + apply Forall_app. split; [done|]. by apply Forall_singleton.
  - destruct (scanAggregators st !! ServiceInfo.ScanID service);
      intros [= <-]; split; cbn [mem threads]; try done.
    apply Forall_app. split; [done|]. by apply Forall_singleton.
  - destruct (fireTimer p st) as [[id st1]|] eqn:Hf; [|done].
    intros [= <-]. unfold fireTimer in Hf.
    destruct (heap st !! p) as [a|]; [|done].
    destruct (timer a); try done. destruct (_ <=? _); [|done].
    injection Hf as <- <-. split; cbn [mem threads].
    + by rewrite (proj1 (update_fields _ _ _)).
    + apply (heap_update (fun a => scanID a = "" /\ _)); [|done].
      by intros a' [? ?].
    + apply Forall_app. split; [done|]. by apply Forall_singleton.
    + by rewrite (proj1 (proj2 (update_fields _ _ _))).
  - destruct (ts !! i) as [t|] eqn:Hi; [|done].
    pose proof (Forall_lookup_1 _ _ _ _ Hthr Hi) as Ht.
    assert (Hdel : Forall statelessThread (delete i ts)).
    { by apply Forall_delete. }
    assert (Hins : forall t', statelessThread t' ->
                              Forall statelessThread (<[i := t']> ts)).
    { intros t' Ht'. by apply Forall_insert. }
    destruct t as [result p|result count|q|id|service p]; cbn [exec].
    + unfold addResult. intros [= <-]. split; cbn [mem threads].
      * by rewrite (proj1 (update_fields _ _ _)).
      * apply (heap_update (fun a => scanID a = "" /\ _)); [|done].
        intros a' [? ?]. split; [done|]. cbn [results appendResult].
        apply Forall_app. split; [done|]. by apply Forall_singleton.
      * by apply Hins.
      * by rewrite (proj1 (proj2 (update_fields _ _ _))).
    + destruct (maxResultsWait <=? count); [|by intros [= <-]].
      unfold claimOnThreshold.
      destruct (scanAggregators st !! ScanResult.ScanID result) as [agg|];
        [|by intros [= <-]].
      intros [= <-]. split; cbn [mem threads scanAggregators heap produced
        setAggregators].
      * intros id p Hp. apply lookup_delete_Some in Hp as [_ Hp].
        rewrite ?(proj1 (update_fields _ _ _)) in Hp. by eapply Hreg.
      * apply (heap_update (fun a => scanID a = "" /\ _)); [|done].
        by intros a' [? ?].
      * by apply Hins.
      * by rewrite (proj1 (proj2 (update_fields _ _ _))).
    + intros [= <-]. unfold generateReport.
      destruct (heap st !! q) as [a|] eqn:Ha; split; cbn [mem threads
        scanAggregators heap produced]; try done.
      apply Forall_app. split; [done|]. apply Forall_singleton. cbn [snd].
      destruct (Forall_lookup_1 _ _ _ _ Hheap Ha) as [H1 H2].
      by apply stateless_report.
    + unfold claimOnTimer.
      destruct (scanAggregators st !! id) as [agg|]; [|by intros [= <-]].
      intros [= <-]. split; cbn [mem threads scanAggregators heap produced
        setAggregators]; try done.
      * intros id' p Hp. apply lookup_delete_Some in Hp as [_ Hp].
        by eapply Hreg.
      * by apply Hins.
    + intros [= <-]. split; cbn [mem threads].
      * by rewrite (proj1 (update_fields _ _ _)).
      * apply (heap_update (fun a => scanID a = "" /\ _)); [|done].
        by intros a' [? ?].
      * done.
      * by rewrite (proj1 (proj2 (update_fields _ _ _))).
Qed.

Lemma scanner_run_inv (es : list event) (c c' : config) :
  Forall fromScanner es -> scannerInv c -> run es c = Some c' ->
  scannerInv c'.
Proof.
  revert c. induction es as [|e es IH]; intros c Hes Hinv; cbn [run].
  - by intros [= <-].
  - apply Forall_cons in Hes as [He Hes].
    destruct (step e c) as [c1|] eqn:Hstep; [|done].
    apply IH; [done|]. by eapply scanner_step_inv.
Qed.

(** X17. The scanner and the reporter do not agree on the message.  The
    scanner writes the scan id under the key of the result's own id and
    writes no state; the reporter takes the scan id and the state from two
    keys that the message does not have.  So when all the results of a
    run are messages of the scanner, whatever the schedule: every
    aggregate is under the empty scan id, every report has the empty scan
    id, lists no open port and counts none open and none closed, and a
    service record with a scan id that is not empty is dropped. *)
Theorem scanner_results_reported_without_ports (es : list event)
    (c : config) :
  Forall fromScanner es ->
  run es start = Some c ->
  (forall id p, scanAggregators (mem c) !! id = Some p -> id = "")
  /\ (forall p report, (p, report) ∈ produced (mem c) ->
        ScanID report = "" /\ OpenPorts report = []
        /\ ScanStatistics.OpenPorts (Statistics report) = 0
        /\ ScanStatistics.ClosedPorts (Statistics report) = 0)
  /\ (forall service,
        ServiceInfo.ScanID service <> "" ->
        handleServiceDetected service (mem c) = mem c
        /\ step (ServiceDetectedMsg service) c = Some c).
Proof.
  intros Hes Hrun.
  assert (Hstart : scannerInv start) by (split; cbn; done).
  destruct (scanner_run_inv _ _ _ Hes Hstart Hrun)
    as [Hreg Hheap Hthr Hprod].
  split; [done|]. split.
  - intros p report Hin. rewrite Forall_forall in Hprod.
    exact (Hprod _ Hin).
  - intros service Hne.
    assert (Hnone : scanAggregators (mem c) !! ServiceInfo.ScanID service
                    = None).
    { destruct (scanAggregators (mem c) !! ServiceInfo.ScanID service)
        as [p|] eqn:Hp; [|done]. by apply Hreg in Hp. }
    unfold handleServiceDetected. cbn [step]. by rewrite Hnone.
Qed.

(** The probe of port 22 connects; the reporter, thirty seconds after the
    message, reports one port and none open. *)
Lemma scanner_results_reported_without_ports_witness :
  let sent := fst (Scanner.scanPort "scan-1" "10.0.0.5" 22
                     Scanner.Connected) in
  let result := ScanResult.mk "scan-1" "" "10.0.0.5" 22 "" "" "" in
  let es := [ScanResultMsg result; Run 0; Run 0; Tick resultTimeout;
             TimerFires 0; Run 0; Run 0] in
  json.UnmarshalScanResult (json.publishResult sent) = Some result
  /\ exists c,
       run es start = Some c
       /\ (Statistics ∘ snd) <$> produced (mem c) = [ScanStatistics.mk 1 0 0]
       /\ forall p report, (p, report) ∈ produced (mem c) ->
                           OpenPorts report = [].
Proof.
  intros sent result es. split; [vm_compute; reflexivity|].
  assert (Hfrom : Forall fromScanner es).
  { unfold es.
    repeat (apply Forall_cons; split;
            [intros r0 H;
             first [discriminate
                   | injection H as <-; exists sent; vm_compute; reflexivity]
            |]).
    apply Forall_nil_2. }
  let v := eval vm_compute in (run es start) in
  match v with
  | Some ?c =>
      assert (Hrun : run es start = Some c) by (vm_compute; reflexivity);
      exists c
  end.
  split; [exact Hrun|]. split; [vm_compute; reflexivity|].
  intros p report Hin.
  destruct (scanner_results_reported_without_ports es _ Hfrom Hrun)
    as (_ & H & _).
  exact (proj1 (proj2 (H p report Hin))).
Defined.

(** X18. From the scanner through the analyzer to the reporter.  The
    service record that the analyzer builds for an open port of a scan
    carries the id of the scan; the reporter, whose aggregates of scanner
    results are all under the empty id, has no aggregate for it and drops
    the record.  So for a scan with an id, the service found for a port
    reaches no report. *)
Theorem service_record_of_scan_dropped (es : list event) (c : config)
    (id tgt : string) (port : Z) (net : Analyzer.Net)
    (info : Analyzer.ServiceInfo.t) (log : list Analyzer.io) :
  Forall fromScanner es ->
  run es start = Some c ->
  id <> "" ->
  Detector.Subscribe
    (json.publishResult
       (fst (Scanner.scanPort id tgt port Scanner.Connected))) net
  = Some (info, log) ->
  exists service,
    json.UnmarshalServiceInfo (Detector.publishServiceInfo info)
    = Some service
    /\ ServiceInfo.ScanID service <> ""
    /\ (json.isASCII id = true -> ServiceInfo.ScanID service = id)
    /\ ServiceInfo.Port service = port
    /\ onServiceDetected (Detector.publishServiceInfo info) (mem c) = mem c.
Proof.
  intros Hes Hrun Hid Hsub.
  assert (Hstart : scannerInv start) by (split; cbn; done).
  destruct (scanner_run_inv _ _ _ Hes Hstart Hrun) as [Hreg _ _ _].
  unfold Detector.Subscribe in Hsub. rewrite probe_round_trip in Hsub.
  cbn [mbind option_bind] in Hsub. unfold Analyzer.onScanResult in Hsub.
  cbn [Scanner.scanPort fst Scanner.ScanResult.IsOpen
       Analyzer.ScanResult.IsOpen Scanner.ScanResult.ID
       Scanner.ScanResult.Target Scanner.ScanResult.Port
       Scanner.ScanResult.Error] in Hsub.
  injection Hsub as Hsub.
  match type of Hsub with
  | Analyzer.detectService ?r0 _ = _ => set (r := r0) in *
  end.
  destruct (detectService_identity r net) as (H1 & H2 & H3).
  rewrite Hsub in H1, H2, H3. cbn [fst Analyzer.ScanResult.ID
    Analyzer.ScanResult.Target Analyzer.ScanResult.Port r] in H1, H2, H3.
  unfold Detector.publishServiceInfo, onServiceDetected.
  rewrite service_round_trip. eexists. split; [done|].
  cbn [ServiceInfo.ScanID ServiceInfo.Port]. rewrite H1, H3.
  assert (Hne : json.coerce (json.coerce id) <> "").
  { intros H. by apply coerce_empty, coerce_empty in H. }
  split; [done|]. split.
  { intros Hascii. unfold json.coerce.
    by rewrite !(coerceFrom_ascii _ Hascii). }
  split; [done|].
  unfold handleServiceDetected. cbn [ServiceInfo.ScanID].
  destruct (scanAggregators (mem c) !! json.coerce (json.coerce id))
    as [p|] eqn:Hp; [|done].
  by apply Hreg in Hp.
Qed.

Lemma service_record_of_scan_dropped_witness :
  let net := Analyzer.mkNet
               (Analyzer.greets ("SSH-2.0-OpenSSH_8.9 Ubuntu" +:+ strings.LF)
                  None)
               (Analyzer.GetFails (Analyzer.Err "refused")) in
  let sent := fst (Scanner.scanPort "scan-1" "10.0.0.5" 22
                     Scanner.Connected) in
  let result := ScanResult.mk "scan-1" "" "10.0.0.5" 22 "" "" "" in
  let es := [ScanResultMsg result; Run 0; Run 0] in
  exists c info log,
    run es start = Some c
    /\ Detector.Subscribe (json.publishResult sent) net = Some (info, log)
    /\ Analyzer.ServiceInfo.Service info = "SSH"
    /\ onServiceDetected (Detector.publishServiceInfo info) (mem c) = mem c.
Proof.
  intros net sent result es.
  assert (Hfrom : Forall fromScanner es).
  { unfold es.
    repeat (apply Forall_cons; split;
            [intros r0 H;
             first [discriminate
                   | injection H as <-; exists sent; vm_compute; reflexivity]
            |]).
    apply Forall_nil_2. }
  let v := eval vm_compute in (run es start) in
  match v with
  | Some ?c =>
      assert (Hrun : run es start = Some c) by (vm_compute; reflexivity);
      exists c
  end.
  let v := eval vm_compute in
             (Detector.Subscribe (json.publishResult sent) net) in
  match v with
  | Some (?info, ?log) =>
      assert (Hsub : Detector.Subscribe (json.publishResult sent) net
                     = Some (info, log)) by (vm_compute; reflexivity);
      exists info, log
  end.
  split; [exact Hrun|]. split; [exact Hsub|]. split; [reflexivity|].
  assert (Hid : "scan-1" <> "") by discriminate.
  destruct (service_record_of_scan_dropped es _ "scan-1" "10.0.0.5" 22 net
              _ _ Hfrom Hrun Hid Hsub) as (service & _ & _ & _ & _ & H).
  exact H.
Defined.

End Pipeline.

Section Connecting.
Import MainAgent.

Lemma tryNATS_up (delay : Z) (a : natsAttempt) :
  match tryNATS delay a with
  | (None, calls) =>
      natsUp a = true /\ openConnections calls = 1 /\ slept calls = 0
  | (Some _, calls) =>
      natsUp a = false /\ openConnections calls = 0 /\ slept calls = delay
  end.
Proof.
  unfold tryNATS, natsUp. destruct (Connect a); [cbn; lia|].
  destruct (JetStream a); [cbn; lia|].
  destruct (setupStreams (AddStream a)); cbn; lia.
Qed.

Lemma openConnections_app (l1 l2 : list call) :
  openConnections (l1 ++ l2) = openConnections l1 + openConnections l2.
Proof.
  induction l1 as [|[[?|]|?|[?|]|?|?| |?] l1 IH]; cbn [app openConnections];
    lia.
Qed.

Lemma slept_app (l1 l2 : list call) :
  slept (l1 ++ l2) = slept l1 + slept l2.
Proof.
  induction l1 as [|[?|?|?|?|?| |?] l1 IH]; cbn [app slept]; lia.
Qed.

Lemma connectNATSFrom_spec (config : Config) (world : nat -> natsAttempt)
    (n i : nat) (err : option error) :
  match connectNATSFrom config world n i err with
  | (None, calls) =>
      exists k, (k < n)%nat
        /\ natsUp (world (i + k)%nat) = true
        /\ (forall j, (j < k)%nat -> natsUp (world (i + j)%nat) = false)
        /\ openConnections calls = 1
        /\ slept calls = RetryDelay config * Z.of_nat k
  | (Some g, calls) =>
      (forall j, (j < n)%nat -> natsUp (world (i + j)%nat) = false)
      /\ openConnections calls = 0
      /\ slept calls = RetryDelay config * Z.of_nat n
      /\ attempts g = MaxRetries config
      /\ cause g
         = match n with
           | O => err
           | S m => fst (tryNATS (RetryDelay config) (world (i + m)%nat))
           end
  end.
Proof.
  revert i err. induction n as [|n IH]; intros i err; cbn [connectNATSFrom].
  - split; [intros j Hj; lia|]. split; [done|]. split; [cbn; lia|].
    split; done.
  - pose proof (tryNATS_up (RetryDelay config) (world i)) as Htry.
    destruct (tryNATS (RetryDelay config) (world i)) as [[e|] calls] eqn:Hi.
    + destruct Htry as (Hup & Hopen & Hslept).
      specialize (IH (S i) (Some e)).
      destruct (connectNATSFrom config world n (S i) (Some e))
        as [[g|] rest].
      * destruct IH as (Hall & Ho & Hs & Ha & Hc).
        rewrite openConnections_app, slept_app, Hopen, Hslept, Ho, Hs.
        split.
        { intros [|j] Hj; [by rewrite Nat.add_0_r|].
          replace (i + S j)%nat with (S i + j)%nat by lia. apply Hall. lia. }
        split; [lia|]. split; [lia|]. split; [done|].
        rewrite Hc. destruct n as [|m].
        -- by rewrite Nat.add_0_r, Hi.
        -- by replace (i + S m)%nat with (S i + m)%nat by lia.
      * destruct IH as (k & Hk & Hgood & Hbad & Ho & Hs).
        exists (S k). rewrite openConnections_app, slept_app, Hopen, Hslept,
          Ho, Hs.
        split; [lia|]. split.
        { by replace (i + S k)%nat with (S i + k)%nat by lia. }
        split.
        { intros [|j] Hj; [by rewrite Nat.add_0_r|].
          replace (i + S j)%nat with (S i + j)%nat by lia. apply Hbad. lia. }
        split; lia.
    + destruct Htry as (Hup & Hopen & Hslept). exists 0%nat.
      rewrite Nat.add_0_r. split; [lia|]. split; [done|].
      split; [intros j Hj; lia|]. split; [done|]. lia.
Qed.

(** An attempt that does not come up leaves an error. *)
Lemma tryNATS_error (delay : Z) (a : natsAttempt) :
  natsUp a = false -> fst (tryNATS delay a) <> None.
Proof.
  unfold tryNATS, natsUp. destruct (Connect a); [done|].
  destruct (JetStream a); [done|].
  by destruct (setupStreams (AddStream a)).
Qed.

(** X19. Connecting to the bus.  [connectNATS] makes the attempts in
    order and stops at the first that connects, makes the JetStream
    context and finds or makes the stream; it makes at most [MaxRetries]
    of them and sleeps [RetryDelay] after each one that fails, the last
    one too.  It returns without error exactly when one of the first
    [MaxRetries] attempts is such, and then one connection is open; when
    it gives up, every connection it had made is closed again, and the
    error names [MaxRetries] and wraps the error of the last attempt made,
    which is that of its connect, of its JetStream context or of its
    stream, whichever failed; with no attempt at all it wraps none. *)
Theorem connectNATS_retries (config : Config)
    (world : nat -> natsAttempt) :
  let n := Z.to_nat (MaxRetries config) in
  match connectNATS config world with
  | (None, calls) =>
      exists k, (k < n)%nat
        /\ natsUp (world k) = true
        /\ (forall j, (j < k)%nat -> natsUp (world j) = false)
        /\ openConnections calls = 1
        /\ slept calls = RetryDelay config * Z.of_nat k
  | (Some g, calls) =>
      (forall j, (j < n)%nat -> natsUp (world j) = false)
      /\ openConnections calls = 0
      /\ slept calls = RetryDelay config * Z.of_nat n
      /\ attempts g = MaxRetries config
      /\ (0 < MaxRetries config -> cause g <> None)
      /\ cause g
         = match n with
           | O => None
           | S last =>
               let a := world last in
               match Connect a, JetStream a with
               | Some e, _ => Some e
               | None, Some e => Some e
               | None, None => setupStreams (AddStream a)
               end
           end
  end.
Proof.
  cbn zeta. unfold connectNATS.
  pose proof (connectNATSFrom_spec config world
                (Z.to_nat (MaxRetries config)) 0 None) as H.
  destruct (connectNATSFrom config world _ 0 None) as [[g|] calls].
  - destruct H as (H1 & H2 & H3 & H4 & H5). repeat split; try done.
    + intros Hpos. rewrite H5.
      destruct (Z.to_nat (MaxRetries config)) as [|m] eqn:Hm; [lia|].
      apply tryNATS_error. rewrite Nat.add_0_l. apply H1. lia.
    + rewrite H5. destruct (Z.to_nat (MaxRetries config)) as [|m]; [done|].
      rewrite Nat.add_0_l. unfold tryNATS.
      destruct (Connect (world m)); [done|].
      destruct (JetStream (world m)); [done|].
      by destruct (setupStreams (AddStream (world m))).
  - exact H.
Qed.

Lemma tryDatabase_up (delay : Z) (a : dbAttempt) :
  match tryDatabase delay a with
  | (None, calls) => dbUp a = true /\ slept calls = 0
  | (Some _, calls) => dbUp a = false /\ slept calls = delay
  end.
Proof.
  unfold tryDatabase, dbUp. destruct (Open a); [cbn; lia|].
  destruct (Ping a); cbn; lia.
Qed.

Lemma connectDatabaseFrom_spec (config : Config) (world : nat -> dbAttempt)
    (n i : nat) (err : option error) :
  match connectDatabaseFrom config world n i err with
  | (None, calls) =>
      exists k, (k < n)%nat
        /\ dbUp (world (i + k)%nat) = true
        /\ (forall j, (j < k)%nat -> dbUp (world (i + j)%nat) = false)
        /\ slept calls = RetryDelay config * Z.of_nat k
  | (Some g, calls) =>
      (forall j, (j < n)%nat -> dbUp (world (i + j)%nat) = false)
      /\ slept calls = RetryDelay config * Z.of_nat n
      /\ attempts g = MaxRetries config
      /\ ((0 < n)%nat \/ err <> None -> cause g <> None)
  end.
Proof.
  revert i err. induction n as [|n IH]; intros i err;
    cbn [connectDatabaseFrom].
  - split; [intros j Hj; lia|]. split; [cbn; lia|]. split; [done|].
    intros [?|?]; [lia|done].
  - pose proof (tryDatabase_up (RetryDelay config) (world i)) as Htry.
    destruct (tryDatabase (RetryDelay config) (world i)) as [[e|] calls].
    + destruct Htry as (Hup & Hslept).
      specialize (IH (S i) (Some e)).
      destruct (connectDatabaseFrom config world n (S i) (Some e))
        as [[g|] rest].
      * destruct IH as (Hall & Hs & Ha & Hc).
        rewrite slept_app, Hslept, Hs. split.
        { intros [|j] Hj; [by rewrite Nat.add_0_r|].
          replace (i + S j)%nat with (S i + j)%nat by lia. apply Hall. lia. }
        split; [lia|]. split; [done|]. intros _. apply Hc. by right.
      * destruct IH as (k & Hk & Hgood & Hbad & Hs).
        exists (S k). rewrite slept_app, Hslept, Hs.
        split; [lia|]. split.
        { by replace (i + S k)%nat with (S i + k)%nat by lia. }
        split; [|lia].
        intros [|j] Hj; [by rewrite Nat.add_0_r|].
        replace (i + S j)%nat with (S i + j)%nat by lia. apply Hbad. lia.
    + destruct Htry as (Hup & Hslept). exists 0%nat.
      rewrite Nat.add_0_r. split; [lia|]. split; [done|].
      split; [intros j Hj; lia|]. lia.
Qed.

(** X20. Connecting to the database.  [connectDatabase] opens and pings
    at most [MaxRetries] times, sleeping [RetryDelay] after each failure,
    and returns without error at the first attempt whose open and ping
    both succeed; it gives up exactly when none of the first [MaxRetries]
    attempts does, after [MaxRetries] sleeps, and with no attempt at all
    when [MaxRetries] is not positive. *)
Theorem connectDatabase_retries (config : Config)
    (world : nat -> dbAttempt) :
  let n := Z.to_nat (MaxRetries config) in
  match connectDatabase config world with
  | (None, calls) =>
      exists k, (k < n)%nat
        /\ dbUp (world k) = true
        /\ (forall j, (j < k)%nat -> dbUp (world j) = false)
        /\ slept calls = RetryDelay config * Z.of_nat k
  | (Some g, calls) =>
      (forall j, (j < n)%nat -> dbUp (world j) = false)
      /\ slept calls = RetryDelay config * Z.of_nat n
      /\ attempts g = MaxRetries config
      /\ (0 < MaxRetries config -> cause g <> None)
      /\ (MaxRetries config <= 0 -> calls = [] /\ cause g = None)
  end.
Proof.
  cbn zeta. unfold connectDatabase.
  pose proof (connectDatabaseFrom_spec config world
                (Z.to_nat (MaxRetries config)) 0 None) as H.
  destruct (Z.to_nat (MaxRetries config)) as [|n] eqn:Hn.
  - cbn [connectDatabaseFrom] in *. destruct H as (H1 & H2 & H3 & H4).
    repeat split; try done; lia.
  - destruct (connectDatabaseFrom config world (S n) 0 None)
      as [[g|] calls].
    + destruct H as (H1 & H2 & H3 & H4). repeat split; try done; try lia.
      intros _. apply H4. left. lia.
    + exact H.
Qed.

End Connecting.

Section Scans.
Import MainAgent.

(** X21. A request that is refused leaves no trace.  Behind the CORS
    wrapper, [handleScan] calls neither the database nor the bus exactly
    when the request is not a POST, its body does not decode, or its
    target is empty; the answer is then 204 for the preflight, 405 or 400.
    Every other request opens a transaction and is answered 200 or 500. *)
Theorem refused_request_leaves_no_trace (w : World) (r : Request) :
  let reply := fst (setCORSHeaders handleScan w r) in
  let ops := snd (setCORSHeaders handleScan w r) in
  (ops = []
   <-> Method r <> "POST"
       \/ (exists err, Body r = inr err)
       \/ (exists req, Body r = inl req /\ ScanRequest.Target req = ""))
  /\ (ops = [] ->
      (Method r = "OPTIONS" /\ reply = NoContent)
      \/ (Method r <> "OPTIONS" /\ Method r <> "POST"
          /\ StatusCode reply = 405)
      \/ (Method r = "POST" /\ StatusCode reply = 400))
  /\ (ops <> [] ->
      head ops = Some Begin
      /\ (StatusCode reply = 200 \/ StatusCode reply = 500)).
Proof.
  cbn zeta. unfold setCORSHeaders, handleScan.
  destruct (String.eqb_spec (Method r) "OPTIONS") as [Ho|Ho].
  { rewrite Ho. cbn [fst snd]. split; [|split]; try done.
    - split; [by left|done].
    - intros _. by left. }
  destruct (String.eqb_spec (Method r) "POST") as [Hp|Hp]; cbn [negb].
  2: { cbn [fst snd]. split; [|split]; try done.
       - split; [by left|done].
       - intros _. right. by left. }
  destruct (Body r) as [req|err] eqn:Hb.
  2: { cbn [fst snd]. split; [|split]; try done.
       - split; [right; left; eauto|done].
       - intros _. right. by right. }
  destruct (String.eqb_spec (ScanRequest.Target req) "") as [Ht|Ht].
  { cbn [fst snd]. split; [|split]; try done.
    - split; [right; right; eauto|done].
    - intros _. right. by right. }
  destruct (begin w), (exec w), (commit w), (publish w); cbn [fst snd];
    (split;
     [split; [done|intros [?|[[? ?]|(? & [= <-] & ?)]]; done]|]);
    (split; [done|]); intros _; cbn; auto.
Qed.

(** X22. A scan is queued only once it is recorded.  A request for the
    scanner goes out only after the scan's row has been inserted and
    committed; it carries the id of that row, the target of the request
    and a list of ports that is never empty, the row's [total_ports] being
    its length.  The answer is 200, with that id and the status pending,
    exactly when the publication succeeds; when it fails the committed
    scan is marked failed and the answer is 500. *)
Theorem scan_queued_after_commit (w : World) (r : Request)
    (subject : string) (request : NATSScanRequest.t) :
  Publish subject request ∈ snd (handleScan w r) ->
  let id := NATSScanRequest.ID request in
  let target := NATSScanRequest.Target request in
  let ports := NATSScanRequest.Ports request in
  let recorded :=
    [Begin; InsertScan id target "pending" (Z.of_nat (length ports));
     Commit; Publish "scan.request" request] in
  begin w = None /\ exec w = None /\ commit w = None
  /\ subject = "scan.request" /\ id = uuid w /\ target <> "" /\ ports <> []
  /\ (exists req,
        Body r = inl req /\ target = ScanRequest.Target req
        /\ ports = if decide (ScanRequest.Ports req = []) then defaultPorts
                   else ScanRequest.Ports req)
  /\ match publish w with
     | None =>
         snd (handleScan w r) = recorded ++ [Rollback]
         /\ fst (handleScan w r)
            = OK (ScanResponse.mk id target "pending"
                    "Scan queued successfully" (clock w))
     | Some _ =>
         snd (handleScan w r)
         = recorded ++ [UpdateStatus "failed" id; Rollback]
         /\ fst (handleScan w r) = Error "Failed to queue scan" 500
     end.
Proof.
  unfold handleScan.
  destruct (negb _); [by intros ?%elem_of_nil|].
  destruct (Body r) as [req|err]; [|by intros ?%elem_of_nil].
  destruct (String.eqb_spec (ScanRequest.Target req) "") as [Ht|Ht];
    [by intros ?%elem_of_nil|].
  assert (Hports :
    (if (length (ScanRequest.Ports req) =? 0)%nat then defaultPorts
     else ScanRequest.Ports req)
    = (if decide (ScanRequest.Ports req = []) then defaultPorts
       else ScanRequest.Ports req)
    /\ (if (length (ScanRequest.Ports req) =? 0)%nat then defaultPorts
        else ScanRequest.Ports req) <> []).
  { destruct (ScanRequest.Ports req); cbn; [done|].
    by rewrite decide_False. }
  destruct Hports as [Hp Hne].
  set (ports := if (length (ScanRequest.Ports req) =? 0)%nat
                then defaultPorts else ScanRequest.Ports req) in *.
  clearbody ports.
  destruct (begin w), (exec w), (commit w), (publish w); cbn [fst snd];
    rewrite ?elem_of_cons, ?elem_of_nil; intros H;
    repeat (destruct H as [H|H]; try discriminate); try done;
    injection H as -> ->; cbn zeta; cbn [NATSScanRequest.ID
      NATSScanRequest.Target NATSScanRequest.Ports];
    repeat split; eauto.
Qed.

Lemma scan_queued_after_commit_witness :
  let w := mkWorld "scan-1" 0 None None None None in
  let r := mkRequest "POST" "/scan"
             (inl (ScanRequest.mk "10.0.0.5" [])) in
  let request := NATSScanRequest.mk "scan-1" "10.0.0.5" defaultPorts in
  snd (handleScan w r)
  = [Begin; InsertScan "scan-1" "10.0.0.5" "pending" 17; Commit;
     Publish "scan.request" request; Rollback]
  /\ StatusCode (fst (handleScan w r)) = 200.
Proof.
  intros w r request.
  assert (Hin : Publish "scan.request" request ∈ snd (handleScan w r)).
  { vm_compute. do 3 apply list_elem_of_further. apply list_elem_of_here. }
  destruct (scan_queued_after_commit w r "scan.request" request Hin)
    as (_ & _ & _ & _ & _ & _ & _ & _ & H).
  cbn [publish w] in H. destruct H as [H1 H2]. split; [exact H1|].
  rewrite H2. reflexivity.
Defined.

(** X23. From the main agent to the scanner.  For a request that the main
    agent answers with 200, the scanner, given the request that was
    queued, probes the ports that the client named, or the seventeen
    default ports of the main agent when it named none: the scanner's own
    default is not used.  When the scan returns there is one result for
    each of these ports, each under the scan id of the answer. *)
Theorem accepted_scan_probes_requested_ports (w : World) (r : Request)
    (req : ScanRequest.t) (response : ScanResponse.t) :
  Body r = inl req ->
  fst (handleScan w r) = OK response ->
  let ports := if decide (ScanRequest.Ports req = []) then defaultPorts
               else ScanRequest.Ports req in
  let queued := NATSScanRequest.mk (ScanResponse.ID response)
                  (ScanRequest.Target req) ports in
  Publish "scan.request" queued ∈ snd (handleScan w r)
  /\ length defaultPorts = 17%nat
  /\ forall es c,
       Scanner.run es
         (Scanner.handleScanRequest
            (Scanner.ScanRequest.mk (NATSScanRequest.ID queued)
               (NATSScanRequest.Target queued)
               (NATSScanRequest.Ports queued))) = Some c ->
       Scanner.completed c = true ->
       Scanner.ScanResult.Port <$> Scanner.published c ≡ₚ ports
       /\ Forall (fun result =>
                    Scanner.ScanResult.ID result = ScanResponse.ID response)
            (Scanner.published c).
Proof.
  intros Hb. unfold handleScan. rewrite Hb.
  destruct (negb _); [done|].
  destruct (String.eqb (ScanRequest.Target req) ""); [done|].
  destruct (begin w); [done|]. destruct (exec w); [done|].
  destruct (commit w); [done|]. destruct (publish w); [done|].
  cbn [fst snd]. intros [= <-]. cbn zeta. cbn [ScanResponse.ID].
  assert (Hports :
    (if (length (ScanRequest.Ports req) =? 0)%nat then defaultPorts
     else ScanRequest.Ports req)
    = (if decide (ScanRequest.Ports req = []) then defaultPorts
       else ScanRequest.Ports req)
    /\ (if decide (ScanRequest.Ports req = []) then defaultPorts
        else ScanRequest.Ports req) <> []).
  { destruct (ScanRequest.Ports req); cbn; [done|].
    by rewrite decide_False. }
  destruct Hports as [-> Hne].
  set (ports := if decide (ScanRequest.Ports req = []) then defaultPorts
                else ScanRequest.Ports req) in *.
  clearbody ports.
  split. { do 3 apply list_elem_of_further. apply list_elem_of_here. }
  split; [done|]. intros es c.
  unfold Scanner.handleScanRequest.
  cbn [Scanner.ScanRequest.Ports Scanner.ScanRequest.ID
       Scanner.ScanRequest.Target NATSScanRequest.ID NATSScanRequest.Target
       NATSScanRequest.Ports].
  destruct ports as [|p ports]; [done|]. cbn [length Nat.eqb].
  intros Hrun Hdone.
  pose proof (pool_run_inv _ _ _ _ _ _
                (scanPorts_inv (uuid w) (ScanRequest.Target req)
                   (p :: ports)) Hrun) as Hinv.
  destruct (completed_results _ _ _ _ Hinv Hdone) as [Hperm Hall].
  split; [done|]. eapply Forall_impl; [exact Hall|]. by intros x [? _].
Qed.

Lemma accepted_scan_probes_requested_ports_witness :
  let w := mkWorld "scan-1" 0 None None None None in
  let req := ScanRequest.mk "10.0.0.5" [] in
  let r := mkRequest "POST" "/scan" (inl req) in
  Publish "scan.request"
    (NATSScanRequest.mk "scan-1" "10.0.0.5" defaultPorts)
  ∈ snd (handleScan w r).
Proof.
  intros w req r.
  exact (proj1 (accepted_scan_probes_requested_ports w r req
                  (ScanResponse.mk "scan-1" "10.0.0.5" "pending"
                     "Scan queued successfully" 0) eq_refl eq_refl)).
Defined.

End Scans.

Section Results.
Import MainAgent.

(** X24. Every result message is acknowledged, once, whatever happens to
    it: when it does not decode, when the transaction cannot begin, when
    the insert fails.  So a result that could not be stored is not
    delivered again.  The transaction is committed exactly when the
    message decodes and the begin and the insert succeed, and the counter
    of open ports is touched only then and only for an open port. *)
Theorem result_acknowledged_once (w : World) (data : json.object) :
  let ops := onResult w data in
  length (filter (fun o => isAck o = true) ops) = 1%nat
  /\ (Commit ∈ ops
      <-> is_Some (UnmarshalNATSScanResult data)
          /\ begin w = None /\ exec w = None)
  /\ (forall id, IncrementOpenPorts id ∈ ops ->
        Commit ∈ ops
        /\ exists result,
             UnmarshalNATSScanResult data = Some result
             /\ NATSScanResult.IsOpen result = true
             /\ NATSScanResult.ScanID result = id).
Proof.
  cbn zeta. unfold onResult.
  destruct (UnmarshalNATSScanResult data) as [result|].
  2: { split; [done|]. split.
       - split; [|by intros [[? [=]] _]].
         rewrite elem_of_cons, elem_of_nil. by intros [?|?].
       - intros id. rewrite elem_of_cons, elem_of_nil. by intros [?|?]. }
  destruct (begin w).
  { split; [done|]. split.
    - split; [|by intros (_ & ? & _)].
      rewrite !elem_of_cons, elem_of_nil. by intros [?|[?|?]].
    - intros id. rewrite !elem_of_cons, elem_of_nil. by intros [?|[?|?]]. }
  destruct (exec w).
  { split; [done|]. split.
    - split; [|by intros (_ & _ & ?)].
      rewrite !elem_of_cons, elem_of_nil. by intros [?|[?|[?|[?|?]]]].
    - intros id. rewrite !elem_of_cons, elem_of_nil.
      by intros [?|[?|[?|[?|?]]]]. }
  destruct (NATSScanResult.IsOpen result) eqn:Hopen; cbn [app].
  - split; [done|]. split.
    + split; [intros _; split; [by eexists|done]|].
      intros _. rewrite !elem_of_cons. auto 10.
    + intros id. rewrite !elem_of_cons, elem_of_nil.
      intros [?|[?|[[= ->]|[?|[?|[?|?]]]]]]; try done.
      split; [auto 10|]. by exists result.
  - split; [done|]. split.
    + split; [intros _; split; [by eexists|done]|].
      intros _. rewrite !elem_of_cons. auto 10.
    + intros id. rewrite !elem_of_cons, elem_of_nil.
      by intros [?|[?|[?|[?|[?|?]]]]].
Qed.

(** X25. What the main agent stores for a result of the scanner.  The
    scanner writes the scan id under the key [id] and no state; the main
    agent reads the scan id from [scan_id] and the state from [state].  So
    the row it inserts for a message of the scanner has the empty scan id
    and the empty state, and for an open port the counter it increments
    is that of the scan with the empty id: no call to the database names
    the scan that the result belongs to. *)
Theorem scanner_result_stored_without_scan_id (w : World)
    (r : Scanner.ScanResult.t) :
  let ops := onResult w (json.publishResult r) in
  UnmarshalNATSScanResult (json.publishResult r)
  = Some (NATSScanResult.mk (json.coerce (Scanner.ScanResult.ID r)) ""
            (Scanner.ScanResult.Port r) "" (Scanner.ScanResult.IsOpen r)
            (json.coerce (Scanner.ScanResult.Error r)))
  /\ (forall o id, o ∈ ops -> scanIdOf o = Some id -> id = "")
  /\ (begin w = None -> exec w = None ->
      InsertResult "" (Scanner.ScanResult.Port r) ""
        (Scanner.ScanResult.IsOpen r)
        (json.coerce (Scanner.ScanResult.Error r)) ∈ ops
      /\ (Scanner.ScanResult.IsOpen r = true ->
          IncrementOpenPorts "" ∈ ops)).
Proof.
  cbn zeta.
  assert (Hdec : UnmarshalNATSScanResult (json.publishResult r)
    = Some (NATSScanResult.mk (json.coerce (Scanner.ScanResult.ID r)) ""
              (Scanner.ScanResult.Port r) "" (Scanner.ScanResult.IsOpen r)
              (json.coerce (Scanner.ScanResult.Error r)))).
  { unfold json.publishResult, json.MarshalScanResult.
    cbn [Scanner.ScanResult.ID Scanner.ScanResult.Target
         Scanner.ScanResult.Port Scanner.ScanResult.IsOpen
         Scanner.ScanResult.Error].
    destruct (String.eqb_spec (json.coerce (Scanner.ScanResult.Error r)) "")
      as [E|E].
    - rewrite E. reflexivity.
    - reflexivity. }
  split; [done|]. unfold onResult. rewrite Hdec.
  cbn [NATSScanResult.ScanID NATSScanResult.Port NATSScanResult.State
       NATSScanResult.IsOpen NATSScanResult.Error].
  split.
  - intros o id. destruct (begin w), (exec w),
      (Scanner.ScanResult.IsOpen r); cbn [app];
      rewrite ?elem_of_cons, ?elem_of_nil; intros H;
      repeat (destruct H as [H|H]; [subst o; cbn; congruence|]); done.
  - intros -> ->. split.
    + apply list_elem_of_further, list_elem_of_here.
    + intros ->. cbn [app].
      do 2 apply list_elem_of_further. apply list_elem_of_here.
Qed.

End Results.

